(** * FinalRecipe.py: the recipe catalogue, its importer and its CRUD methods

    A shallow embedding of [Prework file/FinalRecipe.py]: Python strings and
    the string methods the program calls, the [Ingredient] class, the SQLite
    store behind the [db_base] connection, and the methods of [RecipeDB]
    written in a state-and-exception monad over the object and its
    connection. *)

From Stdlib Require Import List ZArith NArith Lia Bool String Ascii.
Import ListNotations.

(** ** Python strings

    A [str] is a sequence of Unicode code points.  Only the methods the
    program calls are modelled: [strip()], [split(sep)] and
    [split(sep, maxsplit)] for a one-character separator. *)
Module PyStr.

Definition char := N.
Definition str := list char.

Definition str_eq_dec : forall a b : str, {a = b} + {a <> b} :=
  list_eq_dec N.eq_dec.

Definition eqb (a b : str) : bool := if str_eq_dec a b then true else false.

(** An ASCII literal as a [str]. *)
Definition lit (s : string) : str := map N_of_ascii (list_ascii_of_string s).

Definition SPACE : char := 32%N.
Definition COMMA : char := 44%N.
Definition TAB : char := 9%N.

(** [Py_UNICODE_ISSPACE]: the characters [str.strip()] removes when it is
    called without an argument. *)
Definition isspace (c : char) : bool :=
  ((9 <=? c) && (c <=? 13) || (28 <=? c) && (c <=? 32)
   || (c =? 133) || (c =? 160) || (c =? 5760)
   || (8192 <=? c) && (c <=? 8202)
   || (c =? 8232) || (c =? 8233) || (c =? 8239) || (c =? 8287)
   || (c =? 12288))%N.

Fixpoint drop_while (p : char -> bool) (s : str) : str :=
  match s with
  | [] => []
  | c :: s' => if p c then drop_while p s' else s
  end.

Fixpoint take_while (p : char -> bool) (s : str) : str :=
  match s with
  | [] => []
  | c :: s' => if p c then c :: take_while p s' else []
  end.

(** The ASCII part of [str.lower()]: what it does to a string of ASCII
    characters. *)
Definition ascii_lower (s : str) : str :=
  map (fun c => if (65 <=? c) && (c <=? 90) then c + 32 else c)%N s.

Definition lstrip (s : str) : str := drop_while isspace s.
Definition rstrip (s : str) : str := rev (drop_while isspace (rev s)).
Definition strip (s : str) : str := rstrip (lstrip s).

(** [s.split(sep)] is [split sep None s]; [s.split(sep, n)] is
    [split sep (Some n) s]: at most [n] cuts, left to right. *)
Definition may_cut (maxsplit : option nat) : bool :=
  match maxsplit with
  | Some O => false
  | _ => true
  end.

Definition after_cut (maxsplit : option nat) : option nat :=
  option_map pred maxsplit.

Fixpoint split (sep : char) (maxsplit : option nat) (s : str) : list str :=
  match s with
  | [] => [[]]
  | c :: s' =>
      if (c =? sep)%N && may_cut maxsplit
      then [] :: split sep (after_cut maxsplit) s'
      else match split sep maxsplit s' with
           | p :: ps => (c :: p) :: ps
           | [] => [[c]]
           end
  end.

End PyStr.

Import PyStr.

(** ** class Ingredient *)
Module Ingredient.

Record t := mk { quantity_ingredient : str; recipe_id : Z }.

(** [parse_ingredient]: returns [(name, quantity)], in that order.  The
    first case is [len(parts) > 1]; [split] never returns the empty list
    of the last case. *)
Definition parse_ingredient (ingredient_str : str) : str * str :=
  let parts := split SPACE (Some 1%nat) ingredient_str in
  match parts with
  | p0 :: p1 :: _ => (strip p1, strip p0)
  | [p0] => (strip p0, [])
  | [] => ([], [])
  end.

(** [__init__]: the f-string ["{quantity} {name}"]. *)
Definition init (ingredient_str : str) (recipe_id : Z) : t :=
  let '(name, quantity) := parse_ingredient ingredient_str in
  mk (quantity ++ [SPACE] ++ name) recipe_id.

End Ingredient.

(** The rule of the specification, written from its words: cut the string at
    its first run of whitespace; without whitespace the quantity is empty. *)
Module IngredientRule.

Definition not_space (c : char) : bool := negb (isspace c).

Definition tokens (s : str) : str * str :=
  if existsb isspace s
  then (take_while not_space s, drop_while isspace (drop_while not_space s))
  else ([], s).

Definition stored (s : str) : str :=
  let '(quantity, name) := tokens s in
  strip quantity ++ [SPACE] ++ strip name.

(** The first whitespace character of [s], when there is one, is U+0020. *)
Definition first_blank_is_space (s : str) : bool :=
  match drop_while not_space s with
  | [] => true
  | c :: _ => (c =? SPACE)%N
  end.

End IngredientRule.

(** ** The SQLite store

    The three tables of [reset_or_create_db], as the statements of this
    program read and write them.  Identifiers are integers ([Z]), a
    Python [int] being unbounded; the rowids SQLite hands out are taken
    from them without a bound, the exhaustion of the 64-bit rowid space
    being outside the model, while an identifier or a text that a caller
    passes is bound as [sqlite3] binds it (see [fits_integer] and
    [encodable]).  [db_base] is not part of the sources, so whether it
    switches [PRAGMA foreign_keys] on is left open: the connection
    carries the setting and every statement honours it. *)
Module Sqlite.

Record category_row := mk_category { cat_id : Z; cat_name : str }.

Record recipe_row :=
  mk_recipe { rec_id : Z; rec_name : str; rec_category_id : option Z }.

Record ingredient_row :=
  mk_ingredient { ing_id : Z; ing_quantity_ingredient : str; ing_recipe_id : Z }.

(** Each table keeps its rows in rowid order and, being AUTOINCREMENT, its
    entry of [sqlite_sequence]: the largest rowid the table ever held. *)
Record tables := mk_tables {
  category : list category_row;
  category_seq : Z;
  recipes : list recipe_row;
  recipes_seq : Z;
  ingredients : list ingredient_row;
  ingredients_seq : Z
}.

(** The store after the script of [reset_or_create_db] has run. *)
Definition fresh : tables := mk_tables [] 0 [] 0 [] 0.

(** Modelled from the spec: [db_base.DBbase] is not among the sources.
    Its [get_cursor] and [get_connection] are taken to be the one cursor
    and the one long-lived connection of the [sqlite3] module that all
    operations share, with the module's implicit transactions.  [live] is
    what the statements of this connection see, [durable] what the last
    [commit()] left in the database file, [foreign_keys] the pragma. *)
Record connection := mk_connection {
  live : tables;
  durable : tables;
  foreign_keys : bool
}.

Inductive constraint := UNIQUE_category_name | FOREIGN_KEY.

Inductive exn :=
| IntegrityError (c : constraint)
| KeyError (key : str)
| StopIteration
| OSError
| ReaderError
| OverflowError
| UnicodeEncodeError.

Definition max_rowid (ids : list Z) : Z := fold_right Z.max 0%Z ids.

(** AUTOINCREMENT: one more than the largest rowid that ever existed. *)
Definition next_rowid (ids : list Z) (seq : Z) : Z :=
  (Z.max seq (max_rowid ids) + 1)%Z.

Definition has_id (id : Z) (ids : list Z) : bool :=
  existsb (Z.eqb id) ids.

Definition set_category (t : tables) (rows : list category_row) (seq : Z) :=
  mk_tables rows seq (recipes t) (recipes_seq t)
            (ingredients t) (ingredients_seq t).

Definition set_recipes (t : tables) (rows : list recipe_row) (seq : Z) :=
  mk_tables (category t) (category_seq t) rows seq
            (ingredients t) (ingredients_seq t).

Definition set_ingredients (t : tables) (rows : list ingredient_row) (seq : Z) :=
  mk_tables (category t) (category_seq t) (recipes t) (recipes_seq t)
            rows seq.

Definition set_live (c : connection) (t : tables) : connection :=
  mk_connection t (durable c) (foreign_keys c).

(** A statement either raises, leaving the connection as it was, or yields
    a value and the connection after it. *)
Definition statement (A : Type) := connection -> exn + (A * connection).

(** *** Parameters

    [cursor.execute(sql, parameters)] binds the parameters before the
    statement runs.  An [int] has to fit SQLite's INTEGER, a signed 64-bit
    number: [sqlite3] raises [OverflowError] otherwise. *)
Definition fits_integer (z : Z) : bool :=
  ((- 2 ^ 63 <=? z) && (z <? 2 ^ 63))%Z.

(** A [str] is passed as UTF-8: [sqlite3] raises [UnicodeEncodeError] when
    it holds a surrogate code point, U+D800 to U+DFFF. *)
Definition encodable (s : str) : bool :=
  forallb (fun c => negb ((55296 <=? c) && (c <=? 57343))%N) s.

(** The rowids of a table are SQLite INTEGERs, so an identifier that one
    of its rows carries binds. *)
Definition binds_rowid (z : Z) (rowids : list Z) : bool :=
  fits_integer z || has_id z rowids.

(** The text of a column was stored as UTF-8, so a string that one of its
    rows holds binds. *)
Definition binds_text (s : str) (held : list str) : bool :=
  encodable s || existsb (eqb s) held.

(** [INSERT INTO category (name) VALUES (?)]; yields [lastrowid]. *)
Definition insert_category (name : str) : statement Z := fun c =>
  let t := live c in
  if existsb (fun r => eqb (cat_name r) name) (category t)
  then inl (IntegrityError UNIQUE_category_name)
  else
    let id := next_rowid (map cat_id (category t)) (category_seq t) in
    inr (id, set_live c (set_category t (category t ++ [mk_category id name]) id)).

(** [INSERT INTO recipes (name, category_id) VALUES (?, ?)] once its
    parameters are bound.  [save_to_database] runs it as it is: the name
    is text the csv reader decoded, the identifier a [lastrowid] or
    [None]. *)
Definition insert_staged_recipe (name : str) (category_id : option Z)
  : statement Z := fun c =>
  let t := live c in
  let orphan :=
    match category_id with
    | Some cid => negb (has_id cid (map cat_id (category t)))
    | None => false
    end in
  if foreign_keys c && orphan
  then inl (IntegrityError FOREIGN_KEY)
  else
    let id := next_rowid (map rec_id (recipes t)) (recipes_seq t) in
    inr (id, set_live c
               (set_recipes t (recipes t ++ [mk_recipe id name category_id]) id)).

(** The same statement with parameters a caller supplies, as [add_recipe]
    runs it: the name is bound first, then the identifier. *)
Definition insert_recipe (name : str) (category_id : option Z) : statement Z :=
  fun c =>
  let bound_category :=
    match category_id with
    | Some cid => binds_rowid cid (map cat_id (category (live c)))
    | None => true
    end in
  if negb (encodable name) then inl UnicodeEncodeError
  else if negb bound_category then inl OverflowError
  else insert_staged_recipe name category_id c.

(** [INSERT INTO ingredients (quantity_ingredient, recipe_id) VALUES (?, ?)]. *)
Definition insert_ingredient (quantity_ingredient : str) (recipe_id : Z)
  : statement Z := fun c =>
  let t := live c in
  if foreign_keys c && negb (has_id recipe_id (map rec_id (recipes t)))
  then inl (IntegrityError FOREIGN_KEY)
  else
    let id := next_rowid (map ing_id (ingredients t)) (ingredients_seq t) in
    inr (id, set_live c
               (set_ingredients t
                  (ingredients t ++ [mk_ingredient id quantity_ingredient recipe_id])
                  id)).

(** [DELETE FROM recipes WHERE id=?]: no ON DELETE action is declared, so
    with foreign keys enforced a recipe that ingredients refer to cannot be
    deleted. *)
Definition delete_recipe_by_id (recipe_id : Z) : statement unit := fun c =>
  let t := live c in
  if negb (binds_rowid recipe_id (map rec_id (recipes t)))
  then inl OverflowError
  else if foreign_keys c
     && has_id recipe_id (map rec_id (recipes t))
     && has_id recipe_id (map ing_recipe_id (ingredients t))
  then inl (IntegrityError FOREIGN_KEY)
  else
    inr (tt, set_live c
               (set_recipes t
                  (filter (fun r => negb (rec_id r =? recipe_id)%Z) (recipes t))
                  (recipes_seq t))).

(** [UPDATE recipes SET name=? WHERE id=?]: the name is bound first, then
    the identifier. *)
Definition update_recipe_name (new_name : str) (recipe_id : Z)
  : statement unit := fun c =>
  let t := live c in
  if negb (encodable new_name) then inl UnicodeEncodeError
  else if negb (binds_rowid recipe_id (map rec_id (recipes t)))
  then inl OverflowError
  else
  inr (tt, set_live c
             (set_recipes t
                (map (fun r => if (rec_id r =? recipe_id)%Z
                               then mk_recipe (rec_id r) new_name (rec_category_id r)
                               else r) (recipes t))
                (recipes_seq t))).

(** [UPDATE recipes SET category_id=? WHERE id=?]. *)
Definition update_recipe_category (category_id : option Z) (recipe_id : Z)
  : statement unit := fun c =>
  let t := live c in
  let orphan :=
    match category_id with
    | Some cid => negb (has_id cid (map cat_id (category t)))
    | None => false
    end in
  let bound_category :=
    match category_id with
    | Some cid => binds_rowid cid (map cat_id (category t))
    | None => true
    end in
  if negb bound_category then inl OverflowError
  else if negb (binds_rowid recipe_id (map rec_id (recipes t)))
  then inl OverflowError
  else if foreign_keys c && has_id recipe_id (map rec_id (recipes t)) && orphan
  then inl (IntegrityError FOREIGN_KEY)
  else
    inr (tt, set_live c
               (set_recipes t
                  (map (fun r => if (rec_id r =? recipe_id)%Z
                                 then mk_recipe (rec_id r) (rec_name r) category_id
                                 else r) (recipes t))
                  (recipes_seq t))).

(** [SELECT id FROM category WHERE name=?]: the result set. *)
Definition select_category_id (name : str) : statement (list Z) := fun c =>
  if negb (binds_text name (map cat_name (category (live c))))
  then inl UnicodeEncodeError
  else
  inr (map cat_id (filter (fun r => eqb (cat_name r) name) (category (live c))), c).

(** [cursor.fetchone()] on a result set: its first row, or [None]. *)
Definition fetchone (rows : list Z) : option Z := hd_error rows.

(** [connection.commit()]. *)
Definition commit : statement unit := fun c =>
  inr (tt, mk_connection (live c) (live c) (foreign_keys c)).

End Sqlite.

Import Sqlite.

(** ** Dictionaries

    [category_map] is iterated in insertion order, so a [dict] is kept as
    an association list: a key is stored once, at the place of its first
    assignment. *)
Module Dict.

Definition t (V : Type) := list (str * V).

Fixpoint get {V} (k : str) (d : t V) : option V :=
  match d with
  | [] => None
  | (k', v) :: d' => if eqb k' k then Some v else get k d'
  end.

Definition mem {V} (k : str) (d : t V) : bool :=
  match get k d with Some _ => true | None => false end.

Fixpoint set {V} (k : str) (v : V) (d : t V) : t V :=
  match d with
  | [] => [(k, v)]
  | (k', v') :: d' => if eqb k' k then (k', v) :: d' else (k', v') :: set k v d'
  end.

Definition keys {V} (d : t V) : list str := map fst d.

End Dict.

(** ** class RecipeDB *)
Module RecipeDB.

(** What the methods print, one constructor per [print] call. *)
Inductive msg :=
| CsvHeaders (headers : list str)
| SkippingInvalidRow (row : list str)
| DataReadSuccessfully
| ErrorReadingFile (e : exn)
| NumberOfRecordsToSave (n : nat)
| DataSavedSuccessfully
| SaveAborted
| CategoryDoesNotExist
| RecipeAddedSuccessfully
| ErrorAddingRecipe (e : exn)
| RecipeDeletedSuccessfully
| ErrorDeletingRecipe (e : exn)
| RecipeUpdatedSuccessfully
| ErrorUpdatingRecipe (e : exn)
| ErrorGettingCategoryId (category_name : str) (e : exn).

(** A staged recipe: [(recipe_name, category_name, ingredients)]. *)
Definition staged : Type := str * str * list str.

(** The object, its connection and the standard output. *)
Record world := mk_world {
  conn : connection;
  recipe_list : list staged;
  ingredient_list : list Ingredient.t;
  category_map : Dict.t (option Z);
  stdout : list msg
}.

(** [RecipeDB(db_name)] on a connection. *)
Definition init (c : connection) : world := mk_world c [] [] [] [].

(** The connection has no uncommitted change. *)
Definition nothing_pending (w : world) : Prop :=
  durable (conn w) = live (conn w).

Inductive res (A : Type) :=
| Ret (a : A)
| Raise (e : exn).
Arguments Ret {A} a.
Arguments Raise {A} e.

(** A method body: it ends by returning or by raising, in a new world. *)
Definition M (A : Type) := world -> res A * world.

Definition ret {A} (a : A) : M A := fun w => (Ret a, w).

Definition raise {A} (e : exn) : M A := fun w => (Raise e, w).

Definition bind {A B} (m : M A) (k : A -> M B) : M B := fun w =>
  match m w with
  | (Ret a, w') => k a w'
  | (Raise e, w') => (Raise e, w')
  end.

(** [try: body / except Exception as e: handler]. *)
Definition try_except {A} (body : M A) (handler : exn -> M A) : M A := fun w =>
  match body w with
  | (Ret a, w') => (Ret a, w')
  | (Raise e, w') => handler e w'
  end.

Declare Scope py_scope.
Delimit Scope py_scope with py.
Notation "x <- m ;; k" := (bind m (fun x => k))
  (at level 100, m at next level, right associativity) : py_scope.
Notation "m ;; k" := (bind m (fun _ => k))
  (at level 100, right associativity) : py_scope.
Open Scope py_scope.

(** [for x in l: body]. *)
Fixpoint for_each {A} (l : list A) (body : A -> M unit) : M unit :=
  match l with
  | [] => ret tt
  | x :: l' => body x ;; for_each l' body
  end.

Definition print (m : msg) : M unit := fun w =>
  (Ret tt, mk_world (conn w) (recipe_list w) (ingredient_list w)
                    (category_map w) (stdout w ++ [m])).

Definition get_recipe_list : M (list staged) := fun w => (Ret (recipe_list w), w).

Definition set_recipe_list (l : list staged) : M unit := fun w =>
  (Ret tt, mk_world (conn w) l (ingredient_list w) (category_map w) (stdout w)).

Definition get_category_map : M (Dict.t (option Z)) := fun w =>
  (Ret (category_map w), w).

Definition set_category_map (d : Dict.t (option Z)) : M unit := fun w =>
  (Ret tt, mk_world (conn w) (recipe_list w) (ingredient_list w) d (stdout w)).

(** [cursor.execute(...)] and [connection.commit()]. *)
Definition execute {A} (s : statement A) : M A := fun w =>
  match s (conn w) with
  | inl e => (Raise e, w)
  | inr (a, c) =>
      (Ret a, mk_world c (recipe_list w) (ingredient_list w)
                       (category_map w) (stdout w))
  end.

(** What [open(file_name)] and the [csv.reader] over it deliver: the file
    cannot be opened, or the reader yields [rows] and then either ends or
    raises. *)
Inductive csv_file :=
| Unopenable (e : exn)
| Opened (rows : list (list str)) (broken : option exn).

(** [next(csv_contents)]. *)
Definition next (rows : list (list str)) (broken : option exn)
  : M (list str * list (list str)) :=
  match rows with
  | headers :: rest => ret (headers, rest)
  | [] => match broken with
          | Some e => raise e
          | None => raise StopIteration
          end
  end.

(** The end of [for row in csv_contents]. *)
Definition exhausted (broken : option exn) : M unit :=
  match broken with
  | Some e => raise e
  | None => ret tt
  end.

(** The body of [for row in csv_contents]. *)
Definition read_row (row : list str) : M unit :=
  if (List.length row <? 3)%nat
  then print (SkippingInvalidRow row)
  else
    let recipe_name := nth 0 row [] in
    let category_name := nth 1 row [] in
    let ingredients := split COMMA None (nth 2 row []) in
    cm <- get_category_map ;;
    (if negb (Dict.mem category_name cm)
     then set_category_map (Dict.set category_name None cm)
     else ret tt) ;;
    rl <- get_recipe_list ;;
    set_recipe_list (rl ++ [(recipe_name, category_name, ingredients)]).

Definition read_recipe_data (file : csv_file) : M unit :=
  set_recipe_list [] ;;
  set_category_map [] ;;
  try_except
    (match file with
     | Unopenable e => raise e
     | Opened rows broken =>
         hr <- next rows broken ;;
         let '(headers, csv_contents) := hr in
         print (CsvHeaders headers) ;;
         for_each csv_contents read_row ;;
         exhausted broken ;;
         print DataReadSuccessfully
     end)
    (fun e => print (ErrorReadingFile e)).

(** The body of [for category_name in self.category_map.keys()]. *)
Definition save_category (category_name : str) : M unit :=
  lastrowid <- execute (insert_category category_name) ;;
  cm <- get_category_map ;;
  set_category_map (Dict.set category_name (Some lastrowid) cm).

(** The body of [for ingredient_str in ingredients]. *)
Definition save_ingredient (recipe_id : Z) (ingredient_str : str) : M unit :=
  let ingredient := Ingredient.init ingredient_str recipe_id in
  execute (insert_ingredient
             (Ingredient.quantity_ingredient ingredient) recipe_id) ;;
  ret tt.

(** [self.category_map[category_name]]. *)
Definition category_map_item (category_name : str) : M (option Z) :=
  cm <- get_category_map ;;
  match Dict.get category_name cm with
  | Some v => ret v
  | None => raise (KeyError category_name)
  end.

(** The body of [for recipe_name, category_name, ingredients in
    self.recipe_list]. *)
Definition save_recipe (r : staged) : M unit :=
  let '(recipe_name, category_name, ingredients) := r in
  category_id <- category_map_item category_name ;;
  recipe_id <- execute (insert_staged_recipe recipe_name category_id) ;;
  for_each ingredients (save_ingredient recipe_id) ;;
  execute commit.

Section Confirmation.

(** [str.lower()], the interpreter's Unicode case mapping, is not
    re-implemented: the methods are stated for any such function. *)
Variable lower : str -> str.

(** [answer] is what [input("Continue? (y/n): ")] returns. *)
Definition save_to_database (answer : str) : M unit :=
  rl <- get_recipe_list ;;
  print (NumberOfRecordsToSave (List.length rl)) ;;
  let save := strip (lower answer) in
  if eqb save (lit "y")
  then
    cm <- get_category_map ;;
    for_each (Dict.keys cm) save_category ;;
    execute commit ;;
    rl <- get_recipe_list ;;
    for_each rl save_recipe ;;
    print DataSavedSuccessfully
  else print SaveAborted.

End Confirmation.

(** The [except] branch is where a name ends that the SELECT cannot
    bind: the line is printed and [None] returned. *)
Definition get_category_id (category_name : str) : M (option Z) :=
  try_except
    (rows <- execute (select_category_id category_name) ;;
     let result := fetchone rows in
     ret result)
    (fun e => print (ErrorGettingCategoryId category_name e) ;; ret None).

Definition add_recipe (name category : str) : M unit :=
  category_id <- get_category_id category ;;
  match category_id with
  | None => print CategoryDoesNotExist
  | Some cid =>
      try_except
        (execute (insert_recipe name (Some cid)) ;;
         execute commit ;;
         print RecipeAddedSuccessfully)
        (fun e => print (ErrorAddingRecipe e))
  end.

Definition delete_recipe (recipe_id : Z) : M unit :=
  try_except
    (execute (delete_recipe_by_id recipe_id) ;;
     execute commit ;;
     print RecipeDeletedSuccessfully)
    (fun e => print (ErrorDeletingRecipe e)).

(** Python truth of an optional string argument: [None] and the empty
    string are false, every other string is true. *)
Definition truthy (s : option str) : bool :=
  match s with
  | Some (_ :: _) => true
  | _ => false
  end.

Definition update_recipe (recipe_id : Z) (new_name new_category : option str)
  : M unit :=
  try_except
    ((match new_name with
      | Some ((_ :: _) as n) => execute (update_recipe_name n recipe_id)
      | _ => ret tt
      end) ;;
     (match new_category with
      | Some ((_ :: _) as c) =>
          category_id <- get_category_id c ;;
          execute (update_recipe_category category_id recipe_id)
      | _ => ret tt
      end) ;;
     execute commit ;;
     print RecipeUpdatedSuccessfully)
    (fun e => print (ErrorUpdatingRecipe e)).

End RecipeDB.

Import RecipeDB.

(** ** Vocabulary of the further properties *)

(** [sep.join(parts)] for a one-character separator. *)
Fixpoint join (sep : char) (parts : list str) : str :=
  match parts with
  | [] => []
  | p :: ps =>
      match ps with
      | [] => p
      | _ :: _ => p ++ sep :: join sep ps
      end
  end.

(** The staging as [read_recipe_data] builds it: the category names are
    recorded once, none has an identifier yet, and every staged recipe
    has its category among them. *)
Definition staging_consistent (w : world) : Prop :=
  NoDup (Dict.keys (category_map w))
  /\ (forall k v, In (k, v) (category_map w) -> v = None)
  /\ (forall n c es, In (n, c, es) (recipe_list w) ->
        In c (Dict.keys (category_map w))).

(** Every recipes row with a category_id refers to a category row. *)
Definition category_refs_hold (t : tables) : Prop :=
  forall r cid, In r (recipes t) -> rec_category_id r = Some cid ->
                In cid (map cat_id (category t)).

(** Every ingredients row refers to a recipes row. *)
Definition recipe_refs_hold (t : tables) : Prop :=
  forall i, In i (ingredients t) ->
            In (ing_recipe_id i) (map rec_id (recipes t)).

(** The primary keys of the three tables and the UNIQUE category name. *)
Definition keys_unique (t : tables) : Prop :=
  NoDup (map cat_id (category t))
  /\ NoDup (map cat_name (category t))
  /\ NoDup (map rec_id (recipes t))
  /\ NoDup (map ing_id (ingredients t)).

(** ** Strings: lemmas *)

Lemma split_no_budget sep s : split sep (Some O) s = [s].
Proof.
  induction s as [|c s IH]; simpl; [reflexivity|].
  rewrite andb_false_r, IH. reflexivity.
Qed.

Lemma split_absent sep n s :
  ~ In sep s -> split sep n s = [s].
Proof.
  induction s as [|c s IH]; simpl; intros H; [reflexivity|].
  destruct (N.eqb_spec c sep) as [->|Hne]; [exfalso; apply H; now left|].
  simpl. rewrite IH by tauto. reflexivity.
Qed.

Lemma split_first_cut sep q r :
  ~ In sep q -> split sep (Some 1%nat) (q ++ sep :: r) = [q; r].
Proof.
  induction q as [|c q IH]; simpl; intros H.
  - rewrite N.eqb_refl. simpl. now rewrite split_no_budget.
  - destruct (N.eqb_spec c sep) as [->|Hne]; [exfalso; apply H; now left|].
    simpl. rewrite IH by tauto. reflexivity.
Qed.

Lemma split_nonempty sep n s : split sep n s <> [].
Proof.
  revert n. induction s as [|c s IH]; simpl; intros n; [discriminate|].
  destruct ((c =? sep)%N && may_cut n); [discriminate|].
  destruct (split sep n s) eqn:E; discriminate.
Qed.

Lemma in_split_first sep (s : str) :
  In sep s -> exists q r, s = q ++ sep :: r /\ ~ In sep q.
Proof.
  induction s as [|c s IH]; simpl; [tauto|].
  intros H. destruct (N.eq_dec c sep) as [->|Hne].
  - exists [], s. simpl. tauto.
  - destruct H as [H|H]; [contradiction|].
    destruct (IH H) as (q & r & -> & Hq).
    exists (c :: q), r. simpl. split; [reflexivity|]. intros [E|E]; auto.
Qed.

Lemma lstrip_idem s : lstrip (lstrip s) = lstrip s.
Proof.
  unfold lstrip. induction s as [|c s IH]; simpl; [reflexivity|].
  destruct (isspace c) eqn:E; [exact IH|]. simpl. now rewrite E.
Qed.

Lemma strip_lstrip s : strip (lstrip s) = strip s.
Proof. unfold strip. now rewrite lstrip_idem. Qed.

Lemma isspace_SPACE : isspace SPACE = true.
Proof. reflexivity. Qed.

Lemma take_drop_while p s : take_while p s ++ drop_while p s = s.
Proof.
  induction s as [|c s IH]; simpl; [reflexivity|].
  destruct (p c); simpl; [now rewrite IH | reflexivity].
Qed.

Lemma take_while_all p s c : In c (take_while p s) -> p c = true.
Proof.
  induction s as [|d s IH]; simpl; [tauto|].
  destruct (p d) eqn:E; simpl; [|tauto].
  intros [<-|H]; auto.
Qed.

Lemma drop_while_head p s c r : drop_while p s = c :: r -> p c = false.
Proof.
  induction s as [|d s IH]; simpl; [discriminate|].
  destruct (p d) eqn:E; [exact IH|]. intros H. now inversion H; subst.
Qed.

Lemma no_blank_no_cut s :
  drop_while IngredientRule.not_space s = [] -> existsb isspace s = false.
Proof.
  unfold IngredientRule.not_space.
  induction s as [|c s IH]; simpl; [reflexivity|].
  destruct (isspace c); simpl; [discriminate | exact IH].
Qed.

Lemma blank_found s c r :
  drop_while IngredientRule.not_space s = c :: r -> existsb isspace s = true.
Proof.
  unfold IngredientRule.not_space.
  induction s as [|d s IH]; simpl; [discriminate|].
  destruct (isspace d); simpl; [reflexivity | exact IH].
Qed.

Lemma stored_split s rid :
  Ingredient.quantity_ingredient (Ingredient.init s rid) =
  match split SPACE (Some 1%nat) s with
  | p0 :: p1 :: _ => strip p0 ++ [SPACE] ++ strip p1
  | [p0] => [SPACE] ++ strip p0
  | [] => [SPACE]
  end.
Proof.
  unfold Ingredient.init, Ingredient.parse_ingredient.
  destruct (split SPACE (Some 1%nat) s) as [|p0 [|p1 ps]]; reflexivity.
Qed.

Lemma stored_cut q r rid :
  ~ In SPACE q ->
  Ingredient.quantity_ingredient (Ingredient.init (q ++ SPACE :: r) rid) =
  strip q ++ [SPACE] ++ strip r.
Proof. intros H. now rewrite stored_split, split_first_cut. Qed.

Lemma stored_uncut s rid :
  ~ In SPACE s ->
  Ingredient.quantity_ingredient (Ingredient.init s rid) = [SPACE] ++ strip s.
Proof. intros H. now rewrite stored_split, split_absent. Qed.

Lemma stored_agrees_with_rule s rid :
  IngredientRule.first_blank_is_space s = true ->
  Ingredient.quantity_ingredient (Ingredient.init s rid) = IngredientRule.stored s.
Proof.
  unfold IngredientRule.first_blank_is_space, IngredientRule.stored,
    IngredientRule.tokens.
  intros H.
  pose proof (take_drop_while IngredientRule.not_space s) as Hs.
  destruct (drop_while IngredientRule.not_space s) as [|c r] eqn:E.
  - rewrite (no_blank_no_cut _ E).
    rewrite app_nil_r in Hs.
    apply stored_uncut. intros Hin. rewrite <- Hs in Hin.
    apply take_while_all in Hin. unfold IngredientRule.not_space in Hin.
    now rewrite isspace_SPACE in Hin.
  - rewrite (blank_found _ _ _ E).
    apply N.eqb_eq in H. subst c.
    rewrite <- Hs at 1. rewrite stored_cut.
    + simpl drop_while. fold (lstrip r). now rewrite strip_lstrip.
    + intros Hin. apply take_while_all in Hin.
      unfold IngredientRule.not_space in Hin. now rewrite isspace_SPACE in Hin.
Qed.

(** ** C1: what an ingredient string is stored as *)

Example stored_2_cups_flour :
  Ingredient.quantity_ingredient (Ingredient.init (lit "2 cups flour") 1)
  = lit "2 cups flour".
Proof. reflexivity. Qed.

Example stored_padded :
  Ingredient.quantity_ingredient (Ingredient.init (lit "  2   cups  ") 1)
  = lit " 2   cups".
Proof. reflexivity. Qed.

Example stored_empty :
  Ingredient.quantity_ingredient (Ingredient.init [] 1) = lit " ".
Proof. reflexivity. Qed.

(** C1, as the specification words it, fails: a tab is whitespace but does
    not cut the string, so ["2<TAB>cups"] is stored as [" 2<TAB>cups"] where
    the rule of the specification gives ["2 cups"]. *)
Lemma C1_tab_is_not_a_cut :
  let s := lit "2" ++ [TAB] ++ lit "cups" in
  Ingredient.quantity_ingredient (Ingredient.init s 1) = lit " 2" ++ [TAB] ++ lit "cups"
  /\ IngredientRule.stored s = lit "2 cups"
  /\ Ingredient.quantity_ingredient (Ingredient.init s 1) <> IngredientRule.stored s.
Proof.
  cbv zeta. split; [reflexivity|]. split; [reflexivity|].
  vm_compute. discriminate.
Qed.

(** C1 (amended): for every raw ingredient string the stored value is the
    quantity token, one space, and the name, where the string is cut at its
    first space character U+0020 (no other whitespace cuts) and both tokens
    are stripped; without a space character the quantity is empty, so
    ["salt"] is stored as [" salt"].  Whenever the first whitespace
    character of the string is a space, or it has none, this is the value of
    the specification's rule (cut at the first whitespace run). *)
Theorem C1_stored_value_cut_at_first_space (s : str) (rid : Z) :
  let v := Ingredient.quantity_ingredient (Ingredient.init s rid) in
  (forall q r, s = q ++ SPACE :: r -> ~ In SPACE q ->
     v = strip q ++ [SPACE] ++ strip r)
  /\ (~ In SPACE s -> v = [SPACE] ++ strip s)
  /\ (IngredientRule.first_blank_is_space s = true -> v = IngredientRule.stored s)
  /\ Ingredient.quantity_ingredient (Ingredient.init (lit "salt") rid) = lit " salt".
Proof.
  cbv zeta. repeat split.
  - intros q r -> Hq. now apply stored_cut.
  - apply stored_uncut.
  - apply stored_agrees_with_rule.
Qed.

Lemma C1_stored_value_witness :
  Ingredient.quantity_ingredient (Ingredient.init (lit "2 cups  flour") 7)
  = lit "2 cups  flour"
  /\ Ingredient.quantity_ingredient (Ingredient.init (lit "2  cups ") 7)
     = IngredientRule.stored (lit "2  cups ")
  /\ Ingredient.quantity_ingredient (Ingredient.init (lit "salt") 7)
     = [SPACE] ++ strip (lit "salt").
Proof.
  pose proof (C1_stored_value_cut_at_first_space (lit "2 cups  flour") 7) as H1.
  pose proof (C1_stored_value_cut_at_first_space (lit "2  cups ") 7) as H2.
  pose proof (C1_stored_value_cut_at_first_space (lit "salt") 7) as H3.
  cbv zeta in H1, H2, H3.
  destruct H1 as [H1 _]. destruct H2 as (_ & _ & H2 & _). destruct H3 as (_ & H3 & _).
  split; [|split].
  - rewrite (H1 (lit "2") (lit "cups  flour")).
    + reflexivity.
    + reflexivity.
    + vm_compute. intros [H|[]]. discriminate H.
  - apply H2. reflexivity.
  - apply H3. vm_compute. intros H.
    repeat (destruct H as [H|H]; [discriminate H|]). exact H.
Defined.

(** ** The store: lemmas *)

Arguments eqb : simpl never.
Arguments next_rowid : simpl never.

Lemma eqb_eq (a b : str) : eqb a b = true <-> a = b.
Proof. unfold eqb. destruct (str_eq_dec a b); split; congruence. Qed.

Lemma eqb_neq (a b : str) : eqb a b = false <-> a <> b.
Proof. unfold eqb. destruct (str_eq_dec a b); split; congruence. Qed.

Lemma eqb_refl (a : str) : eqb a a = true.
Proof. now apply eqb_eq. Qed.

Lemma has_id_In id ids : has_id id ids = true <-> In id ids.
Proof.
  unfold has_id. rewrite existsb_exists. split.
  - intros (x & Hx & E). apply Z.eqb_eq in E. now subst.
  - intros H. exists id. split; [exact H | apply Z.eqb_refl].
Qed.

Lemma name_taken_In name (rows : list category_row) :
  existsb (fun r => eqb (cat_name r) name) rows = true
  <-> In name (map cat_name rows).
Proof.
  rewrite existsb_exists, in_map_iff. split.
  - intros (r & Hr & E). apply eqb_eq in E. eauto.
  - intros (r & E & Hr). exists r. split; [exact Hr | now apply eqb_eq].
Qed.

Lemma name_free name (rows : list category_row) :
  ~ In name (map cat_name rows) ->
  existsb (fun r => eqb (cat_name r) name) rows = false.
Proof.
  intros H. destruct (existsb _ rows) eqn:E; [|reflexivity].
  apply name_taken_In in E. contradiction.
Qed.

Lemma select_unknown name (rows : list category_row) :
  ~ In name (map cat_name rows) ->
  filter (fun r => eqb (cat_name r) name) rows = [].
Proof.
  induction rows as [|r rows IH]; simpl; intros H; [reflexivity|].
  destruct (eqb (cat_name r) name) eqn:E.
  - apply eqb_eq in E. tauto.
  - apply IH. tauto.
Qed.

Lemma select_known name (rows : list category_row) id :
  fetchone (map cat_id (filter (fun r => eqb (cat_name r) name) rows)) = Some id ->
  exists r, In r rows /\ cat_id r = id /\ cat_name r = name.
Proof.
  unfold fetchone.
  destruct (filter _ rows) as [|r l] eqn:E; simpl; [discriminate|].
  intros H. inversion H; subst. exists r.
  assert (Hin : In r (filter (fun r => eqb (cat_name r) name) rows))
    by (rewrite E; now left).
  apply filter_In in Hin. destruct Hin as [Hin Hn]. apply eqb_eq in Hn. auto.
Qed.

(** *** Binding *)

Arguments fits_integer : simpl never.
Arguments encodable : simpl never.
Arguments binds_rowid : simpl never.
Arguments binds_text : simpl never.

Lemma held_In (s : str) (held : list str) :
  existsb (eqb s) held = true <-> In s held.
Proof.
  rewrite existsb_exists. split.
  - intros (x & Hx & E). apply eqb_eq in E. now subst.
  - intros H. exists s. split; [exact H | apply eqb_refl].
Qed.

Lemma encodable_binds (s : str) (held : list str) :
  encodable s = true -> binds_text s held = true.
Proof. unfold binds_text. now intros ->. Qed.

Lemma held_binds (s : str) (held : list str) :
  In s held -> binds_text s held = true.
Proof.
  intros H. unfold binds_text. apply held_In in H. rewrite H.
  apply orb_true_r.
Qed.

Lemma unbound_text_unknown (s : str) (held : list str) :
  binds_text s held = false -> ~ In s held.
Proof.
  intros H Hin. rewrite (held_binds _ _ Hin) in H. discriminate.
Qed.

Lemma fits_binds (z : Z) (ids : list Z) :
  fits_integer z = true -> binds_rowid z ids = true.
Proof. unfold binds_rowid. now intros ->. Qed.

Lemma in_binds (z : Z) (ids : list Z) : In z ids -> binds_rowid z ids = true.
Proof.
  intros H. unfold binds_rowid. apply has_id_In in H. rewrite H.
  apply orb_true_r.
Qed.

Lemma unbound_rowid_absent (z : Z) (ids : list Z) :
  binds_rowid z ids = false -> ~ In z ids.
Proof.
  intros H Hin. rewrite (in_binds _ _ Hin) in H. discriminate.
Qed.

(** The parameters of a statement that ran were bound. *)
Ltac bound_parameters :=
  cbv zeta;
  repeat match goal with
  | |- (if negb ?b then inl _ else _) = inr _ -> _ =>
      destruct b; cbn [negb]; [|discriminate]
  end.

(** *** get_category_id *)

(** With a name that binds [get_category_id] only reads: it returns what
    [fetchone] gives and leaves the world as it was. *)
Lemma get_category_id_reads name w :
  binds_text name (map cat_name (category (live (conn w)))) = true ->
  get_category_id name w =
  (Ret (fetchone (map cat_id (filter (fun r => eqb (cat_name r) name)
                                     (category (live (conn w)))))), w).
Proof.
  destruct w as [c rl il cm out]. simpl. intros H.
  unfold get_category_id, try_except, bind, execute, select_category_id.
  simpl. rewrite H. reflexivity.
Qed.

(** With a name that does not bind the SELECT raises: the handler prints
    its line and [None] is returned. *)
Lemma get_category_id_fails name w :
  binds_text name (map cat_name (category (live (conn w)))) = false ->
  get_category_id name w =
  (Ret None, mk_world (conn w) (recipe_list w) (ingredient_list w)
                      (category_map w)
                      (stdout w ++ [ErrorGettingCategoryId name UnicodeEncodeError])).
Proof.
  destruct w as [c rl il cm out]. simpl. intros H.
  unfold get_category_id, try_except, bind, execute, select_category_id.
  simpl. rewrite H. reflexivity.
Qed.

(** Either way it returns what [fetchone] would give, and only the output
    can have changed. *)
Lemma get_category_id_runs name w :
  exists out,
    get_category_id name w =
    (Ret (fetchone (map cat_id (filter (fun r => eqb (cat_name r) name)
                                       (category (live (conn w)))))),
     mk_world (conn w) (recipe_list w) (ingredient_list w) (category_map w) out).
Proof.
  destruct (binds_text name (map cat_name (category (live (conn w))))) eqn:E.
  - exists (stdout w). rewrite (get_category_id_reads _ _ E).
    destruct w; reflexivity.
  - exists (stdout w ++ [ErrorGettingCategoryId name UnicodeEncodeError]).
    rewrite (get_category_id_fails _ _ E).
    rewrite (select_unknown _ _ (unbound_text_unknown _ _ E)). reflexivity.
Qed.

Lemma insert_recipe_bound name v c x :
  insert_recipe name v c = inr x -> insert_staged_recipe name v c = inr x.
Proof.
  unfold insert_recipe.
  destruct (negb (encodable name)); [discriminate|].
  destruct (negb _); [discriminate|]. auto.
Qed.

(** ** C5: add_recipe with an unknown category *)

(** C5: for every name and category, when no category row carries that
    category name, [add_recipe] adds no recipe row and no category row:
    the connection (its live tables and its committed ones) and the
    staging lists are exactly what they were.  When the category name
    encodes as UTF-8, it returns after printing that the category does not
    exist, and nothing else. *)
Theorem C5_add_recipe_unknown_category (w : world) (name category_name : str) :
  ~ In category_name (map cat_name (category (live (conn w)))) ->
  let w' := snd (add_recipe name category_name w) in
  conn w' = conn w
  /\ recipe_list w' = recipe_list w
  /\ ingredient_list w' = ingredient_list w
  /\ category_map w' = category_map w
  /\ (encodable category_name = true ->
      add_recipe name category_name w =
      (Ret tt, mk_world (conn w) (recipe_list w) (ingredient_list w)
                        (category_map w) (stdout w ++ [CategoryDoesNotExist]))).
Proof.
  intros H. cbv zeta.
  assert (Hstate : exists out,
            add_recipe name category_name w =
            (Ret tt, mk_world (conn w) (recipe_list w) (ingredient_list w)
                              (category_map w) out)).
  { destruct (get_category_id_runs category_name w) as (out & E).
    rewrite (select_unknown _ _ H) in E.
    exists (out ++ [CategoryDoesNotExist]).
    unfold add_recipe, bind. rewrite E. reflexivity. }
  destruct Hstate as (out & E).
  split; [rewrite E; reflexivity|].
  split; [rewrite E; reflexivity|].
  split; [rewrite E; reflexivity|].
  split; [rewrite E; reflexivity|].
  intros He. unfold add_recipe, bind.
  rewrite (get_category_id_reads _ _ (encodable_binds _ _ He)).
  rewrite (select_unknown _ _ H). reflexivity.
Qed.

Lemma C5_add_recipe_unknown_category_witness :
  let w := init (mk_connection
                   (mk_tables [mk_category 1 (lit "Dessert")] 1 [] 0 [] 0)
                   (mk_tables [mk_category 1 (lit "Dessert")] 1 [] 0 [] 0)
                   false) in
  add_recipe (lit "Soup") (lit "NonexistentCategory") w =
  (Ret tt, mk_world (conn w) [] [] [] [CategoryDoesNotExist]).
Proof.
  cbv zeta.
  refine (proj2 (proj2 (proj2 (proj2
    (C5_add_recipe_unknown_category
       (init (mk_connection
                (mk_tables [mk_category 1 (lit "Dessert")] 1 [] 0 [] 0)
                (mk_tables [mk_category 1 (lit "Dessert")] 1 [] 0 [] 0)
                false))
       (lit "Soup") (lit "NonexistentCategory") _)))) _).
  - vm_compute. intros [H|[]]. discriminate H.
  - reflexivity.
Defined.

(** ** C10: add_recipe inserts only under an existing category *)

(** C10: the recipes table changes only when [get_category_id] returned an
    identifier [cid]: then [add_recipe] returns, and it has appended at
    most one row, whose category_id is [cid], not null, the identifier of
    a category row of that name; the row is appended whenever the recipe
    name encodes as UTF-8.  When [get_category_id] returns [None] the
    recipes table is left as it was.  The category table is never
    changed. *)
Theorem C10_add_recipe_category_exists (w : world) (name category_name : str) :
  let w' := snd (add_recipe name category_name w) in
  let t := live (conn w) in
  let t' := live (conn w') in
  category t' = category t
  /\ match fst (get_category_id category_name w) with
     | Ret (Some cid) =>
         let row :=
           mk_recipe (next_rowid (map rec_id (recipes t)) (recipes_seq t))
                     name (Some cid) in
         fst (add_recipe name category_name w) = Ret tt
         /\ (exists c, In c (category t') /\ cat_id c = cid
                       /\ cat_name c = category_name)
         /\ (recipes t' = recipes t ++ [row] \/ recipes t' = recipes t)
         /\ (encodable name = true -> recipes t' = recipes t ++ [row])
     | _ => recipes t' = recipes t
     end.
Proof.
  cbv zeta. unfold add_recipe, bind.
  destruct (get_category_id_runs category_name w) as (out & E).
  rewrite E. simpl fst.
  destruct (fetchone _) as [cid|] eqn:Ef.
  - destruct (select_known _ _ _ Ef) as (c & Hc & Hid & Hn).
    assert (Hin : In cid (map cat_id (category (live (conn w))))).
    { rewrite <- Hid. now apply in_map. }
    pose proof (in_binds _ _ Hin) as Hb. apply has_id_In in Hin.
    destruct w as [cn rl il cm out0]. destruct cn as [lv du fk].
    unfold try_except, bind, execute, insert_recipe, insert_staged_recipe.
    simpl in *. rewrite Hb, Hin. simpl. rewrite andb_false_r.
    destruct (encodable name); simpl.
    + repeat split; eauto.
    + repeat split; eauto. discriminate.
  - destruct w as [cn rl il cm out0]. simpl. auto.
Qed.

Lemma C10_add_recipe_category_exists_witness :
  let t := mk_tables [mk_category 1 (lit "Dessert")] 1
                     [mk_recipe 1 (lit "Pie") (Some 1%Z)] 1 [] 0 in
  let w := init (mk_connection t t true) in
  recipes (live (conn (snd (add_recipe (lit "Tart") (lit "Dessert") w))))
  = [mk_recipe 1 (lit "Pie") (Some 1%Z); mk_recipe 2 (lit "Tart") (Some 1%Z)].
Proof.
  cbv zeta.
  pose proof (C10_add_recipe_category_exists
    (init (mk_connection
       (mk_tables [mk_category 1 (lit "Dessert")] 1
                  [mk_recipe 1 (lit "Pie") (Some 1%Z)] 1 [] 0)
       (mk_tables [mk_category 1 (lit "Dessert")] 1
                  [mk_recipe 1 (lit "Pie") (Some 1%Z)] 1 [] 0) true))
    (lit "Tart") (lit "Dessert")) as H.
  cbv zeta in H. destruct H as [_ H].
  change (fst (get_category_id (lit "Dessert")
            (init (mk_connection
               (mk_tables [mk_category 1 (lit "Dessert")] 1
                          [mk_recipe 1 (lit "Pie") (Some 1%Z)] 1 [] 0)
               (mk_tables [mk_category 1 (lit "Dessert")] 1
                          [mk_recipe 1 (lit "Pie") (Some 1%Z)] 1 [] 0) true))))
    with (@Ret (option Z) (Some 1%Z)) in H.
  cbv iota in H. destruct H as (_ & _ & _ & H).
  rewrite H; reflexivity.
Defined.

(** ** update_recipe: what it writes *)

(** [update_recipe] never raises. *)
Lemma update_recipe_returns (recipe_id : Z) (new_name new_category : option str)
    (w : world) :
  fst (update_recipe recipe_id new_name new_category w) = Ret tt.
Proof.
  unfold update_recipe, try_except.
  match goal with |- fst (match ?b with _ => _ end) = _ =>
    destruct b as [[[]|e] w1] end; reflexivity.
Qed.

(** An UPDATE keeps the identifiers of the rows. *)
Lemma updated_ids (F : recipe_row -> recipe_row) (rows : list recipe_row) :
  (forall r, rec_id (F r) = rec_id r) ->
  map rec_id (map F rows) = map rec_id rows.
Proof.
  intros H. rewrite map_map. apply map_ext. exact H.
Qed.

Lemma selected_id_exists name (rows : list category_row) cid :
  fetchone (map cat_id (filter (fun r => eqb (cat_name r) name) rows)) = Some cid ->
  In cid (map cat_id rows).
Proof.
  intros H. destruct (select_known _ _ _ H) as (r & Hr & <- & _).
  now apply in_map.
Qed.

(** The second UPDATE never violates the foreign key, and the identifier
    it is given binds: both come from the category table. *)
Lemma selected_id_is_no_orphan (fk : bool) (c : str) (cat : list category_row)
    (flag : bool) :
  fk && flag
  && match fetchone (map cat_id (filter (fun k => eqb (cat_name k) c) cat)) with
     | Some cid => negb (has_id cid (map cat_id cat))
     | None => false
     end = false.
Proof.
  destruct (fetchone _) as [cid|] eqn:E.
  - apply selected_id_exists in E. apply has_id_In in E. rewrite E.
    apply andb_false_r.
  - apply andb_false_r.
Qed.

Lemma selected_id_binds (c : str) (cat : list category_row) :
  match fetchone (map cat_id (filter (fun k => eqb (cat_name k) c) cat)) with
  | Some cid => binds_rowid cid (map cat_id cat)
  | None => true
  end = true.
Proof.
  destruct (fetchone _) as [cid|] eqn:E; [|reflexivity].
  apply in_binds. exact (selected_id_exists _ _ _ E).
Qed.

(** The run of [update_recipe] when its parameters bind. *)
Lemma update_recipe_runs
    (w : world) (recipe_id : Z) (new_name new_category : option str) :
  fits_integer recipe_id = true ->
  (forall n, new_name = Some n -> encodable n = true) ->
  (forall c, new_category = Some c -> encodable c = true) ->
  let t := live (conn w) in
  let name_of r :=
    match new_name with
    | Some ((_ :: _) as n) => n
    | _ => rec_name r
    end in
  let category_of r :=
    match new_category with
    | Some ((_ :: _) as c) =>
        fetchone (map cat_id (filter (fun k => eqb (cat_name k) c) (category t)))
    | _ => rec_category_id r
    end in
  let t' :=
    set_recipes t
      (map (fun r => if (rec_id r =? recipe_id)%Z
                     then mk_recipe (rec_id r) (name_of r) (category_of r)
                     else r) (recipes t))
      (recipes_seq t) in
  update_recipe recipe_id new_name new_category w =
  (Ret tt, mk_world (mk_connection t' t' (foreign_keys (conn w)))
             (recipe_list w) (ingredient_list w) (category_map w)
             (stdout w ++ [RecipeUpdatedSuccessfully])).
Proof.
  intros Hfit Hn Hc. cbv zeta.
  destruct w as [[[cat cseq recs rseq ings iseq] du fk] rl il cm out].
  cbn [conn live category recipes recipes_seq foreign_keys recipe_list
       ingredient_list category_map stdout].
  destruct new_name as [[|n0 ns]|]; destruct new_category as [[|c0 cs]|];
      unfold update_recipe, try_except, bind, execute, get_category_id,
        try_except, bind, execute, select_category_id, update_recipe_name,
        update_recipe_category, commit, print, ret, set_live, set_recipes;
      simpl;
      repeat (progress
                (rewrite ?(Hn _ eq_refl), ?(encodable_binds _ _ (Hc _ eq_refl)),
                   ?(fits_binds _ _ Hfit), ?selected_id_binds,
                   ?selected_id_is_no_orphan; simpl));
      rewrite ?map_map;
      first
        [ reflexivity
        | match goal with
          | |- (_, mk_world (mk_connection (mk_tables _ _ (map ?F _) _ _ _) _ _)
                            _ _ _ _)
               = (_, mk_world (mk_connection (mk_tables _ _ (map ?G _) _ _ _) _ _)
                              _ _ _ _) =>
              rewrite (map_ext F G)
                by (intros r; destruct (rec_id r =? recipe_id)%Z eqn:Er; simpl;
                    rewrite ?Er; reflexivity)
          end; reflexivity
        | match goal with
          | |- _ = (_, mk_world (mk_connection (mk_tables _ _ (map ?G _) _ _ _) _ _)
                                _ _ _ _) =>
              rewrite (map_ext G (fun r => r))
                by (intros r; destruct (rec_id r =? recipe_id)%Z;
                    [destruct r|]; reflexivity)
          end; rewrite map_id; reflexivity ].
Qed.

(** The tables [update_recipe] leaves, for every state and all arguments:
    a new name that does not encode stops it before anything is written;
    an identifier that does not bind is one no row carries. *)
Lemma update_recipe_live
    (w : world) (recipe_id : Z) (new_name new_category : option str) :
  let t := live (conn w) in
  let name_of r :=
    match new_name with
    | Some ((_ :: _) as n) => n
    | _ => rec_name r
    end in
  let category_of r :=
    match new_category with
    | Some ((_ :: _) as c) =>
        fetchone (map cat_id (filter (fun k => eqb (cat_name k) c) (category t)))
    | _ => rec_category_id r
    end in
  let t' :=
    set_recipes t
      (map (fun r => if (rec_id r =? recipe_id)%Z
                     then mk_recipe (rec_id r) (name_of r) (category_of r)
                     else r) (recipes t))
      (recipes_seq t) in
  live (conn (snd (update_recipe recipe_id new_name new_category w))) =
  match new_name with
  | Some ((_ :: _) as n) => if encodable n then t' else t
  | _ => t'
  end.
Proof.
  cbv zeta.
  destruct w as [[[cat cseq recs rseq ings iseq] du fk] rl il cm out].
  cbn [conn live category recipes recipes_seq foreign_keys recipe_list
       ingredient_list category_map stdout].
  assert (Habsent : forall G : recipe_row -> recipe_row,
            binds_rowid recipe_id (map rec_id recs) = false ->
            map (fun r => if (rec_id r =? recipe_id)%Z then G r else r) recs = recs).
  { intros G Eb. apply unbound_rowid_absent in Eb.
    erewrite map_ext_in; [apply map_id|].
    intros r Hr. destruct (Z.eqb_spec (rec_id r) recipe_id) as [E|E];
      [|reflexivity].
    exfalso. apply Eb. rewrite <- E. now apply in_map. }
  assert (Hids : forall G : recipe_row -> recipe_row,
            (forall r, rec_id (G r) = rec_id r) ->
            binds_rowid recipe_id
              (map rec_id (map (fun r => if (rec_id r =? recipe_id)%Z
                                         then G r else r) recs))
            = binds_rowid recipe_id (map rec_id recs)).
  { intros G HG. rewrite updated_ids; [reflexivity|].
    intros r. destruct (rec_id r =? recipe_id)%Z; [apply HG | reflexivity]. }
  destruct (binds_rowid recipe_id (map rec_id recs)) eqn:Eb.
  all: destruct new_name as [[|n0 ns]|]; destruct new_category as [[|c0 cs]|].
  all: try (destruct (encodable (n0 :: ns)) eqn:En).
  all: try (destruct (binds_text (c0 :: cs) (map cat_name cat)) eqn:Et).
  all: unfold update_recipe, try_except, bind, execute, get_category_id,
         try_except, bind, execute, select_category_id, update_recipe_name,
         update_recipe_category, commit, print, ret, set_live, set_recipes;
       simpl.
  all: repeat (progress
                 (try rewrite En; try rewrite Et; try rewrite Eb;
                  rewrite ?selected_id_binds, ?Hids,
                    ?selected_id_is_no_orphan, ?andb_false_r
                    by (intros r; reflexivity); simpl)).
  all: try (rewrite (select_unknown _ _ (unbound_text_unknown _ _ Et))).
  all: rewrite ?Habsent by reflexivity.
  all: rewrite ?map_map.
  all: try reflexivity.
  all: f_equal;
    first
      [ apply map_ext; intros r;
        destruct (rec_id r =? recipe_id)%Z eqn:Er; simpl; rewrite ?Er; reflexivity
      | symmetry; erewrite map_ext; [apply map_id|];
        intros r; destruct (rec_id r =? recipe_id)%Z; [destruct r|]; reflexivity ].
Qed.

(** ** C6: update_recipe with an unknown category *)

(** C6: for every recipe identifier and every non-empty new category name
    that no category row carries, [update_recipe] does not raise and does
    not leave the category as it was: it returns, and every recipes row
    with that identifier now has a null category_id (and the new name,
    when one was given); the other rows and the other two tables are as
    before.  When the identifier is an integer of SQLite (as that of
    every recipes row is) the UPDATE has run: the success message is the
    only output and the tables are committed.  The names are text that
    encodes as UTF-8. *)
Theorem C6_update_recipe_unknown_category
    (w : world) (recipe_id : Z) (new_name : option str) (new_category : str) :
  new_category <> [] ->
  ~ In new_category (map cat_name (category (live (conn w)))) ->
  encodable new_category = true ->
  (forall n, new_name = Some n -> encodable n = true) ->
  let w' := snd (update_recipe recipe_id new_name (Some new_category) w) in
  let t := live (conn w) in
  let t' := live (conn w') in
  fst (update_recipe recipe_id new_name (Some new_category) w) = Ret tt
  /\ recipes t' =
     map (fun r => if (rec_id r =? recipe_id)%Z
                   then mk_recipe (rec_id r)
                          (match new_name with
                           | Some ((_ :: _) as n) => n
                           | _ => rec_name r
                           end) None
                   else r) (recipes t)
  /\ (forall r, In r (recipes t') -> rec_id r = recipe_id ->
                rec_category_id r = None)
  /\ category t' = category t
  /\ ingredients t' = ingredients t
  /\ (fits_integer recipe_id = true ->
      stdout w' = stdout w ++ [RecipeUpdatedSuccessfully]
      /\ durable (conn w') = t').
Proof.
  intros Hne Hfree Hcat Hname. cbv zeta.
  destruct new_category as [|c0 cs]; [congruence|].
  assert (Hc : forall c, Some (c0 :: cs) = Some c -> encodable c = true).
  { intros c H. inversion H; subst. exact Hcat. }
  pose proof (update_recipe_live w recipe_id new_name (@Some str (c0 :: cs))) as El.
  cbv beta iota zeta in El. rewrite (select_unknown _ _ Hfree) in El.
  change (fetchone (map cat_id [])) with (@None Z) in El.
  assert (El' : live (conn (snd (update_recipe recipe_id new_name
                                   (@Some str (c0 :: cs)) w)))
                = set_recipes (live (conn w))
                    (map (fun r => if (rec_id r =? recipe_id)%Z
                            then mk_recipe (rec_id r)
                                   (match new_name with
                                    | Some ((_ :: _) as n) => n
                                    | _ => rec_name r
                                    end) None
                            else r) (recipes (live (conn w))))
                    (recipes_seq (live (conn w)))).
  { destruct new_name as [[|n0 ns]|]; rewrite ?(Hname _ eq_refl) in El;
      exact El. }
  clear El.
  split; [apply update_recipe_returns|].
  split; [rewrite El'; reflexivity|].
  split.
  { rewrite El'. cbn [recipes set_recipes]. intros r Hin Hid.
    apply in_map_iff in Hin. destruct Hin as (r0 & E & _).
    destruct (Z.eqb_spec (rec_id r0) recipe_id) as [E0|E0]; subst r.
    - reflexivity.
    - contradiction. }
  split; [rewrite El'; reflexivity|].
  split; [rewrite El'; reflexivity|].
  intros Hfit.
  pose proof (update_recipe_runs w recipe_id new_name (@Some str (c0 :: cs))
                Hfit Hname Hc) as Er.
  cbv zeta in Er. rewrite Er. split; reflexivity.
Qed.

Lemma C6_update_recipe_unknown_category_witness :
  let t := mk_tables [mk_category 1 (lit "Dessert")] 1
                     [mk_recipe 1 (lit "Pie") (Some 1%Z)] 1 [] 0 in
  let w := init (mk_connection t t true) in
  fst (update_recipe 1 None (Some (lit "Nope")) w) = Ret tt
  /\ recipes (live (conn (snd (update_recipe 1 None (Some (lit "Nope")) w))))
     = [mk_recipe 1 (lit "Pie") None]
  /\ stdout (snd (update_recipe 1 None (Some (lit "Nope")) w))
     = [RecipeUpdatedSuccessfully].
Proof.
  cbv zeta.
  pose proof (C6_update_recipe_unknown_category
    (init (mk_connection
       (mk_tables [mk_category 1 (lit "Dessert")] 1
                  [mk_recipe 1 (lit "Pie") (Some 1%Z)] 1 [] 0)
       (mk_tables [mk_category 1 (lit "Dessert")] 1
                  [mk_recipe 1 (lit "Pie") (Some 1%Z)] 1 [] 0) true))
    1 None (lit "Nope")) as H.
  cbv zeta in H.
  destruct H as (H1 & H2 & _ & _ & _ & H6).
  - vm_compute. discriminate.
  - vm_compute. intros [H|[]]. discriminate H.
  - reflexivity.
  - intros n H. discriminate H.
  - split; [exact H1|]. split; [rewrite H2; reflexivity|].
    destruct (H6 eq_refl) as [H7 _]. rewrite H7. reflexivity.
Defined.

(** ** The primary key of recipes

    The statements of the program keep the identifiers of the recipes
    table pairwise distinct: an insert takes an identifier above all
    present ones, an update keeps the identifiers, a delete removes rows. *)

Lemma max_rowid_bounds ids x : In x ids -> (x <= max_rowid ids)%Z.
Proof.
  induction ids as [|a l IH]; simpl; [tauto|].
  intros [->|H]; [lia|]. specialize (IH H). lia.
Qed.

Lemma next_rowid_fresh ids seq : ~ In (next_rowid ids seq) ids.
Proof.
  intros H. apply max_rowid_bounds in H. unfold next_rowid in H. lia.
Qed.

Lemma other_ids_stay_unique (recipe_id : Z) (rows : list recipe_row) :
  NoDup (map rec_id rows) ->
  NoDup (map rec_id (filter (fun r => negb (rec_id r =? recipe_id)%Z) rows)).
Proof.
  induction rows as [|r rows IH]; simpl; intros Hnd; [constructor|].
  inversion Hnd as [|x l Hx Hl]; subst. specialize (IH Hl).
  destruct (rec_id r =? recipe_id)%Z; simpl; [exact IH|].
  constructor; [|exact IH].
  intros Hin. apply Hx. apply in_map_iff in Hin.
  destruct Hin as (r' & Hr' & Hin). apply filter_In in Hin.
  apply in_map_iff. exists r'. tauto.
Qed.

Lemma insert_staged_recipe_keeps_key name category_id c id c' :
  insert_staged_recipe name category_id c = inr (id, c') ->
  NoDup (map rec_id (recipes (live c))) ->
  NoDup (map rec_id (recipes (live c'))).
Proof.
  unfold insert_staged_recipe.
  destruct (foreign_keys c && _); [discriminate|].
  intros H Hnd. inversion H; subst. simpl.
  rewrite map_app. simpl. apply NoDup_app; [exact Hnd | repeat constructor; simpl; tauto |].
  intros x Hx [<-|[]]. exact (next_rowid_fresh _ _ Hx).
Qed.

Lemma delete_recipe_keeps_key recipe_id c c' :
  delete_recipe_by_id recipe_id c = inr (tt, c') ->
  NoDup (map rec_id (recipes (live c))) ->
  NoDup (map rec_id (recipes (live c'))).
Proof.
  unfold delete_recipe_by_id.
  destruct (negb (binds_rowid _ _)); [discriminate|].
  destruct (foreign_keys c && _ && _); [discriminate|].
  intros H Hnd. inversion H; subst. simpl. now apply other_ids_stay_unique.
Qed.

Lemma update_recipe_name_keeps_key new_name recipe_id c c' :
  update_recipe_name new_name recipe_id c = inr (tt, c') ->
  NoDup (map rec_id (recipes (live c))) ->
  NoDup (map rec_id (recipes (live c'))).
Proof.
  unfold update_recipe_name.
  destruct (negb (encodable _)); [discriminate|].
  destruct (negb (binds_rowid _ _)); [discriminate|].
  intros H Hnd. inversion H; subst. simpl.
  rewrite map_map.
  erewrite map_ext; [exact Hnd|].
  intros r. simpl. now destruct (rec_id r =? recipe_id)%Z.
Qed.

Lemma update_recipe_category_keeps_key category_id recipe_id c c' :
  update_recipe_category category_id recipe_id c = inr (tt, c') ->
  NoDup (map rec_id (recipes (live c))) ->
  NoDup (map rec_id (recipes (live c'))).
Proof.
  unfold update_recipe_category.
  destruct (negb _); [discriminate|].
  destruct (negb (binds_rowid _ _)); [discriminate|].
  destruct (foreign_keys c && _ && _); [discriminate|].
  intros H Hnd. inversion H; subst. simpl.
  rewrite map_map.
  erewrite map_ext; [exact Hnd|].
  intros r. simpl. now destruct (rec_id r =? recipe_id)%Z.
Qed.

(** ** C7: delete_recipe *)

Lemma filter_other_ids_same (recipe_id : Z) (rows : list recipe_row) :
  ~ In recipe_id (map rec_id rows) ->
  filter (fun r => negb (rec_id r =? recipe_id)%Z) rows = rows.
Proof.
  induction rows as [|r rows IH]; simpl; intros H; [reflexivity|].
  destruct (Z.eqb_spec (rec_id r) recipe_id) as [E|E]; simpl.
  - tauto.
  - rewrite IH by tauto. reflexivity.
Qed.

Lemma filter_other_ids_length (recipe_id : Z) (rows : list recipe_row) :
  NoDup (map rec_id rows) ->
  (List.length rows <=
   S (List.length (filter (fun r => negb (rec_id r =? recipe_id)%Z) rows)))%nat.
Proof.
  induction rows as [|r rows IH]; simpl; intros H; [lia|].
  inversion H as [|x l Hx Hl]; subst.
  destruct (Z.eqb_spec (rec_id r) recipe_id) as [E|E]; simpl.
  - subst. rewrite filter_other_ids_same by assumption. lia.
  - specialize (IH Hl). lia.
Qed.

(** C7: [delete_recipe] always returns, never touches the category and
    ingredients tables, and leaves the recipes table either as it was or
    without the rows of that identifier; with identifiers unique (the
    primary key) that is at most one row.  For an identifier that no
    recipes row carries, all tables, hence all row counts, are unchanged,
    and the connection too unless an earlier statement was left
    uncommitted; when the identifier is an integer of SQLite the only
    output is the success message (an integer outside that range cannot
    be bound: the error is printed instead). *)
Theorem C7_delete_recipe_frame (w : world) (recipe_id : Z) :
  let w' := snd (delete_recipe recipe_id w) in
  let t := live (conn w) in
  let t' := live (conn w') in
  fst (delete_recipe recipe_id w) = Ret tt
  /\ category t' = category t /\ category_seq t' = category_seq t
  /\ ingredients t' = ingredients t /\ ingredients_seq t' = ingredients_seq t
  /\ (recipes t' = recipes t
      \/ recipes t' = filter (fun r => negb (rec_id r =? recipe_id)%Z) (recipes t))
  /\ (NoDup (map rec_id (recipes t)) ->
      (List.length (recipes t) <= S (List.length (recipes t')))%nat)
  /\ (~ In recipe_id (map rec_id (recipes t)) ->
      t' = t
      /\ (nothing_pending w -> conn w' = conn w)
      /\ (fits_integer recipe_id = true ->
          stdout w' = stdout w ++ [RecipeDeletedSuccessfully]
          /\ durable (conn w') = t)
      /\ (fits_integer recipe_id = false ->
          stdout w' = stdout w ++ [ErrorDeletingRecipe OverflowError]
          /\ conn w' = conn w)).
Proof.
  cbv zeta.
  destruct w as [cn rl il cm out]. destruct cn as [lv du fk].
  destruct lv as [cat cseq recs rseq ings iseq].
  unfold delete_recipe, try_except, bind, execute, delete_recipe_by_id,
    commit, print. simpl.
  destruct (binds_rowid recipe_id (map rec_id recs)) eqn:Eb; simpl.
  - destruct (fk && has_id recipe_id (map rec_id recs)
              && has_id recipe_id (map ing_recipe_id ings)) eqn:Efk; simpl.
    + do 5 (split; [reflexivity|]).
      split; [now left|]. split; [intros _; lia|].
      intros Hno. exfalso.
      apply andb_true_iff in Efk. destruct Efk as [Efk _].
      apply andb_true_iff in Efk. destruct Efk as [_ Efk].
      apply has_id_In in Efk. contradiction.
    + do 5 (split; [reflexivity|]).
      split; [now right|]. split; [apply filter_other_ids_length|].
      intros Hno. rewrite filter_other_ids_same by assumption.
      split; [reflexivity|].
      split; [unfold nothing_pending; simpl; now intros ->|].
      split; [intros _; split; reflexivity|].
      intros Hfit. exfalso. unfold binds_rowid in Eb. rewrite Hfit in Eb.
      simpl in Eb. apply has_id_In in Eb. contradiction.
  - do 5 (split; [reflexivity|]).
    split; [now left|]. split; [intros _; lia|].
    intros Hno. split; [reflexivity|]. split; [reflexivity|].
    split; [|intros _; split; reflexivity].
    intros Hfit. rewrite (fits_binds _ _ Hfit) in Eb. discriminate.
Qed.

Lemma C7_delete_recipe_frame_witness :
  let t := mk_tables [mk_category 1 (lit "Dessert")] 1
                     [mk_recipe 1 (lit "Pie") (Some 1%Z);
                      mk_recipe 2 (lit "Cake") (Some 1%Z)] 2
                     [mk_ingredient 1 (lit "1 apple") 1] 1 in
  let w := init (mk_connection t t false) in
  (List.length (recipes t)
   <= S (List.length (recipes (live (conn (snd (delete_recipe 1 w)))))))%nat
  /\ live (conn (snd (delete_recipe 5 w))) = t.
Proof.
  cbv zeta.
  pose (t := mk_tables [mk_category 1 (lit "Dessert")] 1
                     [mk_recipe 1 (lit "Pie") (Some 1%Z);
                      mk_recipe 2 (lit "Cake") (Some 1%Z)] 2
                     [mk_ingredient 1 (lit "1 apple") 1] 1).
  pose proof (C7_delete_recipe_frame (init (mk_connection t t false)) 1) as H1.
  pose proof (C7_delete_recipe_frame (init (mk_connection t t false)) 5) as H5.
  cbv zeta in H1, H5.
  destruct H1 as (_ & _ & _ & _ & _ & _ & H1 & _).
  destruct H5 as (_ & _ & _ & _ & _ & _ & _ & H5).
  split.
  - apply H1. simpl. repeat constructor; simpl; intuition discriminate.
  - destruct H5 as [H5 _]; [|exact H5].
    simpl. intros [H|[H|[]]]; discriminate H.
Defined.

(** ** C8: update_recipe with nothing to update *)

(** C8: for every recipe identifier, [update_recipe] called with the new
    name and the new category both omitted ([None] or the empty string)
    runs no UPDATE: it commits and returns.  The live tables (the recipe
    row among them), the staging lists and the foreign-key setting are as
    before; the only effects are the success message and the commit, which
    makes the committed tables equal to the live ones, so a connection
    with nothing pending is left entirely unchanged. *)
Theorem C8_update_recipe_nothing_given
    (w : world) (recipe_id : Z) (new_name new_category : option str) :
  truthy new_name = false ->
  truthy new_category = false ->
  update_recipe recipe_id new_name new_category w =
  (Ret tt,
   mk_world (mk_connection (live (conn w)) (live (conn w)) (foreign_keys (conn w)))
            (recipe_list w) (ingredient_list w) (category_map w)
            (stdout w ++ [RecipeUpdatedSuccessfully]))
  /\ live (conn (snd (update_recipe recipe_id new_name new_category w)))
     = live (conn w)
  /\ (nothing_pending w ->
      conn (snd (update_recipe recipe_id new_name new_category w)) = conn w).
Proof.
  intros Hn Hc.
  assert (E : update_recipe recipe_id new_name new_category w =
    (Ret tt,
     mk_world (mk_connection (live (conn w)) (live (conn w)) (foreign_keys (conn w)))
              (recipe_list w) (ingredient_list w) (category_map w)
              (stdout w ++ [RecipeUpdatedSuccessfully]))).
  { destruct w as [cn rl il cm out].
    destruct new_name as [[|n0 ns]|]; try discriminate Hn;
      destruct new_category as [[|c0 cs]|]; try discriminate Hc; reflexivity. }
  rewrite E. split; [reflexivity|]. split; [reflexivity|].
  unfold nothing_pending. destruct w as [[lv du fk] rl il cm out]. simpl.
  now intros ->.
Qed.

Lemma C8_update_recipe_nothing_given_witness :
  let t := mk_tables [mk_category 1 (lit "Dessert")] 1
                     [mk_recipe 1 (lit "Pie") (Some 1%Z)] 1 [] 0 in
  let w := init (mk_connection t t true) in
  update_recipe 1 None (Some []) w =
  (Ret tt, mk_world (conn w) [] [] [] [RecipeUpdatedSuccessfully]).
Proof.
  cbv zeta.
  apply (C8_update_recipe_nothing_given
    (init (mk_connection
       (mk_tables [mk_category 1 (lit "Dessert")] 1
                  [mk_recipe 1 (lit "Pie") (Some 1%Z)] 1 [] 0)
       (mk_tables [mk_category 1 (lit "Dessert")] 1
                  [mk_recipe 1 (lit "Pie") (Some 1%Z)] 1 [] 0) true))
    1 None (Some [])); reflexivity.
Defined.

(** ** C9: the confirmation gate of save_to_database *)

(** C9: for every answer that does not normalise to ["y"],
    [save_to_database] prints the record count and the abort message and
    returns: the connection is untouched, so no category, recipe or
    ingredient row is inserted, and the staged recipes and categories are
    kept.  They are dropped by the next [read_recipe_data], whatever the
    file: its run is that of a world whose staging is empty. *)
Theorem C9_declined_save_writes_nothing
    (lower : str -> str) (w : world) (answer : str) :
  eqb (strip (lower answer)) (lit "y") = false ->
  save_to_database lower answer w =
  (Ret tt, mk_world (conn w) (recipe_list w) (ingredient_list w) (category_map w)
             ((stdout w ++ [NumberOfRecordsToSave (List.length (recipe_list w))])
              ++ [SaveAborted]))
  /\ forall file,
       read_recipe_data file (snd (save_to_database lower answer w)) =
       read_recipe_data file
         (mk_world (conn w) [] (ingredient_list w) []
            ((stdout w ++ [NumberOfRecordsToSave (List.length (recipe_list w))])
             ++ [SaveAborted])).
Proof.
  intros H.
  assert (E : save_to_database lower answer w =
    (Ret tt, mk_world (conn w) (recipe_list w) (ingredient_list w) (category_map w)
             ((stdout w ++ [NumberOfRecordsToSave (List.length (recipe_list w))])
              ++ [SaveAborted]))).
  { unfold save_to_database, bind, get_recipe_list, print. simpl.
    rewrite H. reflexivity. }
  split; [exact E|].
  intros file. rewrite E. reflexivity.
Qed.

Lemma C9_declined_save_writes_nothing_witness :
  let w := mk_world (mk_connection fresh fresh false)
             [(lit "Pie", lit "Dessert", [lit "1 apple"])] []
             [(lit "Dessert", None)] [] in
  save_to_database ascii_lower (lit "N") w =
  (Ret tt, mk_world (conn w) (recipe_list w) [] (category_map w)
             [NumberOfRecordsToSave 1; SaveAborted])
  /\ recipe_list (snd (read_recipe_data (Unopenable OSError)
                         (snd (save_to_database ascii_lower (lit "N") w)))) = [].
Proof.
  cbv zeta.
  destruct (C9_declined_save_writes_nothing ascii_lower
    (mk_world (mk_connection fresh fresh false)
             [(lit "Pie", lit "Dessert", [lit "1 apple"])] []
             [(lit "Dessert", None)] []) (lit "N")) as [H1 H2].
  - reflexivity.
  - split; [exact H1 | rewrite H2; reflexivity].
Defined.

(** ** C2: an exception in a save step *)

(** Whenever the first staged category name is already in the category
    table, a confirmed save raises the UNIQUE violation to its caller,
    having printed only the record count. *)
Lemma save_to_database_unique_violation (lower : str -> str) (answer : str)
    (w : world) (k : str) (ks : list str) :
  eqb (strip (lower answer)) (lit "y") = true ->
  Dict.keys (category_map w) = k :: ks ->
  In k (map cat_name (category (live (conn w)))) ->
  save_to_database lower answer w =
  (Raise (IntegrityError UNIQUE_category_name),
   mk_world (conn w) (recipe_list w) (ingredient_list w) (category_map w)
            (stdout w ++ [NumberOfRecordsToSave (List.length (recipe_list w))])).
Proof.
  intros Hy Hk Hin.
  unfold save_to_database, bind, get_recipe_list, print, get_category_map.
  simpl. rewrite Hy. simpl. rewrite Hk. simpl.
  unfold save_category, bind, execute, insert_category. simpl.
  apply name_taken_In in Hin. rewrite Hin. reflexivity.
Qed.

(** C2: [save_to_database] has no handler, so an exception of a save step
    leaves the method.  Importing the same file twice into a fresh store:
    the first confirmed save returns, the second raises the UNIQUE
    violation of the category insert to its caller, and prints nothing
    after the record count. *)
Theorem C2_save_to_database_raises_to_caller :
  let file := Opened [[lit "name"; lit "category"; lit "ingredients"];
                      [lit "Pie"; lit "Dessert"; lit "1 apple"]] None in
  let w0 := init (mk_connection fresh fresh false) in
  let w1 := snd (read_recipe_data file w0) in
  let w2 := snd (save_to_database ascii_lower (lit "y") w1) in
  let w3 := snd (read_recipe_data file w2) in
  fst (save_to_database ascii_lower (lit "y") w1) = Ret tt
  /\ fst (save_to_database ascii_lower (lit "y") w3)
     = Raise (IntegrityError UNIQUE_category_name)
  /\ stdout (snd (save_to_database ascii_lower (lit "y") w3))
     = stdout w3 ++ [NumberOfRecordsToSave 1].
Proof. cbv zeta. vm_compute. auto. Qed.

(** ** Dictionaries: lemmas *)

Lemma get_set_same {V} (k : str) (v : V) (d : Dict.t V) :
  Dict.get k (Dict.set k v d) = Some v.
Proof.
  induction d as [|[k' v'] d IH]; simpl.
  - now rewrite eqb_refl.
  - destruct (eqb k' k) eqn:E; simpl; rewrite E; [reflexivity | exact IH].
Qed.

Lemma get_set_other {V} (k k' : str) (v : V) (d : Dict.t V) :
  k <> k' -> Dict.get k' (Dict.set k v d) = Dict.get k' d.
Proof.
  intros Hne. induction d as [|[k0 v0] d IH]; simpl.
  - apply eqb_neq in Hne. now rewrite Hne.
  - destruct (eqb k0 k) eqn:E; simpl.
    + apply eqb_eq in E. subst k0. apply eqb_neq in Hne. now rewrite Hne.
    + destruct (eqb k0 k'); [reflexivity | exact IH].
Qed.

Lemma mem_keys {V} (k : str) (d : Dict.t V) :
  Dict.mem k d = true <-> In k (Dict.keys d).
Proof.
  unfold Dict.mem, Dict.keys.
  induction d as [|[k' v'] d IH]; simpl.
  - split; [discriminate | tauto].
  - destruct (eqb k' k) eqn:E.
    + apply eqb_eq in E. split; auto.
    + apply eqb_neq in E. rewrite IH. split; [auto | intros [H|H]; congruence].
Qed.

Lemma keys_set_absent {V} (k : str) (v : V) (d : Dict.t V) :
  Dict.mem k d = false -> Dict.keys (Dict.set k v d) = Dict.keys d ++ [k].
Proof.
  unfold Dict.mem, Dict.keys.
  induction d as [|[k' v'] d IH]; simpl; [reflexivity|].
  destruct (eqb k' k) eqn:E; [discriminate|].
  intros H. simpl. now rewrite IH.
Qed.

(** ** read_recipe_data: the loop over the rows *)

(** Every row of at least three fields is staged, in order, behind what is
    staged already; the other rows only print.  The category map gains the
    category names of the staged rows, each once. *)
Lemma read_rows_staged (rows : list (list str)) (w : world) :
  exists cm' out',
    for_each rows read_row w =
    (Ret tt,
     mk_world (conn w)
       (recipe_list w ++
        map (fun row => (nth 0 row [], nth 1 row [], split COMMA None (nth 2 row [])))
            (filter (fun row => (3 <=? List.length row)%nat) rows))
       (ingredient_list w) cm' out')
    /\ (NoDup (Dict.keys (category_map w)) -> NoDup (Dict.keys cm'))
    /\ (forall k, In k (Dict.keys cm') <->
          In k (Dict.keys (category_map w))
          \/ exists row, In row rows /\ (3 <= List.length row)%nat
                         /\ nth 1 row [] = k).
Proof.
  revert w. induction rows as [|row rows IH]; intros w.
  - exists (category_map w), (stdout w). simpl. rewrite app_nil_r.
    destruct w; simpl. split; [reflexivity|]. split; [auto|].
    intros k. split; [auto|]. intros [H|(row & [] & _)]. exact H.
  - simpl for_each. unfold bind at 1. unfold read_row at 1.
    destruct (Nat.ltb_spec (List.length row) 3) as [Hlt|Hge].
    + unfold print at 1.
      destruct (IH (mk_world (conn w) (recipe_list w) (ingredient_list w)
                      (category_map w) (stdout w ++ [SkippingInvalidRow row])))
        as (cm' & out' & E & Hnd & Hk).
      exists cm', out'. simpl in *.
      assert (Hf : (3 <=? List.length row)%nat = false)
        by (apply Nat.leb_gt; exact Hlt).
      simpl in Hf. rewrite Hf. split; [exact E|]. split; [exact Hnd|].
      intros k. rewrite Hk. split.
      * intros [H|(r & Hr & Hv & Hn)]; [now left|].
        right. exists r. auto.
      * intros [H|(r & [Hr|Hr] & Hv & Hn)]; [now left| |].
        -- subst r. lia.
        -- right. exists r. auto.
    + assert (Hf : (3 <=? List.length row)%nat = true)
        by (apply Nat.leb_le; exact Hge).
      destruct (Dict.mem (nth 1 row []) (category_map w)) eqn:Em.
      * destruct (IH (mk_world (conn w)
                        (recipe_list w ++
                         [(nth 0 row [], nth 1 row [], split COMMA None (nth 2 row []))])
                        (ingredient_list w) (category_map w) (stdout w)))
          as (cm' & out' & E & Hnd & Hk).
        exists cm', out'. simpl in *.
        unfold bind, get_category_map, get_recipe_list, set_recipe_list, ret.
        simpl. rewrite Em, Hf. simpl.
        rewrite <- app_assoc in E. split; [exact E|]. split; [exact Hnd|].
        intros k. rewrite Hk. split.
        -- intros [H|(r & Hr & Hv & Hn)]; [now left|].
           right. exists r. auto.
        -- intros [H|(r & [Hr|Hr] & Hv & Hn)]; [now left| |].
           ++ subst. left. now apply mem_keys.
           ++ right. exists r. auto.
      * destruct (IH (mk_world (conn w)
                        (recipe_list w ++
                         [(nth 0 row [], nth 1 row [], split COMMA None (nth 2 row []))])
                        (ingredient_list w)
                        (Dict.set (nth 1 row []) None (category_map w)) (stdout w)))
          as (cm' & out' & E & Hnd & Hk).
        exists cm', out'. simpl in *.
        unfold bind, get_category_map, get_recipe_list, set_recipe_list,
          set_category_map, ret.
        simpl. rewrite Em, Hf. simpl.
        rewrite <- app_assoc in E. split; [exact E|].
        rewrite (keys_set_absent _ _ _ Em) in Hnd, Hk.
        split.
        -- intros H. apply Hnd.
           apply NoDup_app; [exact H | repeat constructor; simpl; tauto |].
           intros k Hin [Hk'|[]]. subst k.
           apply mem_keys in Hin. congruence.
        -- intros k. rewrite Hk, in_app_iff. simpl. split.
           ++ intros [[H|[H|[]]]|(r & Hr & Hv & Hn)].
              ** now left.
              ** right. exists row. auto.
              ** right. exists r. auto.
           ++ intros [H|(r & [Hr|Hr] & Hv & Hn)].
              ** left. now left.
              ** subst. left. right. now left.
              ** right. exists r. auto.
Qed.

(** ** Running a method body: lemmas *)

Lemma bind_returns {A B} (m : M A) (k : A -> M B) w a w' :
  m w = (Ret a, w') -> bind m k w = k a w'.
Proof. unfold bind. now intros ->. Qed.

Lemma for_each_step {A} (x : A) (l : list A) (body : A -> M unit) w w' :
  body x w = (Ret tt, w') -> for_each (x :: l) body w = for_each l body w'.
Proof. intros H. simpl. unfold bind. now rewrite H. Qed.

(** ** AUTOINCREMENT: lemmas *)

Lemma max_rowid_nonneg ids : (0 <= max_rowid ids)%Z.
Proof. induction ids as [|a l IH]; simpl; lia. Qed.

Lemma max_rowid_snoc ids x :
  (max_rowid ids <= x)%Z -> (0 <= x)%Z -> max_rowid (ids ++ [x]) = x.
Proof.
  induction ids as [|a l IH]; simpl; intros H H0; [lia|].
  rewrite IH; lia.
Qed.

Lemma next_rowid_after_insert ids seq :
  next_rowid (ids ++ [next_rowid ids seq]) (next_rowid ids seq)
  = (next_rowid ids seq + 1)%Z.
Proof.
  unfold next_rowid. pose proof (max_rowid_nonneg ids).
  rewrite max_rowid_snoc; lia.
Qed.

(** ** save_to_database: the three loops *)

(** The category loop: every key whose name is free in the category table
    is inserted and its identifier recorded in the map. *)
Lemma save_categories_inserted (ks : list str) :
  forall cat cseq recs rseq ings iseq du fk rl il cm out,
  NoDup ks ->
  (forall k, In k ks -> ~ In k (map cat_name cat)) ->
  exists new cseq' cm',
    for_each ks save_category
      (mk_world (mk_connection (mk_tables cat cseq recs rseq ings iseq) du fk)
                rl il cm out)
    = (Ret tt,
       mk_world (mk_connection (mk_tables (cat ++ new) cseq' recs rseq ings iseq) du fk)
                rl il cm' out)
    /\ map cat_name new = ks
    /\ (forall k, In k ks ->
          exists id, Dict.get k cm' = Some (Some id)
                     /\ In id (map cat_id (cat ++ new)))
    /\ (forall k, ~ In k ks -> Dict.get k cm' = Dict.get k cm).
Proof.
  induction ks as [|k ks IH]; intros cat cseq recs rseq ings iseq du fk rl il cm out Hnd Hfree.
  - exists [], cseq, cm. simpl. rewrite app_nil_r. unfold ret.
    repeat split; auto. intros k [].
  - inversion Hnd as [|x l Hk Hks]; subst.
    pose (id := next_rowid (map cat_id cat) cseq).
    assert (Hrun : save_category k
      (mk_world (mk_connection (mk_tables cat cseq recs rseq ings iseq) du fk)
                rl il cm out)
      = (Ret tt,
         mk_world (mk_connection
                     (mk_tables (cat ++ [mk_category id k]) id recs rseq ings iseq) du fk)
                  rl il (Dict.set k (Some id) cm) out)).
    { unfold save_category, bind, execute, insert_category. simpl.
      rewrite name_free by (apply Hfree; now left). reflexivity. }
    rewrite (for_each_step _ _ _ _ _ Hrun).
    destruct (IH (cat ++ [mk_category id k]) id recs rseq ings iseq du fk rl il
                 (Dict.set k (Some id) cm) out Hks) as (new & cseq' & cm' & E & Hn & Hin & Hout).
    { intros k' Hk' Hc. rewrite map_app, in_app_iff in Hc. simpl in Hc.
      destruct Hc as [Hc|[Hc|[]]].
      - apply (Hfree k'); [now right | exact Hc].
      - subst k'. contradiction. }
    exists (mk_category id k :: new), cseq', cm'.
    rewrite <- app_assoc in E. simpl in E.
    split; [exact E|]. split; [simpl; now rewrite Hn|].
    split.
    + intros k' [Hk'|Hk'].
      * subst k'. exists id. split.
        -- rewrite (Hout k Hk). apply get_set_same.
        -- rewrite map_app, in_app_iff. right. simpl. now left.
      * destruct (Hin k' Hk') as (id' & Hg & Hi). exists id'. split; [exact Hg|].
        rewrite <- app_assoc in Hi. exact Hi.
    + intros k' Hk'. simpl in Hk'.
      rewrite (Hout k') by tauto. apply get_set_other. tauto.
Qed.

(** The ingredient loop of one recipe: one row per entry, in order, each
    with the stored value of its entry and the identifier of the recipe. *)
Lemma save_ingredients_appended (entries : list str) (rid : Z) :
  forall cat cseq recs rseq ings iseq du fk rl il cm out,
  fk = false \/ In rid (map rec_id recs) ->
  exists new iseq',
    for_each entries (save_ingredient rid)
      (mk_world (mk_connection (mk_tables cat cseq recs rseq ings iseq) du fk)
                rl il cm out)
    = (Ret tt,
       mk_world (mk_connection (mk_tables cat cseq recs rseq (ings ++ new) iseq') du fk)
                rl il cm out)
    /\ map (fun i => (ing_recipe_id i, ing_quantity_ingredient i)) new
       = map (fun e => (rid, Ingredient.quantity_ingredient (Ingredient.init e rid)))
             entries.
Proof.
  induction entries as [|e entries IH];
    intros cat cseq recs rseq ings iseq du fk rl il cm out Hfk.
  - exists [], iseq. simpl. rewrite app_nil_r. now unfold ret.
  - pose (id := next_rowid (map ing_id ings) iseq).
    pose (row := mk_ingredient id
                   (Ingredient.quantity_ingredient (Ingredient.init e rid)) rid).
    assert (Hrun : save_ingredient rid e
      (mk_world (mk_connection (mk_tables cat cseq recs rseq ings iseq) du fk)
                rl il cm out)
      = (Ret tt,
         mk_world (mk_connection
                     (mk_tables cat cseq recs rseq (ings ++ [row]) id) du fk)
                  rl il cm out)).
    { unfold save_ingredient, bind, execute, insert_ingredient. simpl.
      assert (Hc : fk && negb (has_id rid (map rec_id recs)) = false).
      { destruct Hfk as [->|Hin]; [reflexivity|].
        apply has_id_In in Hin. rewrite Hin. apply andb_false_r. }
      rewrite Hc. reflexivity. }
    rewrite (for_each_step _ _ _ _ _ Hrun).
    destruct (IH cat cseq recs rseq (ings ++ [row]) id du fk rl il cm out Hfk)
      as (new & iseq' & E & Hp).
    exists (row :: new), iseq'.
    rewrite <- app_assoc in E. simpl in E.
    split; [exact E|]. simpl. now rewrite Hp.
Qed.

(** One staged recipe whose category the map resolves to an identifier of
    the category table: its recipes row, then its ingredients rows, then
    the commit. *)
Lemma save_recipe_inserted (n c : str) (entries : list str) :
  forall cat cseq recs rseq ings iseq du fk rl il cm out id,
  Dict.get c cm = Some (Some id) ->
  In id (map cat_id cat) ->
  exists new iseq',
    save_recipe (n, c, entries)
      (mk_world (mk_connection (mk_tables cat cseq recs rseq ings iseq) du fk)
                rl il cm out)
    = (Ret tt,
       let rid := next_rowid (map rec_id recs) rseq in
       let t' := mk_tables cat cseq (recs ++ [mk_recipe rid n (Some id)]) rid
                           (ings ++ new) iseq' in
       mk_world (mk_connection t' t' fk) rl il cm out)
    /\ map (fun i => (ing_recipe_id i, ing_quantity_ingredient i)) new
       = map (fun e => (next_rowid (map rec_id recs) rseq,
                        Ingredient.quantity_ingredient
                          (Ingredient.init e (next_rowid (map rec_id recs) rseq))))
             entries.
Proof.
  intros cat cseq recs rseq ings iseq du fk rl il cm out id Hget Hid.
  pose (rid := next_rowid (map rec_id recs) rseq).
  destruct (save_ingredients_appended entries rid cat cseq
              (recs ++ [mk_recipe rid n (Some id)]) rid ings iseq du fk rl il cm out)
    as (new & iseq' & E & Hp).
  { right. rewrite map_app, in_app_iff. right. simpl. now left. }
  exists new, iseq'. split; [|exact Hp].
  unfold save_recipe, bind, category_map_item, bind, get_category_map,
    execute, insert_staged_recipe. simpl.
  rewrite Hget. unfold ret. simpl.
  apply has_id_In in Hid. rewrite Hid. simpl. rewrite andb_false_r.
  subst rid. unfold set_live, set_recipes. simpl. rewrite E. reflexivity.
Qed.

(** The recipe loop: one recipes row per staged recipe, in order, with
    consecutive fresh identifiers, and behind the ingredients table the
    rows of each recipe's entries under that recipe's identifier. *)
Lemma save_recipes_appended (sl : list staged) :
  forall cat cseq recs rseq ings iseq du fk rl il cm out,
  (forall n c es, In (n, c, es) sl ->
     exists id, Dict.get c cm = Some (Some id) /\ In id (map cat_id cat)) ->
  exists new_recs rseq' new_ings iseq' du',
    for_each sl save_recipe
      (mk_world (mk_connection (mk_tables cat cseq recs rseq ings iseq) du fk)
                rl il cm out)
    = (Ret tt,
       mk_world (mk_connection
                   (mk_tables cat cseq (recs ++ new_recs) rseq'
                              (ings ++ new_ings) iseq') du' fk)
                rl il cm out)
    /\ (du = mk_tables cat cseq recs rseq ings iseq ->
        du' = mk_tables cat cseq (recs ++ new_recs) rseq' (ings ++ new_ings) iseq')
    /\ map rec_name new_recs = map (fun r => fst (fst r)) sl
    /\ map rec_id new_recs
       = map (fun k => (next_rowid (map rec_id recs) rseq + Z.of_nat k)%Z)
             (seq 0 (List.length sl))
    /\ map (fun i => (ing_recipe_id i, ing_quantity_ingredient i)) new_ings
       = flat_map
           (fun p => map (fun e => (rec_id (fst p),
                                    Ingredient.quantity_ingredient
                                      (Ingredient.init e (rec_id (fst p)))))
                         (snd (snd p)))
           (combine new_recs sl).
Proof.
  induction sl as [|[[n c] es] sl IH];
    intros cat cseq recs rseq ings iseq du fk rl il cm out Hres.
  - exists [], rseq, [], iseq, du. simpl. rewrite !app_nil_r. unfold ret.
    repeat split; auto.
  - destruct (Hres n c es (or_introl eq_refl)) as (id & Hget & Hid).
    destruct (save_recipe_inserted n c es cat cseq recs rseq ings iseq du fk
                rl il cm out id Hget Hid) as (new & iseq1 & Hrun & Hp).
    cbv zeta in Hrun.
    rewrite (for_each_step _ _ _ _ _ Hrun).
    set (rid := next_rowid (map rec_id recs) rseq) in *.
    destruct (IH cat cseq (recs ++ [mk_recipe rid n (Some id)]) rid
                 (ings ++ new) iseq1
                 (mk_tables cat cseq (recs ++ [mk_recipe rid n (Some id)]) rid
                            (ings ++ new) iseq1) fk rl il cm out)
      as (new_recs & rseq' & new_ings & iseq' & du' & E & Hdu & Hn & Hi & Hpay).
    { intros n' c' es' Hin. apply (Hres n' c' es'). now right. }
    exists (mk_recipe rid n (Some id) :: new_recs), rseq',
           (new ++ new_ings), iseq', du'.
    rewrite <- !app_assoc in E. simpl in E.
    rewrite <- !app_assoc in Hdu. simpl in Hdu.
    split; [exact E|]. split; [intros _; now apply Hdu|].
    split; [simpl; now rewrite Hn|].
    split.
    + simpl. f_equal; [lia|].
      rewrite Hi, map_app. simpl map at 1.
      unfold rid. rewrite next_rowid_after_insert.
      rewrite <- seq_shift, map_map. apply map_ext. intros k. lia.
    + simpl. rewrite map_app, Hp, Hpay. reflexivity.
Qed.

(** ** read_recipe_data and save_to_database, run whole *)

(** A file that opens, has a header row and is read to its end: the method
    returns with the rows of at least three fields staged, in order, and
    their category names as the keys of the map, each once. *)
Lemma read_recipe_data_opened (w : world) (header : list str)
    (rows : list (list str)) :
  exists cm1 out1,
    read_recipe_data (Opened (header :: rows) None) w =
    (Ret tt,
     mk_world (conn w)
       (map (fun row => (nth 0 row [], nth 1 row [], split COMMA None (nth 2 row [])))
            (filter (fun row => (3 <=? List.length row)%nat) rows))
       (ingredient_list w) cm1 out1)
    /\ NoDup (Dict.keys cm1)
    /\ (forall k, In k (Dict.keys cm1) <->
          exists row, In row rows /\ (3 <= List.length row)%nat
                      /\ nth 1 row [] = k).
Proof.
  destruct (read_rows_staged rows
              (mk_world (conn w) [] (ingredient_list w) []
                        (stdout w ++ [CsvHeaders header])))
    as (cm1 & out1 & E & Hnd & Hk).
  simpl in E, Hnd, Hk.
  exists cm1, (out1 ++ [DataReadSuccessfully]).
  split; [|split].
  - unfold read_recipe_data, bind, set_recipe_list, set_category_map,
      try_except, bind, next, ret, print. simpl.
    unfold bind. simpl in E. rewrite E. reflexivity.
  - apply Hnd. constructor.
  - intros k. rewrite Hk. split; [intros [[]|H]; exact H | now right].
Qed.

(** A confirmed save of a staging whose category names are distinct, free
    in the category table and cover the staged recipes: the method returns;
    the categories, then one recipes row per staged recipe with consecutive
    fresh identifiers, and per recipe the rows of its ingredient entries
    have been appended and committed. *)
Lemma save_to_database_confirmed (lower : str -> str) (answer : str) :
  forall cat cseq recs rseq ings iseq du fk (sl : list staged) il cm out,
  eqb (strip (lower answer)) (lit "y") = true ->
  NoDup (Dict.keys cm) ->
  (forall k, In k (Dict.keys cm) -> ~ In k (map cat_name cat)) ->
  (forall n c es, In (n, c, es) sl -> In c (Dict.keys cm)) ->
  exists new_cats cseq' new_recs rseq' new_ings iseq' cm',
    save_to_database lower answer
      (mk_world (mk_connection (mk_tables cat cseq recs rseq ings iseq) du fk)
                sl il cm out)
    = (Ret tt,
       let t' := mk_tables (cat ++ new_cats) cseq' (recs ++ new_recs) rseq'
                           (ings ++ new_ings) iseq' in
       mk_world (mk_connection t' t' fk) sl il cm'
                ((out ++ [NumberOfRecordsToSave (List.length sl)])
                 ++ [DataSavedSuccessfully]))
    /\ map cat_name new_cats = Dict.keys cm
    /\ map rec_name new_recs = map (fun r => fst (fst r)) sl
    /\ map rec_id new_recs
       = map (fun k => (next_rowid (map rec_id recs) rseq + Z.of_nat k)%Z)
             (seq 0 (List.length sl))
    /\ map (fun i => (ing_recipe_id i, ing_quantity_ingredient i)) new_ings
       = flat_map
           (fun p => map (fun e => (rec_id (fst p),
                                    Ingredient.quantity_ingredient
                                      (Ingredient.init e (rec_id (fst p)))))
                         (snd (snd p)))
           (combine new_recs sl).
Proof.
  intros cat cseq recs rseq ings iseq du fk sl il cm out Hy Hnd Hfree Hcov.
  destruct (save_categories_inserted (Dict.keys cm) cat cseq recs rseq ings iseq
              du fk sl il cm (out ++ [NumberOfRecordsToSave (List.length sl)])
              Hnd Hfree)
    as (new_cats & cseq' & cm' & E1 & Hn1 & Hin1 & _).
  destruct (save_recipes_appended sl (cat ++ new_cats) cseq' recs rseq ings iseq
              (mk_tables (cat ++ new_cats) cseq' recs rseq ings iseq) fk sl il cm'
              (out ++ [NumberOfRecordsToSave (List.length sl)]))
    as (new_recs & rseq' & new_ings & iseq' & du' & E2 & Hdu & Hn2 & Hi2 & Hp2).
  { intros n c es Hin. apply Hin1. apply (Hcov n c es Hin). }
  specialize (Hdu eq_refl). subst du'.
  exists new_cats, cseq', new_recs, rseq', new_ings, iseq', cm'.
  split; [|auto].
  unfold save_to_database, bind, get_recipe_list, print, get_category_map.
  simpl. rewrite Hy. simpl. rewrite E1.
  unfold execute, commit. simpl. rewrite E2. reflexivity.
Qed.

Lemma flat_map_combine_map {A B C D} (g : B -> C) (F : A * C -> list D)
    (l : list A) (l' : list B) :
  flat_map F (combine l (map g l'))
  = flat_map (fun p => F (fst p, g (snd p))) (combine l l').
Proof.
  revert l'. induction l as [|a l IH]; intros [|b l']; simpl; try reflexivity.
  now rewrite IH.
Qed.

(** The import, whole: read a file, then save on confirmation, in a store
    where the category names of the file are free. *)
Lemma import_confirmed (lower : str -> str) (answer : str) (w : world)
    (header : list str) (rows : list (list str)) :
  eqb (strip (lower answer)) (lit "y") = true ->
  (forall row, In row rows -> (3 <= List.length row)%nat ->
     ~ In (nth 1 row []) (map cat_name (category (live (conn w))))) ->
  let valid := filter (fun row => (3 <=? List.length row)%nat) rows in
  let w1 := snd (read_recipe_data (Opened (header :: rows) None) w) in
  let w2 := snd (save_to_database lower answer w1) in
  fst (save_to_database lower answer w1) = Ret tt
  /\ exists new_recs new_ings,
       recipes (live (conn w2)) = recipes (live (conn w)) ++ new_recs
       /\ ingredients (live (conn w2)) = ingredients (live (conn w)) ++ new_ings
       /\ map rec_name new_recs = map (fun row => nth 0 row []) valid
       /\ map rec_id new_recs
          = map (fun k => (next_rowid (map rec_id (recipes (live (conn w))))
                                      (recipes_seq (live (conn w)))
                           + Z.of_nat k)%Z)
                (seq 0 (List.length valid))
       /\ map (fun i => (ing_recipe_id i, ing_quantity_ingredient i)) new_ings
          = flat_map
              (fun p => map (fun e => (rec_id (fst p),
                                       Ingredient.quantity_ingredient
                                         (Ingredient.init e (rec_id (fst p)))))
                            (split COMMA None (nth 2 (snd p) [])))
              (combine new_recs valid).
Proof.
  intros Hy Hfree. cbv zeta.
  destruct (read_recipe_data_opened w header rows) as (cm1 & out1 & E & Hnd & Hk).
  rewrite E. clear E.
  destruct w as [[[cat cseq recs rseq ings iseq] du fk] rl il cm out].
  cbn [snd conn live category recipes recipes_seq ingredients ingredient_list]
    in Hfree |- *.
  destruct (save_to_database_confirmed lower answer cat cseq recs rseq ings iseq
              du fk
              (map (fun row => (nth 0 row [], nth 1 row [], split COMMA None (nth 2 row [])))
                   (filter (fun row => (3 <=? List.length row)%nat) rows))
              il cm1 out1 Hy Hnd)
    as (new_cats & cseq' & new_recs & rseq' & new_ings & iseq' & cm' & E2
        & _ & Hn & Hi & Hp).
  - intros k Hin. apply Hk in Hin. destruct Hin as (row & Hr & Hv & <-).
    now apply Hfree.
  - intros n c es Hin. apply in_map_iff in Hin.
    destruct Hin as (row & Heq & Hin). inversion Heq; subst.
    apply filter_In in Hin. destruct Hin as [Hin Hv].
    apply Hk. exists row. split; [exact Hin|]. split; [|reflexivity].
    now apply Nat.leb_le.
  - cbv zeta in E2. rewrite E2.
    cbn [snd fst conn live category recipes recipes_seq ingredients].
    split; [reflexivity|].
    exists new_recs, new_ings.
    split; [reflexivity|]. split; [reflexivity|].
    rewrite map_map in Hn. simpl in Hn.
    rewrite length_map in Hi.
    rewrite flat_map_combine_map in Hp. simpl in Hp.
    auto.
Qed.

(** After such an import nothing is left uncommitted. *)
Lemma import_committed (lower : str -> str) (answer : str) (w : world)
    (header : list str) (rows : list (list str)) :
  eqb (strip (lower answer)) (lit "y") = true ->
  (forall row, In row rows -> (3 <= List.length row)%nat ->
     ~ In (nth 1 row []) (map cat_name (category (live (conn w))))) ->
  let w1 := snd (read_recipe_data (Opened (header :: rows) None) w) in
  let w2 := snd (save_to_database lower answer w1) in
  durable (conn w2) = live (conn w2).
Proof.
  intros Hy Hfree. cbv zeta.
  destruct (read_recipe_data_opened w header rows) as (cm1 & out1 & E & Hnd & Hk).
  rewrite E. clear E.
  destruct w as [[[cat cseq recs rseq ings iseq] du fk] rl il cm out].
  cbn [snd conn live category recipes recipes_seq ingredients ingredient_list]
    in Hfree |- *.
  destruct (save_to_database_confirmed lower answer cat cseq recs rseq ings iseq
              du fk
              (map (fun row => (nth 0 row [], nth 1 row [], split COMMA None (nth 2 row [])))
                   (filter (fun row => (3 <=? List.length row)%nat) rows))
              il cm1 out1 Hy Hnd)
    as (new_cats & cseq' & new_recs & rseq' & new_ings & iseq' & cm' & E2 & _).
  - intros k Hin. apply Hk in Hin. destruct Hin as (row & Hr & Hv & <-).
    now apply Hfree.
  - intros n c es Hin. apply in_map_iff in Hin.
    destruct Hin as (row & Heq & Hin). inversion Heq; subst.
    apply filter_In in Hin. destruct Hin as [Hin Hv].
    apply Hk. exists row. split; [exact Hin|]. split; [|reflexivity].
    now apply Nat.leb_le.
  - cbv zeta in E2. rewrite E2. reflexivity.
Qed.

(** Where the first whitespace character of every entry is a space, the
    values [Ingredient] stores are those of the specification's rule. *)
Lemma stored_values_by_rule (recs : list recipe_row) (valid : list (list str)) :
  Forall (fun row =>
            Forall (fun e => IngredientRule.first_blank_is_space e = true)
                   (split COMMA None (nth 2 row []))) valid ->
  flat_map
    (fun p => map (fun e => (rec_id (fst p),
                             Ingredient.quantity_ingredient
                               (Ingredient.init e (rec_id (fst p)))))
                  (split COMMA None (nth 2 (snd p) [])))
    (combine recs valid)
  = flat_map
      (fun p => map (fun e => (rec_id (fst p), IngredientRule.stored e))
                    (split COMMA None (nth 2 (snd p) [])))
      (combine recs valid).
Proof.
  revert valid.
  induction recs as [|r recs IH]; intros [|row valid] H; simpl; try reflexivity.
  inversion H as [|x l Hrow Hrest]; subst. rewrite (IH _ Hrest). f_equal.
  apply map_ext_in. intros e He. f_equal. apply stored_agrees_with_rule.
  rewrite Forall_forall in Hrow. now apply Hrow.
Qed.

(** ** C3: the ingredients of an imported row *)

(** C3, as the specification words it, fails: the entries are parsed by
    the rule of the code, which cuts at the first space character only.
    The import of the row [Pie, Dessert, "2<TAB>cups"] commits the
    ingredients row [" 2<TAB>cups"], where the parsing rule of the
    specification gives ["2 cups"]. *)
Lemma C3_tab_entry_is_persisted_uncut :
  let entry := lit "2" ++ [TAB] ++ lit "cups" in
  let rows := [[lit "Pie"; lit "Dessert"; entry]] in
  let header := [lit "name"; lit "category"; lit "ingredients"] in
  let w := init (mk_connection fresh fresh true) in
  let w1 := snd (read_recipe_data (Opened (header :: rows) None) w) in
  let w2 := snd (save_to_database ascii_lower (lit "y") w1) in
  fst (save_to_database ascii_lower (lit "y") w1) = Ret tt
  /\ ingredients (durable (conn w2))
     = [mk_ingredient 1 (lit " 2" ++ [TAB] ++ lit "cups") 1]
  /\ IngredientRule.stored entry = lit "2 cups"
  /\ map ing_quantity_ingredient (ingredients (durable (conn w2)))
     <> [IngredientRule.stored entry].
Proof.
  cbv zeta. split; [reflexivity|]. split; [reflexivity|].
  split; [reflexivity|]. vm_compute. discriminate.
Qed.

(** C3 (amended): a file that is read to its end and saved on
    confirmation, in a store where its category names are free.  Both
    methods return and everything is committed.  The rows of at least
    three fields each get one recipes row, in file order, with consecutive
    fresh identifiers; and the committed ingredients table has grown by
    exactly, per such row and in order, one row for every entry of the
    comma split of the row's third field, holding the value [Ingredient]
    stores for that entry (the entry cut at its first space character, see
    C1) and the identifier of the recipe inserted for that row.  Where the
    first whitespace character of every entry is a space, or the entry has
    none, these are the values of the specification's parsing rule. *)
Theorem C3_import_persists_ingredients (lower : str -> str) (answer : str)
    (w : world) (header : list str) (rows : list (list str)) :
  eqb (strip (lower answer)) (lit "y") = true ->
  (forall row, In row rows -> (3 <= List.length row)%nat ->
     ~ In (nth 1 row []) (map cat_name (category (live (conn w))))) ->
  let valid := filter (fun row => (3 <=? List.length row)%nat) rows in
  let w1 := snd (read_recipe_data (Opened (header :: rows) None) w) in
  let w2 := snd (save_to_database lower answer w1) in
  fst (read_recipe_data (Opened (header :: rows) None) w) = Ret tt
  /\ fst (save_to_database lower answer w1) = Ret tt
  /\ durable (conn w2) = live (conn w2)
  /\ exists new_recs new_ings,
       recipes (durable (conn w2)) = recipes (live (conn w)) ++ new_recs
       /\ ingredients (durable (conn w2))
          = ingredients (live (conn w)) ++ new_ings
       /\ map rec_name new_recs = map (fun row => nth 0 row []) valid
       /\ map rec_id new_recs
          = map (fun k => (next_rowid (map rec_id (recipes (live (conn w))))
                                      (recipes_seq (live (conn w)))
                           + Z.of_nat k)%Z)
                (seq 0 (List.length valid))
       /\ map (fun i => (ing_recipe_id i, ing_quantity_ingredient i)) new_ings
          = flat_map
              (fun p => map (fun e => (rec_id (fst p),
                                       Ingredient.quantity_ingredient
                                         (Ingredient.init e (rec_id (fst p)))))
                            (split COMMA None (nth 2 (snd p) [])))
              (combine new_recs valid)
       /\ (Forall (fun row =>
                     Forall (fun e => IngredientRule.first_blank_is_space e = true)
                            (split COMMA None (nth 2 row []))) valid ->
           map (fun i => (ing_recipe_id i, ing_quantity_ingredient i)) new_ings
           = flat_map
               (fun p => map (fun e => (rec_id (fst p), IngredientRule.stored e))
                             (split COMMA None (nth 2 (snd p) [])))
               (combine new_recs valid)).
Proof.
  intros Hy Hfree. cbv zeta. split.
  - destruct (read_recipe_data_opened w header rows) as (cm1 & out1 & E & _).
    now rewrite E.
  - pose proof (import_committed lower answer w header rows Hy Hfree) as Hc.
    destruct (import_confirmed lower answer w header rows Hy Hfree)
      as (Hret & new_recs & new_ings & Hr & Hi & Hn & Hid & Hp).
    cbv zeta in Hc. split; [exact Hret|]. split; [exact Hc|].
    exists new_recs, new_ings. rewrite Hc.
    split; [exact Hr|]. split; [exact Hi|]. split; [exact Hn|].
    split; [exact Hid|]. split; [exact Hp|].
    intros Hrule. rewrite Hp. now apply stored_values_by_rule.
Qed.

Lemma C3_import_persists_ingredients_witness :
  let rows := [[lit "Pie"; lit "Dessert"; lit "1 apple,2 cups flour"];
               [lit "bad"; lit "row"];
               [lit "Soup"; lit "Main"; lit "salt"; lit "extra"]] in
  let header := [lit "name"; lit "category"; lit "ingredients"] in
  let w := init (mk_connection fresh fresh true) in
  let w1 := snd (read_recipe_data (Opened (header :: rows) None) w) in
  let w2 := snd (save_to_database ascii_lower (lit " Y ") w1) in
  fst (save_to_database ascii_lower (lit " Y ") w1) = Ret tt
  /\ durable (conn w2) = live (conn w2)
  /\ map (fun i => (ing_recipe_id i, ing_quantity_ingredient i))
         (ingredients (durable (conn w2)))
     = [(1%Z, lit "1 apple"); (1%Z, lit "2 cups flour"); (2%Z, lit " salt")].
Proof.
  cbv zeta.
  pose proof (C3_import_persists_ingredients ascii_lower (lit " Y ")
    (init (mk_connection fresh fresh true))
    [lit "name"; lit "category"; lit "ingredients"]
    [[lit "Pie"; lit "Dessert"; lit "1 apple,2 cups flour"];
     [lit "bad"; lit "row"];
     [lit "Soup"; lit "Main"; lit "salt"; lit "extra"]]) as H.
  cbv zeta in H.
  destruct H as (_ & H & Hc & _).
  - reflexivity.
  - intros row _ _ Hin. exact Hin.
  - split; [exact H|]. split; [exact Hc | reflexivity].
Defined.

(** ** C4: rows with fewer than three fields *)

(** C4: reading a file to its end returns without an exception, touches
    nothing of the connection, stages exactly the rows of at least three
    fields, in order, and records exactly their category names: a shorter
    row is staged nowhere.  After a confirmed save, in a store where the
    category names of the file are free, everything is committed and the
    recipes table has grown by the number of rows of at least three
    fields, so N such rows among N+1 leave exactly N more recipes. *)
Theorem C4_short_rows_are_skipped (lower : str -> str) (answer : str)
    (w : world) (header : list str) (rows : list (list str)) :
  let valid := filter (fun row => (3 <=? List.length row)%nat) rows in
  let w1 := snd (read_recipe_data (Opened (header :: rows) None) w) in
  let w2 := snd (save_to_database lower answer w1) in
  fst (read_recipe_data (Opened (header :: rows) None) w) = Ret tt
  /\ conn w1 = conn w
  /\ recipe_list w1
     = map (fun row => (nth 0 row [], nth 1 row [], split COMMA None (nth 2 row [])))
           valid
  /\ (forall k, In k (Dict.keys (category_map w1)) <->
        exists row, In row rows /\ (3 <= List.length row)%nat
                    /\ nth 1 row [] = k)
  /\ (eqb (strip (lower answer)) (lit "y") = true ->
      (forall row, In row rows -> (3 <= List.length row)%nat ->
         ~ In (nth 1 row []) (map cat_name (category (live (conn w))))) ->
      fst (save_to_database lower answer w1) = Ret tt
      /\ durable (conn w2) = live (conn w2)
      /\ List.length (recipes (durable (conn w2)))
         = (List.length (recipes (live (conn w))) + List.length valid)%nat).
Proof.
  cbv zeta.
  destruct (read_recipe_data_opened w header rows) as (cm1 & out1 & E & _ & Hk).
  split; [now rewrite E|]. split; [now rewrite E|]. split; [now rewrite E|].
  split; [rewrite E; exact Hk|].
  intros Hy Hfree.
  pose proof (import_committed lower answer w header rows Hy Hfree) as Hc.
  destruct (import_confirmed lower answer w header rows Hy Hfree)
    as (Hret & new_recs & new_ings & Hr & _ & Hn & _).
  cbv zeta in Hc. split; [exact Hret|]. split; [exact Hc|].
  rewrite Hc, Hr, length_app. f_equal.
  rewrite <- (length_map rec_name new_recs), Hn. apply length_map.
Qed.

Lemma C4_short_rows_are_skipped_witness :
  let rows := [[lit "Pie"; lit "Dessert"; lit "1 apple,2 cups flour"];
               [lit "bad"; lit "row"]] in
  let header := [lit "name"; lit "category"; lit "ingredients"] in
  let w := init (mk_connection fresh fresh false) in
  let w1 := snd (read_recipe_data (Opened (header :: rows) None) w) in
  let w2 := snd (save_to_database ascii_lower (lit "y") w1) in
  List.length (recipe_list w1) = 1%nat
  /\ fst (save_to_database ascii_lower (lit "y") w1) = Ret tt
  /\ List.length (recipes (durable (conn w2))) = 1%nat.
Proof.
  cbv zeta.
  pose proof (C4_short_rows_are_skipped ascii_lower (lit "y")
    (init (mk_connection fresh fresh false))
    [lit "name"; lit "category"; lit "ingredients"]
    [[lit "Pie"; lit "Dessert"; lit "1 apple,2 cups flour"];
     [lit "bad"; lit "row"]]) as H.
  cbv zeta in H.
  destruct H as (_ & _ & Hl & _ & H).
  destruct H as (H1 & _ & H2).
  - reflexivity.
  - intros row _ _ Hin. exact Hin.
  - split; [rewrite Hl; reflexivity|]. split; [exact H1 | rewrite H2; reflexivity].
Defined.

(** ** Uncommitted changes

    A method that returns leaves nothing uncommitted when it found nothing
    uncommitted; only an exception that leaves [save_to_database] can
    strand statements before their commit. *)

Lemma read_recipe_data_keeps_connection (file : csv_file) (w : world) :
  fst (read_recipe_data file w) = Ret tt
  /\ conn (snd (read_recipe_data file w)) = conn w.
Proof.
  unfold read_recipe_data, bind, set_recipe_list, set_category_map, try_except.
  simpl. destruct file as [e|rows broken]; [split; reflexivity|].
  destruct rows as [|header rows].
  - destruct broken; split; reflexivity.
  - destruct (read_rows_staged rows
                (mk_world (conn w) [] (ingredient_list w) []
                          (stdout w ++ [CsvHeaders header])))
      as (cm1 & out1 & E & _).
    unfold next, ret, print, bind. simpl. simpl in E. rewrite E.
    destruct broken; split; reflexivity.
Qed.









(** * Further properties *)

(** ** split and join *)

(** X1: joining the parts of [s.split(sep)] or [s.split(sep, n)] with the
    separator gives [s] back, for every string, separator and limit. *)
Theorem X1_join_split (sep : char) (maxsplit : option nat) (s : str) :
  join sep (split sep maxsplit s) = s.
Proof.
  revert maxsplit. induction s as [|c s IH]; intros n; simpl; [reflexivity|].
  destruct ((c =? sep)%N && may_cut n) eqn:E.
  - apply andb_true_iff in E. destruct E as [E _]. apply N.eqb_eq in E. subst c.
    specialize (IH (after_cut n)).
    destruct (split sep (after_cut n) s) as [|p ps] eqn:Es.
    + exfalso. exact (split_nonempty _ _ _ Es).
    + simpl. simpl in IH. now rewrite IH.
  - specialize (IH n).
    destruct (split sep n s) as [|p ps] eqn:Es.
    + exfalso. exact (split_nonempty _ _ _ Es).
    + destruct ps as [|p2 ps]; simpl in *; now rewrite IH.
Qed.

(** X2: [s.split(sep)] without a limit gives one part more than [s] has
    separators, and no part contains the separator; with a limit [n] it
    gives at least one and at most [n + 1] parts. *)
Theorem X2_split_parts (sep : char) (s : str) :
  Forall (fun p => ~ In sep p) (split sep None s)
  /\ List.length (split sep None s) = S (count_occ N.eq_dec s sep)
  /\ forall n, (1 <= List.length (split sep (Some n) s) <= S n)%nat.
Proof.
  split; [|split].
  - induction s as [|c s IH]; simpl.
    + constructor; [tauto | constructor].
    + destruct (N.eqb_spec c sep) as [->|Hne]; simpl.
      * constructor; [tauto | exact IH].
      * destruct (split sep None s) as [|p ps]; [repeat constructor; simpl; intuition|].
        inversion IH; subst. constructor; [|assumption].
        simpl. intros [H|H]; [contradiction | auto].
  - induction s as [|c s IH]; simpl; [reflexivity|].
    destruct (N.eqb_spec c sep) as [->|Hne]; simpl.
    + destruct (N.eq_dec sep sep); [|congruence]. now rewrite IH.
    + destruct (N.eq_dec c sep); [contradiction|].
      destruct (split sep None s) as [|p ps]; simpl in *; [discriminate | exact IH].
  - induction s as [|c s IH]; intros n; simpl; [lia|].
    destruct n as [|n]; simpl.
    + rewrite andb_false_r. specialize (IH O).
      destruct (split sep (Some O) s) as [|p ps]; simpl in *; lia.
    + destruct (c =? sep)%N; simpl.
      * specialize (IH n). lia.
      * specialize (IH (S n)).
        destruct (split sep (Some (S n)) s) as [|p ps]; simpl in *; lia.
Qed.

(** ** strip *)

Lemma drop_while_idem p s : drop_while p (drop_while p s) = drop_while p s.
Proof.
  induction s as [|c s IH]; simpl; [reflexivity|].
  destruct (p c) eqn:E; [exact IH|]. simpl. now rewrite E.
Qed.

Lemma take_while_forallb p s : forallb p (take_while p s) = true.
Proof.
  induction s as [|c s IH]; simpl; [reflexivity|].
  destruct (p c) eqn:E; simpl; [now rewrite E | reflexivity].
Qed.

Lemma forallb_rev {A} (p : A -> bool) l : forallb p (rev l) = forallb p l.
Proof.
  induction l as [|a l IH]; simpl; [reflexivity|].
  rewrite forallb_app, IH. simpl. rewrite andb_true_r. apply andb_comm.
Qed.

(** [strip] removes a run of whitespace at each end and nothing else. *)
Lemma strip_parts s :
  exists a b, s = a ++ strip s ++ b
              /\ forallb isspace a = true /\ forallb isspace b = true.
Proof.
  exists (take_while isspace s),
         (rev (take_while isspace (rev (lstrip s)))).
  split; [|split].
  - unfold strip, rstrip.
    rewrite <- rev_app_distr, take_drop_while, rev_involutive.
    unfold lstrip. now rewrite take_drop_while.
  - apply take_while_forallb.
  - rewrite forallb_rev. apply take_while_forallb.
Qed.

Lemma strip_head s c t : strip s = c :: t -> isspace c = false.
Proof.
  intros H. destruct (strip_parts (lstrip s)) as (a & b & E & Ha & _).
  rewrite strip_lstrip, H in E.
  assert (Ha' : a = []).
  { destruct a as [|x a]; [reflexivity|]. exfalso.
    simpl in Ha. apply andb_true_iff in Ha. destruct Ha as [Hx _].
    unfold lstrip in E. simpl in E.
    apply drop_while_head in E. congruence. }
  subst a. unfold lstrip in E. simpl in E. exact (drop_while_head _ _ _ _ E).
Qed.

Lemma strip_idem s : strip (strip s) = strip s.
Proof.
  assert (Hl : lstrip (strip s) = strip s).
  { destruct (strip s) as [|c t] eqn:E; [reflexivity|].
    unfold lstrip. simpl. now rewrite (strip_head _ _ _ E). }
  unfold strip at 1. rewrite Hl.
  unfold strip, rstrip. rewrite rev_involutive. now rewrite drop_while_idem.
Qed.

Lemma filter_blanks a :
  forallb isspace a = true -> filter IngredientRule.not_space a = [].
Proof.
  unfold IngredientRule.not_space.
  induction a as [|c a IH]; simpl; [reflexivity|].
  intros H. apply andb_true_iff in H. destruct H as [Hc Ha].
  rewrite Hc. simpl. auto.
Qed.

Lemma filter_strip s :
  filter IngredientRule.not_space (strip s) = filter IngredientRule.not_space s.
Proof.
  destruct (strip_parts s) as (a & b & E & Ha & Hb).
  rewrite E at 2. rewrite !filter_app, (filter_blanks _ Ha), (filter_blanks _ Hb).
  now rewrite app_nil_r.
Qed.

Lemma in_strip s c : In c (strip s) -> In c s.
Proof.
  destruct (strip_parts s) as (a & b & E & _). intros H.
  rewrite E, !in_app_iff. auto.
Qed.

(** ** class Ingredient: the stored value *)

(** X3: storing is idempotent: the stored value of an ingredient string,
    parsed again as an ingredient string, is stored unchanged. *)
Theorem X3_stored_value_is_stable (s : str) (rid rid' : Z) :
  Ingredient.quantity_ingredient
    (Ingredient.init
       (Ingredient.quantity_ingredient (Ingredient.init s rid)) rid')
  = Ingredient.quantity_ingredient (Ingredient.init s rid).
Proof.
  destruct (in_dec N.eq_dec SPACE s) as [Hin|Hno].
  - destruct (in_split_first _ _ Hin) as (q & r & -> & Hq).
    rewrite (stored_cut q r rid Hq).
    change (strip q ++ [SPACE] ++ strip r) with (strip q ++ SPACE :: strip r).
    rewrite stored_cut.
    + now rewrite !strip_idem.
    + intros H. apply Hq. now apply in_strip.
  - rewrite (stored_uncut s rid Hno).
    change ([SPACE] ++ strip s) with ([] ++ SPACE :: strip s).
    rewrite stored_cut by (simpl; tauto).
    now rewrite strip_idem.
Qed.

(** X4: the stored value keeps every non-whitespace character of the
    ingredient string, in order: parsing only drops and inserts
    whitespace. *)
Theorem X4_stored_value_keeps_the_text (s : str) (rid : Z) :
  filter IngredientRule.not_space
    (Ingredient.quantity_ingredient (Ingredient.init s rid))
  = filter IngredientRule.not_space s.
Proof.
  destruct (in_dec N.eq_dec SPACE s) as [Hin|Hno].
  - destruct (in_split_first _ _ Hin) as (q & r & -> & Hq).
    rewrite (stored_cut q r rid Hq).
    rewrite !filter_app, !filter_strip. reflexivity.
  - rewrite (stored_uncut s rid Hno).
    rewrite filter_app, filter_strip. reflexivity.
Qed.

(** ** Loops: what every iteration keeps, the loop keeps *)

Lemma for_each_keeps {A} (I : world -> Prop) (body : A -> M unit) (l : list A) :
  (forall x w, I w -> I (snd (body x w))) ->
  forall w, I w -> I (snd (for_each l body w)).
Proof.
  intros Hbody. induction l as [|x l IH]; intros w Hw; simpl; [exact Hw|].
  unfold bind. specialize (Hbody x w Hw).
  destruct (body x w) as [[u|e] w1]; simpl in *; auto.
Qed.

Lemma for_each_app {A} (body : A -> M unit) (l1 l2 : list A) (w : world) :
  for_each (l1 ++ l2) body w =
  match for_each l1 body w with
  | (Ret _, w1) => for_each l2 body w1
  | (Raise e, w1) => (Raise e, w1)
  end.
Proof.
  revert w. induction l1 as [|x l1 IH]; intros w; simpl; [reflexivity|].
  unfold bind. destruct (body x w) as [[u|e] w1]; [apply IH | reflexivity].
Qed.

(** ** read_recipe_data: errors and the staging it leaves *)

Lemma in_dict_set {V} (k k' : str) (v v' : V) (d : Dict.t V) :
  In (k', v') (Dict.set k v d) -> In (k', v') d \/ v' = v.
Proof.
  induction d as [|[k0 v0] d IH]; simpl.
  - intros [H|[]]. inversion H. now right.
  - destruct (eqb k0 k); simpl.
    + intros [H|H]; [inversion H; now right | left; now right].
    + intros [H|H]; [left; now left|].
      destruct (IH H) as [H'|H']; [left; now right | now right].
Qed.

Lemma read_row_keeps_none (row : list str) (w : world) :
  (forall k v, In (k, v) (category_map w) -> v = None) ->
  forall k v, In (k, v) (category_map (snd (read_row row w))) -> v = None.
Proof.
  intros Hw. unfold read_row.
  destruct (List.length row <? 3)%nat; [exact Hw|].
  unfold bind, get_category_map, get_recipe_list, set_recipe_list,
    set_category_map, ret. simpl.
  destruct (Dict.mem (nth 1 row []) (category_map w)); simpl; [exact Hw|].
  intros k v Hin. destruct (in_dict_set _ _ _ _ _ Hin) as [H|H]; eauto.
Qed.

(** X5: errors of the file are caught.  A file that cannot be opened, or
    has no header row, leaves both staging structures empty; a reader that
    fails after some rows leaves the rows of at least three fields read so
    far staged.  In each case the method returns, the connection is
    untouched and the error is the last line printed. *)
Theorem X5_read_errors_are_caught (w : world) :
  (forall e,
     read_recipe_data (Unopenable e) w =
     (Ret tt, mk_world (conn w) [] (ingredient_list w) []
                       (stdout w ++ [ErrorReadingFile e])))
  /\ read_recipe_data (Opened [] None) w =
     (Ret tt, mk_world (conn w) [] (ingredient_list w) []
                       (stdout w ++ [ErrorReadingFile StopIteration]))
  /\ (forall header rows e,
        exists cm out,
          read_recipe_data (Opened (header :: rows) (Some e)) w =
          (Ret tt,
           mk_world (conn w)
             (map (fun row => (nth 0 row [], nth 1 row [],
                               split COMMA None (nth 2 row [])))
                  (filter (fun row => (3 <=? List.length row)%nat) rows))
             (ingredient_list w) cm (out ++ [ErrorReadingFile e]))).
Proof.
  split; [|split].
  - intros e. reflexivity.
  - reflexivity.
  - intros header rows e.
    destruct (read_rows_staged rows
                (mk_world (conn w) [] (ingredient_list w) []
                          (stdout w ++ [CsvHeaders header])))
      as (cm1 & out1 & E & _).
    exists cm1, out1.
    unfold read_recipe_data, bind, set_recipe_list, set_category_map,
      try_except, bind, next, ret, print. simpl.
    unfold bind. simpl in E. rewrite E. reflexivity.
Qed.

(** X6: whatever the file, [read_recipe_data] leaves a consistent
    staging: the staged category names are distinct, none has an
    identifier, and the category of every staged recipe is among them. *)
Theorem X6_read_leaves_consistent_staging (file : csv_file) (w : world) :
  staging_consistent (snd (read_recipe_data file w)).
Proof.
  assert (Hempty : forall c il out,
            staging_consistent (mk_world c [] il [] out)).
  { intros c il out. unfold staging_consistent. simpl.
    split; [constructor|]. split; intros; tauto. }
  destruct file as [e|rows broken]; [apply Hempty|].
  destruct rows as [|header rows]; [destruct broken; apply Hempty|].
  pose (w0 := mk_world (conn w) [] (ingredient_list w) []
                       (stdout w ++ [CsvHeaders header])).
  destruct (read_rows_staged rows w0) as (cm1 & out1 & E & Hnd & Hk).
  pose proof (for_each_keeps
                (fun w' => forall k v, In (k, v) (category_map w') -> v = None)
                read_row rows read_row_keeps_none w0) as Hnone.
  rewrite E in Hnone. simpl in Hnone, Hnd, Hk.
  assert (Hok : forall out, staging_consistent
            (mk_world (conn w)
               (map (fun row => (nth 0 row [], nth 1 row [],
                                 split COMMA None (nth 2 row [])))
                    (filter (fun row => (3 <=? List.length row)%nat) rows))
               (ingredient_list w) cm1 out)).
  { intros out. unfold staging_consistent.
    cbn [category_map recipe_list].
    split; [apply Hnd; constructor|].
    split; [apply Hnone; intros k v []|].
    intros n c es Hin. apply in_map_iff in Hin.
    destruct Hin as (row & Heq & Hin). inversion Heq; subst.
    apply filter_In in Hin. destruct Hin as [Hin Hv].
    apply Hk. right. exists row. split; [exact Hin|].
    split; [now apply Nat.leb_le | reflexivity]. }
  unfold read_recipe_data, bind, set_recipe_list, set_category_map,
    try_except, bind, next, ret, print. simpl.
  unfold bind. fold w0. rewrite E.
  destruct broken; apply Hok.
Qed.

(** ** Exceptions and commits of the methods *)

(** X7: apart from [save_to_database], no method lets an exception of a
    statement out: [read_recipe_data], [delete_recipe] and [update_recipe]
    return on every input and in every state of the store; so does
    [add_recipe] for a category name that encodes as UTF-8, and
    [get_category_id] then returns without changing anything. *)
Theorem X7_only_save_to_database_raises (w : world) :
  (forall file, fst (read_recipe_data file w) = Ret tt)
  /\ (forall recipe_id, fst (delete_recipe recipe_id w) = Ret tt)
  /\ (forall recipe_id new_name new_category,
        fst (update_recipe recipe_id new_name new_category w) = Ret tt)
  /\ (forall name category_name,
        encodable category_name = true ->
        fst (add_recipe name category_name w) = Ret tt)
  /\ (forall category_name,
        encodable category_name = true ->
        exists r, get_category_id category_name w = (Ret r, w)).
Proof.
  split; [|split; [|split; [|split]]].
  - intros file. apply read_recipe_data_keeps_connection.
  - intros recipe_id. unfold delete_recipe, try_except, bind, execute.
    destruct (delete_recipe_by_id recipe_id (conn w)) as [e|[u c']]; reflexivity.
  - intros recipe_id n c. apply update_recipe_returns.
  - intros name c Hc. unfold add_recipe, bind.
    rewrite (get_category_id_reads _ _ (encodable_binds _ _ Hc)).
    destruct (fetchone _) as [cid|]; [|reflexivity].
    unfold try_except, bind, execute.
    destruct (insert_recipe name (Some cid) (conn w)) as [e|[id c']]; reflexivity.
  - intros name Hc. eexists.
    apply (get_category_id_reads _ _ (encodable_binds _ _ Hc)).
Qed.

Lemma X7_only_save_to_database_raises_witness :
  let t := mk_tables [mk_category 1 (lit "Dessert")] 1
                     [mk_recipe 1 (lit "Pie") (Some 1%Z)] 1 [] 0 in
  let w := init (mk_connection t t true) in
  fst (add_recipe (lit "Cake") (lit "Dessert") w) = Ret tt
  /\ exists r, get_category_id (lit "Soup") w = (Ret r, w).
Proof.
  cbv zeta.
  pose (t := mk_tables [mk_category 1 (lit "Dessert")] 1
                     [mk_recipe 1 (lit "Pie") (Some 1%Z)] 1 [] 0).
  destruct (X7_only_save_to_database_raises (init (mk_connection t t true)))
    as (_ & _ & _ & Ha & Hg).
  split; [apply Ha | apply Hg]; reflexivity.
Defined.



(** ** save_to_database: every way it can end *)

(** The method after a confirmation, step by step. *)
Lemma save_to_database_steps (lower : str -> str) (answer : str) (w : world) :
  eqb (strip (lower answer)) (lit "y") = true ->
  save_to_database lower answer w =
  match for_each (Dict.keys (category_map w)) save_category
          (mk_world (conn w) (recipe_list w) (ingredient_list w) (category_map w)
             (stdout w ++ [NumberOfRecordsToSave (List.length (recipe_list w))]))
  with
  | (Raise e, w1) => (Raise e, w1)
  | (Ret _, w1) =>
      match for_each (recipe_list w1) save_recipe
              (mk_world (mk_connection (live (conn w1)) (live (conn w1))
                                       (foreign_keys (conn w1)))
                        (recipe_list w1) (ingredient_list w1) (category_map w1)
                        (stdout w1))
      with
      | (Raise e, w2) => (Raise e, w2)
      | (Ret _, w2) =>
          (Ret tt, mk_world (conn w2) (recipe_list w2) (ingredient_list w2)
                            (category_map w2) (stdout w2 ++ [DataSavedSuccessfully]))
      end
  end.
Proof.
  intros Hy.
  unfold save_to_database, bind, get_recipe_list, print, get_category_map.
  simpl. rewrite Hy. simpl.
  destruct (for_each _ save_category _) as [[u|e] w1]; [|reflexivity].
  unfold execute, commit. simpl.
  destruct (for_each _ save_recipe _) as [[u2|e] w2]; reflexivity.
Qed.

(** One category: the insert is refused when the name is taken, and
    otherwise appends the row and records its identifier. *)
Lemma save_category_cases (k : str) (w : world) :
  (In k (map cat_name (category (live (conn w))))
   /\ save_category k w = (Raise (IntegrityError UNIQUE_category_name), w))
  \/ (~ In k (map cat_name (category (live (conn w))))
      /\ save_category k w =
         (Ret tt,
          let t := live (conn w) in
          let id := next_rowid (map cat_id (category t)) (category_seq t) in
          mk_world (mk_connection
                      (set_category t (category t ++ [mk_category id k]) id)
                      (durable (conn w)) (foreign_keys (conn w)))
                   (recipe_list w) (ingredient_list w)
                   (Dict.set k (Some id) (category_map w)) (stdout w))).
Proof.
  destruct w as [[lv du fk] rl il cm out].
  unfold save_category, bind, execute, insert_category. simpl.
  destruct (existsb (fun r => eqb (cat_name r) k) (category lv)) eqn:E.
  - left. split; [now apply name_taken_In | reflexivity].
  - right. split; [|reflexivity].
    intros H. apply name_taken_In in H. congruence.
Qed.

Lemma get_in_keys {V} (k : str) (v : V) (d : Dict.t V) :
  Dict.get k d = Some v -> In k (Dict.keys d).
Proof.
  intros H. apply mem_keys. unfold Dict.mem. now rewrite H.
Qed.

Lemma keys_set_present {V} (k : str) (v : V) (d : Dict.t V) :
  In k (Dict.keys d) -> Dict.keys (Dict.set k v d) = Dict.keys d.
Proof.
  unfold Dict.keys.
  induction d as [|[k' v'] d IH]; simpl; [tauto|].
  destruct (eqb k' k) eqn:E; simpl; [reflexivity|].
  intros [H|H]; [apply eqb_neq in E; congruence|]. now rewrite IH.
Qed.

(** A recorded category stays recorded, and its row stays in the table,
    through the rest of a category loop that returns. *)
Lemma save_categories_keep_link (ks : list str) (k : str) (id : Z) :
  forall w w',
  for_each ks save_category w = (Ret tt, w') ->
  Dict.get k (category_map w) = Some (Some id) ->
  In (mk_category id k) (category (live (conn w))) ->
  Dict.get k (category_map w') = Some (Some id)
  /\ In (mk_category id k) (category (live (conn w'))).
Proof.
  induction ks as [|k' ks IH]; intros w w' H Hg Hin.
  - simpl in H. unfold ret in H. inversion H; subst. auto.
  - simpl in H. unfold bind in H.
    destruct (save_category_cases k' w) as [[_ E]|[Hfree E]];
      rewrite E in H; [discriminate|].
    cbv zeta in H. apply (IH _ _ H); simpl.
    + rewrite get_set_other; [exact Hg|].
      intros ->. apply Hfree. apply in_map_iff. now exists (mk_category id k).
    + apply in_app_iff. now left.
Qed.

(** A category loop that returns has inserted every key and recorded its
    identifier, without changing the set of keys. *)
Lemma save_categories_recorded (ks : list str) :
  forall w w',
  for_each ks save_category w = (Ret tt, w') ->
  (forall k, In k ks -> In k (Dict.keys (category_map w))) ->
  Dict.keys (category_map w') = Dict.keys (category_map w)
  /\ forall k, In k ks ->
       exists id, Dict.get k (category_map w') = Some (Some id)
                  /\ In (mk_category id k) (category (live (conn w'))).
Proof.
  induction ks as [|k ks IH]; intros w w' H Hks.
  - simpl in H. unfold ret in H. inversion H; subst. split; [reflexivity|].
    intros k [].
  - simpl in H. unfold bind in H.
    destruct (save_category_cases k w) as [[_ E]|[Hfree E]];
      rewrite E in H; [discriminate|].
    cbv zeta in H.
    assert (Hkeys : Dict.keys
              (Dict.set k (Some (next_rowid (map cat_id (category (live (conn w))))
                                            (category_seq (live (conn w)))))
                        (category_map w))
            = Dict.keys (category_map w)).
    { apply keys_set_present. apply Hks. now left. }
    destruct (IH _ _ H) as [Hk' Hrec].
    { intros k' Hk'. simpl. rewrite Hkeys. apply Hks. now right. }
    simpl in Hk'. rewrite Hkeys in Hk'. split; [exact Hk'|].
    intros k' [<-|Hin]; [|now apply Hrec].
    eexists. apply (save_categories_keep_link _ _ _ _ _ H); simpl.
    + apply get_set_same.
    + apply in_app_iff. right. now left.
Qed.

Lemma first_taken (ks names : list str) (k : str) :
  In k ks -> In k names ->
  exists pre k0 post,
    ks = pre ++ k0 :: post
    /\ (forall x, In x pre -> ~ In x names)
    /\ In k0 names.
Proof.
  induction ks as [|x ks IH]; simpl; [tauto|].
  intros Hin Hn.
  destruct (in_dec str_eq_dec x names) as [Hx|Hx].
  - exists [], x, ks. simpl. tauto.
  - destruct Hin as [->|Hin]; [contradiction|].
    destruct (IH Hin Hn) as (pre & k0 & post & -> & Hpre & Hk0).
    exists (x :: pre), k0, post. simpl. split; [reflexivity|].
    split; [|exact Hk0]. intros y [<-|Hy]; auto.
Qed.

(** A confirmed save of a staging with distinct category names, one of
    which the category table already has: the insert of the first such
    name raises. *)
Lemma save_to_database_name_taken (lower : str -> str) (answer : str)
    (w : world) (k : str) :
  eqb (strip (lower answer)) (lit "y") = true ->
  NoDup (Dict.keys (category_map w)) ->
  In k (Dict.keys (category_map w)) ->
  In k (map cat_name (category (live (conn w)))) ->
  fst (save_to_database lower answer w)
  = Raise (IntegrityError UNIQUE_category_name).
Proof.
  intros Hy Hnd Hk Htaken.
  rewrite (save_to_database_steps _ _ _ Hy).
  destruct (first_taken _ _ _ Hk Htaken) as (pre & k0 & post & Eks & Hpre & Hk0).
  rewrite Eks, for_each_app.
  rewrite Eks in Hnd. apply NoDup_app_remove_r in Hnd.
  destruct w as [[[cat cseq recs rseq ings iseq] du fk] rl il cm out].
  cbn [conn recipe_list ingredient_list category_map stdout live category]
    in Hpre, Hk0 |- *.
  destruct (save_categories_inserted pre cat cseq recs rseq ings iseq du fk rl il
              cm (out ++ [NumberOfRecordsToSave (List.length rl)]) Hnd Hpre)
    as (new & cseq' & cm' & E & _).
  rewrite E. simpl for_each. unfold bind.
  destruct (save_category_cases k0
              (mk_world (mk_connection
                           (mk_tables (cat ++ new) cseq' recs rseq ings iseq) du fk)
                        rl il cm' (out ++ [NumberOfRecordsToSave (List.length rl)])))
    as [[_ E2]|[Hfree _]].
  - rewrite E2. reflexivity.
  - exfalso. apply Hfree. simpl. rewrite map_app, in_app_iff. now left.
Qed.

(** X9: reading a file to its end and saving it on confirmation fails in
    exactly one case: the save returns if and only if no row of at least
    three fields names a category the category table already has, and
    otherwise it raises the UNIQUE violation of the category insert. *)
Theorem X9_import_fails_exactly_on_a_taken_category
    (lower : str -> str) (answer : str) (w : world)
    (header : list str) (rows : list (list str)) :
  eqb (strip (lower answer)) (lit "y") = true ->
  let w1 := snd (read_recipe_data (Opened (header :: rows) None) w) in
  (fst (save_to_database lower answer w1) = Ret tt <->
   forall row, In row rows -> (3 <= List.length row)%nat ->
     ~ In (nth 1 row []) (map cat_name (category (live (conn w)))))
  /\ ((exists row, In row rows /\ (3 <= List.length row)%nat
                   /\ In (nth 1 row []) (map cat_name (category (live (conn w)))))
      -> fst (save_to_database lower answer w1)
         = Raise (IntegrityError UNIQUE_category_name)).
Proof.
  intros Hy. cbv zeta.
  assert (Htaken : (exists row, In row rows /\ (3 <= List.length row)%nat
                   /\ In (nth 1 row []) (map cat_name (category (live (conn w)))))
      -> fst (save_to_database lower answer
                (snd (read_recipe_data (Opened (header :: rows) None) w)))
         = Raise (IntegrityError UNIQUE_category_name)).
  { intros (row & Hin & Hv & Ht).
    destruct (read_recipe_data_opened w header rows) as (cm1 & out1 & E & Hnd & Hk).
    rewrite E. cbn [snd].
    apply (save_to_database_name_taken lower answer _ (nth 1 row []) Hy);
      cbn [category_map conn]; auto.
    apply Hk. exists row. auto. }
  split; [split|exact Htaken].
  - intros Hret row Hin Hv Ht.
    rewrite Htaken in Hret by (exists row; auto). discriminate Hret.
  - intros Hfree. apply (import_confirmed lower answer w header rows Hy Hfree).
Qed.

Lemma X9_import_fails_exactly_on_a_taken_category_witness :
  let t := mk_tables [mk_category 1 (lit "Dessert")] 1 [] 0 [] 0 in
  let w := init (mk_connection t t true) in
  let header := [lit "name"; lit "category"; lit "ingredients"] in
  fst (save_to_database ascii_lower (lit "y")
         (snd (read_recipe_data
                 (Opened [header; [lit "Soup"; lit "Main"; lit "salt"]] None) w)))
  = Ret tt
  /\ fst (save_to_database ascii_lower (lit "y")
            (snd (read_recipe_data
                    (Opened [header; [lit "Pie"; lit "Dessert"; lit "1 apple"]] None) w)))
     = Raise (IntegrityError UNIQUE_category_name).
Proof.
  cbv zeta.
  pose (t := mk_tables [mk_category 1 (lit "Dessert")] 1 [] 0 [] 0).
  pose (header := [lit "name"; lit "category"; lit "ingredients"]).
  pose proof (X9_import_fails_exactly_on_a_taken_category ascii_lower (lit "y")
                (init (mk_connection t t true)) header
                [[lit "Soup"; lit "Main"; lit "salt"]] eq_refl) as H1.
  pose proof (X9_import_fails_exactly_on_a_taken_category ascii_lower (lit "y")
                (init (mk_connection t t true)) header
                [[lit "Pie"; lit "Dessert"; lit "1 apple"]] eq_refl) as H2.
  cbv zeta in H1, H2. destruct H1 as [H1 _]. destruct H2 as [_ H2].
  split.
  - apply H1. intros row [<-|[]] _. vm_compute. intros [H|[]]. discriminate H.
  - apply H2. exists [lit "Pie"; lit "Dessert"; lit "1 apple"].
    split; [now left|]. split; [simpl; lia|]. vm_compute. now left.
Defined.

Lemma for_each_raises {A} (P : exn -> Prop) (body : A -> M unit) (l : list A) :
  (forall x w e, fst (body x w) = Raise e -> P e) ->
  forall w e, fst (for_each l body w) = Raise e -> P e.
Proof.
  intros Hbody. induction l as [|x l IH]; intros w e; simpl.
  - discriminate.
  - unfold bind. specialize (Hbody x w).
    destruct (body x w) as [[u|e'] w1]; simpl in *; [apply IH | auto].
Qed.

(** The recipe loop raises nothing but a missing map entry or a foreign
    key violation. *)
Lemma save_recipes_never_unique (sl : list staged) (w : world) :
  fst (for_each sl save_recipe w) <> Raise (IntegrityError UNIQUE_category_name).
Proof.
  intros H.
  refine (for_each_raises
            (fun e => e = IntegrityError UNIQUE_category_name -> False)
            save_recipe sl _ w _ H eq_refl).
  clear. intros [[n c] es] w e. unfold save_recipe, bind, category_map_item,
    bind, get_category_map. simpl.
  destruct (Dict.get c (category_map w)) as [v|]; simpl;
    [|intros H; inversion H; discriminate].
  unfold execute at 1.
  destruct (insert_staged_recipe n v (conn w)) as [e0|[rid c']] eqn:Ei.
  - unfold insert_staged_recipe in Ei.
    destruct (foreign_keys (conn w) && _); inversion Ei; subst.
    simpl. intros H; inversion H; discriminate.
  - match goal with
    | |- context [for_each es (save_ingredient rid) ?w0] =>
        pose proof (for_each_raises
                      (fun e => e = IntegrityError UNIQUE_category_name -> False)
                      (save_ingredient rid) es) as Hing;
        specialize (fun Hb => Hing Hb w0);
        destruct (for_each es (save_ingredient rid) w0) as [[u|e1] w2]
    end.
    + unfold execute, commit. simpl. discriminate.
    + simpl. intros H. inversion H; subst. apply (Hing); [|reflexivity].
      clear. intros x w e. unfold save_ingredient, bind, execute, insert_ingredient.
      destruct (foreign_keys (conn w) && _); simpl;
        [intros H; inversion H; discriminate | discriminate].
Qed.

(** The category loop, however it ends, only appends to the category
    table and rewrites the map. *)
Lemma save_categories_frame (ks : list str) :
  forall cat cseq recs rseq ings iseq du fk rl il cm out,
  exists new cseq' cm',
    snd (for_each ks save_category
           (mk_world (mk_connection (mk_tables cat cseq recs rseq ings iseq) du fk)
                     rl il cm out))
    = mk_world (mk_connection (mk_tables (cat ++ new) cseq' recs rseq ings iseq) du fk)
               rl il cm' out.
Proof.
  induction ks as [|k ks IH]; intros cat cseq recs rseq ings iseq du fk rl il cm out.
  - exists [], cseq, cm. simpl. now rewrite app_nil_r.
  - simpl. unfold bind.
    destruct (save_category_cases k
                (mk_world (mk_connection (mk_tables cat cseq recs rseq ings iseq) du fk)
                          rl il cm out)) as [[_ E]|[_ E]]; rewrite E.
    + exists [], cseq, cm. simpl. now rewrite app_nil_r.
    + cbv zeta. unfold set_category. simpl.
      destruct (IH (cat ++ [mk_category (next_rowid (map cat_id cat) cseq) k])
                   (next_rowid (map cat_id cat) cseq) recs rseq ings iseq du fk rl il
                   (Dict.set k (Some (next_rowid (map cat_id cat) cseq)) cm) out)
        as (new & cseq' & cm' & E').
      rewrite E'. rewrite <- app_assoc. eauto.
Qed.

(** X10: when [save_to_database] raises the UNIQUE violation, it has
    inserted no recipe and no ingredient and committed nothing: the
    recipes and ingredients tables and the committed store are as before;
    only category rows inserted before the violation are left pending. *)
Theorem X10_failed_save_writes_no_recipe
    (lower : str -> str) (answer : str) (w : world) :
  fst (save_to_database lower answer w)
  = Raise (IntegrityError UNIQUE_category_name) ->
  let w' := snd (save_to_database lower answer w) in
  recipes (live (conn w')) = recipes (live (conn w))
  /\ ingredients (live (conn w')) = ingredients (live (conn w))
  /\ durable (conn w') = durable (conn w)
  /\ exists new, category (live (conn w')) = category (live (conn w)) ++ new.
Proof.
  cbv zeta.
  destruct (eqb (strip (lower answer)) (lit "y")) eqn:Hy.
  - rewrite (save_to_database_steps _ _ _ Hy).
    destruct w as [[[cat cseq recs rseq ings iseq] du fk] rl il cm out].
    cbn [conn recipe_list ingredient_list category_map stdout].
    destruct (save_categories_frame (Dict.keys cm) cat cseq recs rseq ings iseq
                du fk rl il cm (out ++ [NumberOfRecordsToSave (List.length rl)]))
      as (new & cseq' & cm' & E).
    destruct (for_each (Dict.keys cm) save_category _) as [[u|e] w1].
    + pose proof (save_recipes_never_unique (recipe_list w1)
                    (mk_world (mk_connection (live (conn w1)) (live (conn w1))
                                             (foreign_keys (conn w1)))
                              (recipe_list w1) (ingredient_list w1)
                              (category_map w1) (stdout w1))) as Hn.
      destruct (for_each (recipe_list w1) save_recipe _) as [[u2|e] w2];
        simpl in *; [discriminate | contradiction].
    + simpl in E. subst w1. simpl. intros _. eauto.
  - unfold save_to_database, bind, get_recipe_list, print. simpl.
    rewrite Hy. discriminate.
Qed.

Lemma X10_failed_save_writes_no_recipe_witness :
  let t := mk_tables [mk_category 1 (lit "Main")] 1 [] 0 [] 0 in
  let w := mk_world (mk_connection t t false)
             [(lit "Pie", lit "Dessert", [lit "1 apple"]);
              (lit "Soup", lit "Main", [lit "salt"])] []
             [(lit "Dessert", None); (lit "Main", None)] [] in
  recipes (live (conn (snd (save_to_database ascii_lower (lit "y") w)))) = []
  /\ durable (conn (snd (save_to_database ascii_lower (lit "y") w))) = t.
Proof.
  cbv zeta.
  destruct (X10_failed_save_writes_no_recipe ascii_lower (lit "y")
    (mk_world (mk_connection
                 (mk_tables [mk_category 1 (lit "Main")] 1 [] 0 [] 0)
                 (mk_tables [mk_category 1 (lit "Main")] 1 [] 0 [] 0) false)
             [(lit "Pie", lit "Dessert", [lit "1 apple"]);
              (lit "Soup", lit "Main", [lit "salt"])] []
             [(lit "Dessert", None); (lit "Main", None)] []))
    as (H1 & _ & H3 & _).
  - reflexivity.
  - split; [exact H1 | exact H3].
Defined.

(** The recipe loop, however it ends, leaves the category table and the
    category map alone. *)
Lemma save_recipes_keep_categories (sl : list staged) (w : world) :
  category (live (conn (snd (for_each sl save_recipe w))))
  = category (live (conn w))
  /\ category_map (snd (for_each sl save_recipe w)) = category_map w.
Proof.
  pose (I := fun w' : world =>
               category (live (conn w')) = category (live (conn w))
               /\ category_map w' = category_map w).
  assert (Hing : forall rid x w', I w' -> I (snd (save_ingredient rid x w'))).
  { intros rid x w' Hw'. unfold save_ingredient, bind, execute, insert_ingredient.
    destruct (foreign_keys (conn w') && _); simpl; exact Hw'. }
  apply (for_each_keeps I save_recipe sl); [|split; reflexivity].
  intros [[n c] es] w' Hw'.
  unfold save_recipe, bind, category_map_item, bind, get_category_map. simpl.
  destruct (Dict.get c (category_map w')) as [v|]; simpl; [|exact Hw'].
  unfold execute at 1.
  destruct (insert_staged_recipe n v (conn w')) as [e0|[rid c']] eqn:Ei; [exact Hw'|].
  assert (Hc' : I (mk_world c' (recipe_list w') (ingredient_list w')
                            (category_map w') (stdout w'))).
  { unfold insert_staged_recipe in Ei.
    destruct (foreign_keys (conn w') && _); inversion Ei; subst. exact Hw'. }
  pose proof (for_each_keeps I (save_ingredient rid) es (Hing rid) _ Hc') as Hl.
  destruct (for_each es (save_ingredient rid) _) as [[u|e1] w2]; simpl in *;
    exact Hl.
Qed.

(** X11: a confirmed save cannot be repeated.  After a confirmed save
    that returned, with at least one category staged, a second confirmed
    save on the same staging raises the UNIQUE violation at its first
    category insert and changes nothing: no recipe can be saved twice. *)
Theorem X11_save_is_not_repeatable
    (lower : str -> str) (answer : str) (w : world) :
  eqb (strip (lower answer)) (lit "y") = true ->
  fst (save_to_database lower answer w) = Ret tt ->
  category_map w <> [] ->
  let w' := snd (save_to_database lower answer w) in
  save_to_database lower answer w' =
  (Raise (IntegrityError UNIQUE_category_name),
   mk_world (conn w') (recipe_list w') (ingredient_list w') (category_map w')
            (stdout w' ++ [NumberOfRecordsToSave (List.length (recipe_list w'))])).
Proof.
  intros Hy Hret Hne. cbv zeta.
  destruct (Dict.keys (category_map w)) as [|k ks] eqn:Ek.
  { destruct (category_map w); [congruence | discriminate Ek]. }
  apply (save_to_database_unique_violation lower answer _ k ks Hy).
  - revert Hret. rewrite (save_to_database_steps _ _ _ Hy).
    destruct (for_each (Dict.keys (category_map w)) save_category _)
      as [[[] |e] w1] eqn:E1; [|discriminate].
    destruct (save_categories_recorded _ _ _ E1) as [Hkeys _]; [auto|].
    pose proof (save_recipes_keep_categories (recipe_list w1)
                 (mk_world (mk_connection (live (conn w1)) (live (conn w1))
                                          (foreign_keys (conn w1)))
                           (recipe_list w1) (ingredient_list w1)
                           (category_map w1) (stdout w1))) as [_ Hm].
    destruct (for_each (recipe_list w1) save_recipe _) as [[u2|e] w2];
      [|discriminate].
    intros _. simpl in *. now rewrite Hm, Hkeys.
  - revert Hret. rewrite (save_to_database_steps _ _ _ Hy).
    destruct (for_each (Dict.keys (category_map w)) save_category _)
      as [[[] |e] w1] eqn:E1; [|discriminate].
    destruct (save_categories_recorded _ _ _ E1) as [_ Hrec]; [auto|].
    destruct (Hrec k) as (id & _ & Hin); [rewrite Ek; now left|].
    pose proof (save_recipes_keep_categories (recipe_list w1)
                 (mk_world (mk_connection (live (conn w1)) (live (conn w1))
                                          (foreign_keys (conn w1)))
                           (recipe_list w1) (ingredient_list w1)
                           (category_map w1) (stdout w1))) as [Hc _].
    destruct (for_each (recipe_list w1) save_recipe _) as [[u2|e] w2];
      [|discriminate].
    intros _. simpl in *. rewrite Hc.
    apply in_map_iff. now exists (mk_category id k).
Qed.

Lemma X11_save_is_not_repeatable_witness :
  let w := mk_world (mk_connection fresh fresh true)
             [(lit "Pie", lit "Dessert", [lit "1 apple"])] []
             [(lit "Dessert", None)] [] in
  fst (save_to_database ascii_lower (lit "y")
         (snd (save_to_database ascii_lower (lit "y") w)))
  = Raise (IntegrityError UNIQUE_category_name).
Proof.
  cbv zeta.
  rewrite (X11_save_is_not_repeatable ascii_lower (lit "y")
    (mk_world (mk_connection fresh fresh true)
             [(lit "Pie", lit "Dessert", [lit "1 apple"])] []
             [(lit "Dessert", None)] [])).
  - reflexivity.
  - reflexivity.
  - reflexivity.
  - discriminate.
Defined.

(** ** The import read back *)

Lemma select_the_row (k : str) (id : Z) (rows : list category_row) :
  NoDup (map cat_name rows) ->
  In (mk_category id k) rows ->
  filter (fun r => eqb (cat_name r) k) rows = [mk_category id k].
Proof.
  induction rows as [|r rows IH]; simpl; [tauto|].
  intros Hnd Hin. inversion Hnd as [|x l Hx Hl]; subst.
  destruct Hin as [->|Hin].
  - simpl. rewrite eqb_refl. f_equal. now apply select_unknown.
  - destruct (eqb (cat_name r) k) eqn:E.
    + exfalso. apply eqb_eq in E. apply Hx. rewrite E.
      apply in_map_iff. now exists (mk_category id k).
    + now apply IH.
Qed.

Lemma select_unique (k : str) (id : Z) (cat new : list category_row) :
  ~ In k (map cat_name cat) ->
  NoDup (map cat_name new) ->
  In (mk_category id k) (cat ++ new) ->
  fetchone (map cat_id (filter (fun r => eqb (cat_name r) k) (cat ++ new)))
  = Some id.
Proof.
  intros Hfree Hnd Hin. rewrite filter_app, (select_unknown _ _ Hfree). simpl.
  apply in_app_iff in Hin. destruct Hin as [Hin|Hin].
  - exfalso. apply Hfree. apply in_map_iff. now exists (mk_category id k).
  - now rewrite (select_the_row _ _ _ Hnd Hin).
Qed.

(** The ingredient loop, however it ends, leaves the recipes table and
    the category map alone. *)
Lemma save_ingredients_keep_recipes (rid : Z) (es : list str) (w : world) :
  recipes (live (conn (snd (for_each es (save_ingredient rid) w))))
  = recipes (live (conn w))
  /\ category_map (snd (for_each es (save_ingredient rid) w)) = category_map w.
Proof.
  apply (for_each_keeps
           (fun w' => recipes (live (conn w')) = recipes (live (conn w))
                      /\ category_map w' = category_map w)
           (save_ingredient rid) es); [|split; reflexivity].
  intros x w' Hw'. unfold save_ingredient, bind, execute, insert_ingredient.
  destruct (foreign_keys (conn w') && _); simpl; exact Hw'.
Qed.

(** A staged recipe that is saved: its row carries its name and what the
    map holds for its category. *)
Lemma save_recipe_returned (n c : str) (es : list str) (w w1 : world) :
  save_recipe (n, c, es) w = (Ret tt, w1) ->
  exists v rid,
    Dict.get c (category_map w) = Some v
    /\ recipes (live (conn w1)) = recipes (live (conn w)) ++ [mk_recipe rid n v]
    /\ category_map w1 = category_map w.
Proof.
  unfold save_recipe, bind, category_map_item, bind, get_category_map. simpl.
  destruct (Dict.get c (category_map w)) as [v|]; simpl; [|discriminate].
  unfold execute at 1.
  destruct (insert_staged_recipe n v (conn w)) as [e0|[rid c']] eqn:Ei; [discriminate|].
  pose proof (save_ingredients_keep_recipes rid es
                (mk_world c' (recipe_list w) (ingredient_list w)
                          (category_map w) (stdout w))) as [Hr Hm].
  destruct (for_each es (save_ingredient rid) _) as [[u|e1] w2]; [|discriminate].
  unfold execute, commit. simpl. intros H. inversion H; subst. clear H.
  simpl in *. exists v, rid. split; [reflexivity|]. split; [|exact Hm].
  rewrite Hr. unfold insert_staged_recipe in Ei.
  destruct (foreign_keys (conn w) && _); inversion Ei; subst. reflexivity.
Qed.

(** A recipe loop that returns: the new rows, in order, carry the staged
    names and what the map held for the staged categories. *)
Lemma save_recipes_category_ids (sl : list staged) :
  forall w w',
  for_each sl save_recipe w = (Ret tt, w') ->
  exists news,
    recipes (live (conn w')) = recipes (live (conn w)) ++ news
    /\ map (fun r => (rec_name r, rec_category_id r)) news
       = map (fun s : staged =>
                (fst (fst s),
                 match Dict.get (snd (fst s)) (category_map w) with
                 | Some v => v
                 | None => None
                 end)) sl.
Proof.
  induction sl as [|[[n c] es] sl IH]; intros w w' H.
  - simpl in H. unfold ret in H. inversion H; subst.
    exists []. now rewrite app_nil_r.
  - cbn [for_each] in H. unfold bind in H.
    destruct (save_recipe (n, c, es) w) as [[[]|e] w1] eqn:E1; [|discriminate].
    destruct (save_recipe_returned _ _ _ _ _ E1) as (v & rid & Hg & Hr & Hm).
    destruct (IH _ _ H) as (news & Hr' & Hp).
    exists (mk_recipe rid n v :: news). split.
    + rewrite Hr', Hr, <- app_assoc. reflexivity.
    + simpl. rewrite Hg. f_equal. rewrite Hp, Hm. reflexivity.
Qed.

(** X12: the import reads back.  After a file is read to its end and
    saved on confirmation, in a store where its category names are free,
    the new recipes rows carry, row by row, the recipe name of the file
    row and as category_id the identifier that [get_category_id] now
    returns for the category name of that row; none is null. *)
Theorem X12_imported_recipes_read_back
    (lower : str -> str) (answer : str) (w : world)
    (header : list str) (rows : list (list str)) :
  eqb (strip (lower answer)) (lit "y") = true ->
  (forall row, In row rows -> (3 <= List.length row)%nat ->
     ~ In (nth 1 row []) (map cat_name (category (live (conn w))))) ->
  let valid := filter (fun row => (3 <=? List.length row)%nat) rows in
  let w1 := snd (read_recipe_data (Opened (header :: rows) None) w) in
  let w2 := snd (save_to_database lower answer w1) in
  exists new_recs,
    recipes (live (conn w2)) = recipes (live (conn w)) ++ new_recs
    /\ map (fun r => (rec_name r, Ret (rec_category_id r))) new_recs
       = map (fun row => (nth 0 row [], fst (get_category_id (nth 1 row []) w2)))
             valid
    /\ Forall (fun r => rec_category_id r <> None) new_recs.
Proof.
  intros Hy Hfree. cbv zeta.
  pose proof (import_confirmed lower answer w header rows Hy Hfree) as [Hret _].
  cbv zeta in Hret. revert Hret.
  destruct (read_recipe_data_opened w header rows) as (cm1 & out1 & E & Hnd & Hk).
  rewrite E. cbn [snd]. clear E.
  rewrite (save_to_database_steps _ _ _ Hy).
  destruct w as [[[cat cseq recs rseq ings iseq] du fk] rl il cm out].
  cbn [conn recipe_list ingredient_list category_map stdout live category recipes]
    in Hfree |- *.
  set (sl := map (fun row => (nth 0 row [], nth 1 row [],
                              split COMMA None (nth 2 row [])))
                 (filter (fun row => (3 <=? List.length row)%nat) rows)).
  assert (Hkfree : forall k, In k (Dict.keys cm1) -> ~ In k (map cat_name cat)).
  { intros k Hin. apply Hk in Hin. destruct Hin as (row & Hr & Hv & <-).
    now apply Hfree. }
  destruct (save_categories_inserted (Dict.keys cm1) cat cseq recs rseq ings iseq
              du fk sl il cm1 (out1 ++ [NumberOfRecordsToSave (@List.length staged sl)])
              Hnd Hkfree)
    as (new & cseq' & cmA & E1 & Hnames & _).
  destruct (save_categories_recorded _ _ _ E1) as [_ Hrec]; [auto|].
  rewrite E1.
  cbn [conn recipe_list ingredient_list category_map stdout live foreign_keys].
  pose proof (save_recipes_keep_categories sl
                (mk_world (mk_connection
                             (mk_tables (cat ++ new) cseq' recs rseq ings iseq)
                             (mk_tables (cat ++ new) cseq' recs rseq ings iseq) fk)
                          sl il cmA
                          (out1 ++ [NumberOfRecordsToSave (@List.length staged sl)])))
    as [Hcat _].
  destruct (@for_each staged sl save_recipe _) as [[[]|e] wB] eqn:E2;
    [|discriminate].
  intros _.
  destruct (save_recipes_category_ids _ _ _ E2) as (news & Hr & Hp).
  cbn [snd conn live category recipes category_map] in Hcat, Hr, Hp, Hrec |- *.
  assert (Hlink : forall row, In row rows -> (3 <= List.length row)%nat ->
            exists id, Dict.get (nth 1 row []) cmA = Some (Some id)
                       /\ fetchone (map cat_id
                            (filter (fun r => eqb (cat_name r) (nth 1 row []))
                                    (category (live (conn wB))))) = Some id).
  { intros row Hin Hv.
    destruct (Hrec (nth 1 row [])) as (id & Hg & Hrow).
    { apply Hk. exists row. auto. }
    exists id. split; [exact Hg|]. rewrite Hcat.
    apply select_unique; [now apply Hfree | now rewrite Hnames | exact Hrow]. }
  exists news. split; [exact Hr|].
  assert (Hpairs : map (fun r => (rec_name r, rec_category_id r)) news
                   = map (fun row =>
                            (nth 0 row [],
                             fetchone (map cat_id
                               (filter (fun r => eqb (cat_name r) (nth 1 row []))
                                       (category (live (conn wB))))))) 
                         (filter (fun row => (3 <=? List.length row)%nat) rows)).
  { rewrite Hp. unfold sl. rewrite map_map. apply map_ext_in.
    intros row Hin. apply filter_In in Hin. destruct Hin as [Hin Hv].
    apply Nat.leb_le in Hv. destruct (Hlink row Hin Hv) as (id & Hg & Hf).
    unfold fst, snd. unfold str in *. now rewrite Hg, Hf. }
  split.
  - transitivity (map (fun p : str * option Z => (fst p, Ret (snd p)))
                      (map (fun r => (rec_name r, rec_category_id r)) news)).
    + rewrite map_map. reflexivity.
    + rewrite Hpairs, map_map. apply map_ext_in. intros row Hin.
      apply filter_In in Hin. destruct Hin as [Hin Hv]. apply Nat.leb_le in Hv.
      destruct (Hlink row Hin Hv) as (id & _ & Hf).
      rewrite get_category_id_reads; [reflexivity|].
      apply held_binds. destruct (select_known _ _ _ Hf) as (r0 & Hr0 & _ & Hn).
      apply in_map_iff. exists r0. split; [exact Hn | exact Hr0].
  - apply Forall_forall. intros r Hin Hnone.
    assert (Hin' : In (rec_name r, rec_category_id r)
                      (map (fun r => (rec_name r, rec_category_id r)) news))
      by (apply in_map_iff; now exists r).
    rewrite Hpairs in Hin'. apply in_map_iff in Hin'.
    destruct Hin' as (row & Heq & Hrow).
    apply filter_In in Hrow. destruct Hrow as [Hrow Hv].
    apply Nat.leb_le in Hv. destruct (Hlink row Hrow Hv) as (id & _ & Hf).
    unfold str in *. rewrite Hf in Heq. inversion Heq. congruence.
Qed.

Lemma X12_imported_recipes_read_back_witness :
  let rows := [[lit "Pie"; lit "Dessert"; lit "1 apple"];
               [lit "Soup"; lit "Main"; lit "salt"];
               [lit "Cake"; lit "Dessert"; lit "2 eggs"]] in
  let header := [lit "name"; lit "category"; lit "ingredients"] in
  let w := init (mk_connection fresh fresh false) in
  let w1 := snd (read_recipe_data (Opened (header :: rows) None) w) in
  let w2 := snd (save_to_database ascii_lower (lit "y") w1) in
  map (fun r => (rec_name r, Ret (rec_category_id r))) (recipes (live (conn w2)))
  = map (fun row => (nth 0 row [], fst (get_category_id (nth 1 row []) w2))) rows.
Proof.
  cbv zeta.
  destruct (X12_imported_recipes_read_back ascii_lower (lit "y")
    (init (mk_connection fresh fresh false))
    [lit "name"; lit "category"; lit "ingredients"]
    [[lit "Pie"; lit "Dessert"; lit "1 apple"];
     [lit "Soup"; lit "Main"; lit "salt"];
     [lit "Cake"; lit "Dessert"; lit "2 eggs"]]) as (news & Hr & Hp & _).
  - reflexivity.
  - intros row _ _ Hin. exact Hin.
  - cbv zeta in Hr, Hp. simpl app in Hr. rewrite Hr. exact Hp.
Defined.

(** ** Invariants of the store *)

Lemma refs_grow_category (cat' : list category_row) (cseq' : Z) (t : tables) :
  (forall id, In id (map cat_id (category t)) -> In id (map cat_id cat')) ->
  category_refs_hold t ->
  category_refs_hold (set_category t cat' cseq').
Proof.
  unfold category_refs_hold. simpl. intros Hsub H r cid Hr Hc. eauto.
Qed.

Lemma refs_new_recipes (recs' : list recipe_row) (rseq' : Z) (t : tables) :
  (forall r, In r recs' ->
     In r (recipes t)
     \/ rec_category_id r = None
     \/ exists cid, rec_category_id r = Some cid
                    /\ In cid (map cat_id (category t))) ->
  category_refs_hold t ->
  category_refs_hold (set_recipes t recs' rseq').
Proof.
  unfold category_refs_hold. simpl. intros Hnew H r cid Hr Hc.
  destruct (Hnew r Hr) as [Hold|[Hnone|(cid' & Hsome & Hin)]].
  - eauto.
  - congruence.
  - congruence.
Qed.

Lemma refs_insert_staged_recipe name v c id c' :
  insert_staged_recipe name v c = inr (id, c') ->
  (forall cid, v = Some cid -> In cid (map cat_id (category (live c)))) ->
  category_refs_hold (live c) -> category_refs_hold (live c').
Proof.
  unfold insert_staged_recipe. destruct (foreign_keys c && _); [discriminate|].
  intros H Hv Hrefs. inversion H; subst. simpl.
  apply refs_new_recipes; [|exact Hrefs].
  intros r Hr. apply in_app_iff in Hr. destruct Hr as [Hr|[<-|[]]]; [now left|].
  right. simpl. destruct v as [cid|]; [right; eauto | now left].
Qed.

Lemma refs_update_category v recipe_id c c' :
  update_recipe_category v recipe_id c = inr (tt, c') ->
  (forall cid, v = Some cid -> In cid (map cat_id (category (live c)))) ->
  category_refs_hold (live c) -> category_refs_hold (live c').
Proof.
  unfold update_recipe_category. bound_parameters.
  destruct (foreign_keys c && _ && _); [discriminate|].
  intros H Hv Hrefs. inversion H; subst. simpl.
  apply refs_new_recipes; [|exact Hrefs].
  intros r Hr. apply in_map_iff in Hr. destruct Hr as (r0 & <- & Hr0).
  destruct (rec_id r0 =? recipe_id)%Z; [|now left].
  right. simpl. destruct v as [cid|]; [right; eauto | now left].
Qed.

Lemma refs_update_name n recipe_id c c' :
  update_recipe_name n recipe_id c = inr (tt, c') ->
  category_refs_hold (live c) -> category_refs_hold (live c').
Proof.
  unfold update_recipe_name. bound_parameters.
  intros H Hrefs. inversion H; subst. simpl.
  apply refs_new_recipes; [|exact Hrefs].
  intros r Hr. apply in_map_iff in Hr. destruct Hr as (r0 & <- & Hr0).
  destruct (rec_id r0 =? recipe_id)%Z; [|now left].
  right. simpl. destruct (rec_category_id r0) as [cid|] eqn:E; [|now left].
  right. exists cid. split; [reflexivity|]. exact (Hrefs r0 cid Hr0 E).
Qed.

Lemma refs_delete recipe_id c c' :
  delete_recipe_by_id recipe_id c = inr (tt, c') ->
  category_refs_hold (live c) -> category_refs_hold (live c').
Proof.
  unfold delete_recipe_by_id. bound_parameters.
  destruct (foreign_keys c && _ && _); [discriminate|].
  intros H Hrefs. inversion H; subst. simpl.
  apply refs_new_recipes; [|exact Hrefs].
  intros r Hr. apply filter_In in Hr. now left.
Qed.

Lemma add_recipe_keeps_refs name category_name w :
  category_refs_hold (live (conn w)) ->
  category_refs_hold (live (conn (snd (add_recipe name category_name w)))).
Proof.
  intros Hrefs. unfold add_recipe, bind.
  destruct (get_category_id_runs category_name w) as (out0 & Eg). rewrite Eg.
  destruct (fetchone _) as [cid|] eqn:E; [|exact Hrefs].
  unfold try_except, bind, execute. cbn [conn].
  destruct (insert_recipe name (Some cid) (conn w)) as [e|[id c']] eqn:Ei;
    [exact Hrefs|].
  simpl. apply (refs_insert_staged_recipe _ _ _ _ _ (insert_recipe_bound _ _ _ _ Ei)); [|exact Hrefs].
  intros cid' H. inversion H; subst. exact (selected_id_exists _ _ _ E).
Qed.

Lemma delete_recipe_keeps_refs recipe_id w :
  category_refs_hold (live (conn w)) ->
  category_refs_hold (live (conn (snd (delete_recipe recipe_id w)))).
Proof.
  intros Hrefs. unfold delete_recipe, try_except, bind, execute.
  destruct (delete_recipe_by_id recipe_id (conn w)) as [e|[[] c']] eqn:Ed;
    [exact Hrefs|].
  simpl. exact (refs_delete _ _ _ Ed Hrefs).
Qed.

Lemma update_recipe_keeps_refs recipe_id new_name new_category w :
  category_refs_hold (live (conn w)) ->
  category_refs_hold
    (live (conn (snd (update_recipe recipe_id new_name new_category w)))).
Proof.
  intros Hrefs. unfold update_recipe, try_except. unfold bind at 1.
  assert (H1 : forall r w1,
            (match new_name with
             | Some ((_ :: _) as n) => execute (update_recipe_name n recipe_id)
             | _ => ret tt
             end) w = (r, w1) -> category_refs_hold (live (conn w1))).
  { intros r w1. destruct new_name as [[|n0 ns]|]; unfold ret;
      try (intros H; inversion H; subst; exact Hrefs).
    unfold execute.
    destruct (update_recipe_name (n0 :: ns) recipe_id (conn w)) as [e|[[] c']] eqn:E;
      intros H; inversion H; subst; [exact Hrefs|].
    simpl. exact (refs_update_name _ _ _ _ E Hrefs). }
  destruct (match new_name with
            | Some ((_ :: _) as n) => execute (update_recipe_name n recipe_id)
            | _ => ret tt
            end w) as [[u|e] w1] eqn:E1; specialize (H1 _ _ eq_refl);
    [|exact H1].
  unfold bind at 1.
  assert (H2 : forall r w2,
            (match new_category with
             | Some ((_ :: _) as c) =>
                 bind (get_category_id c)
                      (fun category_id =>
                         execute (update_recipe_category category_id recipe_id))
             | _ => ret tt
             end) w1 = (r, w2) -> category_refs_hold (live (conn w2))).
  { intros r w2. destruct new_category as [[|c0 cs]|]; unfold ret;
      try (intros H; inversion H; subst; exact H1).
    unfold bind. destruct (get_category_id_runs (c0 :: cs) w1) as (out0 & Eg).
    rewrite Eg. unfold execute. cbn [conn].
    destruct (update_recipe_category _ recipe_id (conn w1)) as [e|[[] c']] eqn:E;
      intros H; inversion H; subst; [exact H1|].
    simpl. apply (refs_update_category _ _ _ _ E); [|exact H1].
    intros cid Hc. exact (selected_id_exists _ _ _ Hc). }
  destruct (match new_category with
            | Some ((_ :: _) as c) =>
                bind (get_category_id c)
                     (fun category_id =>
                        execute (update_recipe_category category_id recipe_id))
            | _ => ret tt
            end w1) as [[u2|e] w2] eqn:E2; specialize (H2 _ _ eq_refl);
    [|exact H2].
  unfold bind, execute, commit, print. simpl. exact H2.
Qed.

Lemma save_category_keeps_refs k w :
  category_refs_hold (live (conn w)) ->
  category_refs_hold (live (conn (snd (save_category k w)))).
Proof.
  intros Hrefs. destruct (save_category_cases k w) as [[_ E]|[_ E]]; rewrite E.
  - exact Hrefs.
  - cbv zeta. simpl. apply refs_grow_category; [|exact Hrefs].
    intros id Hin. rewrite map_app, in_app_iff. now left.
Qed.

Lemma save_recipe_keeps_refs (r : staged) (w : world) :
  category_refs_hold (live (conn w))
  /\ (forall k v, Dict.get k (category_map w) = Some (Some v) ->
                  In v (map cat_id (category (live (conn w))))) ->
  category_refs_hold (live (conn (snd (save_recipe r w))))
  /\ (forall k v, Dict.get k (category_map (snd (save_recipe r w))) = Some (Some v) ->
                  In v (map cat_id (category (live (conn (snd (save_recipe r w))))))).
Proof.
  pose (I := fun w' : world =>
               category_refs_hold (live (conn w'))
               /\ (forall k v, Dict.get k (category_map w') = Some (Some v) ->
                               In v (map cat_id (category (live (conn w')))))).
  change (I w -> I (snd (save_recipe r w))).
  intros Hw. destruct r as [[n c] es].
  unfold save_recipe, bind, category_map_item, bind, get_category_map. simpl.
  destruct (Dict.get c (category_map w)) as [v|] eqn:Eg; simpl; [|exact Hw].
  unfold execute at 1.
  destruct (insert_staged_recipe n v (conn w)) as [e0|[rid c']] eqn:Ei; [exact Hw|].
  assert (Hc' : I (mk_world c' (recipe_list w) (ingredient_list w)
                            (category_map w) (stdout w))).
  { split; simpl.
    - apply (refs_insert_staged_recipe _ _ _ _ _ Ei); [|apply Hw].
      intros cid ->. destruct Hw as [_ Hm]. exact (Hm c cid Eg).
    - unfold insert_staged_recipe in Ei.
      destruct (foreign_keys (conn w) && _); inversion Ei; subst. apply Hw. }
  assert (Hing : forall x w', I w' -> I (snd (save_ingredient rid x w'))).
  { intros x w' Hw'. unfold save_ingredient, bind, execute, insert_ingredient.
    destruct (foreign_keys (conn w') && _); simpl; exact Hw'. }
  pose proof (for_each_keeps I (save_ingredient rid) es Hing _ Hc') as Hl.
  destruct (for_each es (save_ingredient rid) _) as [[u|e1] w2]; simpl in *;
    exact Hl.
Qed.

Lemma save_to_database_keeps_refs (lower : str -> str) (answer : str) (w : world) :
  category_refs_hold (live (conn w)) ->
  category_refs_hold (live (conn (snd (save_to_database lower answer w)))).
Proof.
  intros Hrefs.
  destruct (eqb (strip (lower answer)) (lit "y")) eqn:Hy.
  - rewrite (save_to_database_steps _ _ _ Hy).
    pose proof (for_each_keeps (fun w' => category_refs_hold (live (conn w')))
                  save_category (Dict.keys (category_map w))
                  save_category_keeps_refs
                  (mk_world (conn w) (recipe_list w) (ingredient_list w)
                     (category_map w)
                     (stdout w ++ [NumberOfRecordsToSave (List.length (recipe_list w))]))
                  Hrefs) as HA.
    destruct (for_each (Dict.keys (category_map w)) save_category _)
      as [[[]|e] wA] eqn:E1; simpl in HA; [|exact HA].
    destruct (save_categories_recorded _ _ _ E1) as [Hkeys Hrec]; [auto|].
    simpl in Hkeys.
    assert (Hmap : forall k v, Dict.get k (category_map wA) = Some (Some v) ->
                     In v (map cat_id (category (live (conn wA))))).
    { intros k v Hg. pose proof (get_in_keys _ _ _ Hg) as Hin.
      rewrite Hkeys in Hin. destruct (Hrec k Hin) as (id & Hg' & Hrow).
      rewrite Hg in Hg'. inversion Hg'; subst.
      apply in_map_iff. now exists (mk_category id k). }
    pose proof (for_each_keeps
      (fun w' => category_refs_hold (live (conn w'))
                 /\ (forall k v, Dict.get k (category_map w') = Some (Some v) ->
                                 In v (map cat_id (category (live (conn w'))))))
      save_recipe (recipe_list wA) save_recipe_keeps_refs
      (mk_world (mk_connection (live (conn wA)) (live (conn wA))
                               (foreign_keys (conn wA)))
                (recipe_list wA) (ingredient_list wA) (category_map wA) (stdout wA))
      (conj HA Hmap)) as [HB _].
    destruct (for_each (recipe_list wA) save_recipe _) as [[u2|e] wB]; exact HB.
  - unfold save_to_database, bind, get_recipe_list, print. simpl.
    rewrite Hy. exact Hrefs.
Qed.

(** X13: referential integrity of recipes is an invariant of the class.
    If every recipes row with a category_id refers to a category row, it
    is so again after any method, with any arguments and however the
    method ends, whether or not the connection enforces foreign keys. *)
Theorem X13_category_references_are_kept (lower : str -> str) (w : world) :
  category_refs_hold (live (conn w)) ->
  (forall file,
     category_refs_hold (live (conn (snd (read_recipe_data file w)))))
  /\ (forall answer,
        category_refs_hold (live (conn (snd (save_to_database lower answer w)))))
  /\ (forall name category_name,
        category_refs_hold (live (conn (snd (add_recipe name category_name w)))))
  /\ (forall recipe_id,
        category_refs_hold (live (conn (snd (delete_recipe recipe_id w)))))
  /\ (forall recipe_id new_name new_category,
        category_refs_hold
          (live (conn (snd (update_recipe recipe_id new_name new_category w))))).
Proof.
  intros Hrefs. split; [|split; [|split; [|split]]].
  - intros file. destruct (read_recipe_data_keeps_connection file w) as [_ ->].
    exact Hrefs.
  - intros answer. now apply save_to_database_keeps_refs.
  - intros name c. now apply add_recipe_keeps_refs.
  - intros recipe_id. now apply delete_recipe_keeps_refs.
  - intros recipe_id n c. now apply update_recipe_keeps_refs.
Qed.

Lemma X13_category_references_are_kept_witness :
  let t := mk_tables [mk_category 1 (lit "Dessert")] 1
                     [mk_recipe 1 (lit "Pie") (Some 1%Z)] 1 [] 0 in
  let w := mk_world (mk_connection t t false)
             [(lit "Soup", lit "Main", [lit "salt"])] []
             [(lit "Main", None)] [] in
  category_refs_hold
    (live (conn (snd (save_to_database ascii_lower (lit "y") w))))
  /\ category_refs_hold
       (live (conn (snd (update_recipe 1 None (Some (lit "Nope")) w)))).
Proof.
  cbv zeta.
  destruct (X13_category_references_are_kept ascii_lower
    (mk_world (mk_connection
                 (mk_tables [mk_category 1 (lit "Dessert")] 1
                            [mk_recipe 1 (lit "Pie") (Some 1%Z)] 1 [] 0)
                 (mk_tables [mk_category 1 (lit "Dessert")] 1
                            [mk_recipe 1 (lit "Pie") (Some 1%Z)] 1 [] 0) false)
             [(lit "Soup", lit "Main", [lit "salt"])] []
             [(lit "Main", None)] [])) as (_ & Hs & _ & _ & Hu).
  - unfold category_refs_hold. simpl.
    intros r cid [<-|[]] H. inversion H. now left.
  - split; [apply Hs | apply Hu].
Defined.

Lemma NoDup_snoc {A} (l : list A) (x : A) :
  NoDup l -> ~ In x l -> NoDup (l ++ [x]).
Proof.
  intros Hl Hx. apply NoDup_app; [exact Hl | repeat constructor; simpl; tauto |].
  intros y Hy [<-|[]]. contradiction.
Qed.

Lemma keys_insert_staged_recipe name v c id c' :
  insert_staged_recipe name v c = inr (id, c') ->
  keys_unique (live c) -> keys_unique (live c').
Proof.
  intros H (H1 & H2 & H3 & H4).
  pose proof (insert_staged_recipe_keeps_key _ _ _ _ _ H H3) as H3'.
  unfold insert_staged_recipe in H. destruct (foreign_keys c && _); [discriminate|].
  inversion H; subst. unfold keys_unique. simpl in *. auto.
Qed.

Lemma keys_insert_ingredient q rid c id c' :
  insert_ingredient q rid c = inr (id, c') ->
  keys_unique (live c) -> keys_unique (live c').
Proof.
  intros H (H1 & H2 & H3 & H4).
  unfold insert_ingredient in H. destruct (foreign_keys c && _); [discriminate|].
  inversion H; subst. unfold keys_unique. simpl.
  repeat split; auto. rewrite map_app. simpl.
  apply NoDup_snoc; [exact H4 | apply next_rowid_fresh].
Qed.

Lemma keys_delete recipe_id c c' :
  delete_recipe_by_id recipe_id c = inr (tt, c') ->
  keys_unique (live c) -> keys_unique (live c').
Proof.
  intros H (H1 & H2 & H3 & H4).
  pose proof (delete_recipe_keeps_key _ _ _ H H3) as H3'.
  revert H. unfold delete_recipe_by_id. bound_parameters.
  destruct (foreign_keys c && _ && _); [discriminate|].
  intros H. inversion H; subst. unfold keys_unique. simpl in *. auto.
Qed.

Lemma keys_update_name n recipe_id c c' :
  update_recipe_name n recipe_id c = inr (tt, c') ->
  keys_unique (live c) -> keys_unique (live c').
Proof.
  intros H (H1 & H2 & H3 & H4).
  pose proof (update_recipe_name_keeps_key _ _ _ _ H H3) as H3'.
  revert H. unfold update_recipe_name. bound_parameters.
  intros H. inversion H; subst. unfold keys_unique. simpl in *. auto.
Qed.

Lemma keys_update_category v recipe_id c c' :
  update_recipe_category v recipe_id c = inr (tt, c') ->
  keys_unique (live c) -> keys_unique (live c').
Proof.
  intros H (H1 & H2 & H3 & H4).
  pose proof (update_recipe_category_keeps_key _ _ _ _ H H3) as H3'.
  revert H. unfold update_recipe_category. bound_parameters.
  destruct (foreign_keys c && _ && _); [discriminate|].
  intros H. inversion H; subst. unfold keys_unique. simpl in *. auto.
Qed.

Lemma add_recipe_keeps_keys name category_name w :
  keys_unique (live (conn w)) ->
  keys_unique (live (conn (snd (add_recipe name category_name w)))).
Proof.
  intros Hk. unfold add_recipe, bind.
  destruct (get_category_id_runs category_name w) as (out0 & Eg). rewrite Eg.
  destruct (fetchone _) as [cid|]; [|exact Hk].
  unfold try_except, bind, execute. cbn [conn].
  destruct (insert_recipe name (Some cid) (conn w)) as [e|[id c']] eqn:Ei;
    [exact Hk|].
  simpl. exact (keys_insert_staged_recipe _ _ _ _ _ (insert_recipe_bound _ _ _ _ Ei) Hk).
Qed.

Lemma delete_recipe_keeps_keys recipe_id w :
  keys_unique (live (conn w)) ->
  keys_unique (live (conn (snd (delete_recipe recipe_id w)))).
Proof.
  intros Hk. unfold delete_recipe, try_except, bind, execute.
  destruct (delete_recipe_by_id recipe_id (conn w)) as [e|[[] c']] eqn:Ed;
    [exact Hk|].
  simpl. exact (keys_delete _ _ _ Ed Hk).
Qed.

Lemma update_recipe_keeps_keys recipe_id new_name new_category w :
  keys_unique (live (conn w)) ->
  keys_unique
    (live (conn (snd (update_recipe recipe_id new_name new_category w)))).
Proof.
  intros Hk. unfold update_recipe, try_except. unfold bind at 1.
  assert (H1 : forall r w1,
            (match new_name with
             | Some ((_ :: _) as n) => execute (update_recipe_name n recipe_id)
             | _ => ret tt
             end) w = (r, w1) -> keys_unique (live (conn w1))).
  { intros r w1. destruct new_name as [[|n0 ns]|]; unfold ret;
      try (intros H; inversion H; subst; exact Hk).
    unfold execute.
    destruct (update_recipe_name (n0 :: ns) recipe_id (conn w)) as [e|[[] c']] eqn:E;
      intros H; inversion H; subst; [exact Hk|].
    simpl. exact (keys_update_name _ _ _ _ E Hk). }
  destruct (match new_name with
            | Some ((_ :: _) as n) => execute (update_recipe_name n recipe_id)
            | _ => ret tt
            end w) as [[u|e] w1] eqn:E1; specialize (H1 _ _ eq_refl);
    [|exact H1].
  unfold bind at 1.
  assert (H2 : forall r w2,
            (match new_category with
             | Some ((_ :: _) as c) =>
                 bind (get_category_id c)
                      (fun category_id =>
                         execute (update_recipe_category category_id recipe_id))
             | _ => ret tt
             end) w1 = (r, w2) -> keys_unique (live (conn w2))).
  { intros r w2. destruct new_category as [[|c0 cs]|]; unfold ret;
      try (intros H; inversion H; subst; exact H1).
    unfold bind. destruct (get_category_id_runs (c0 :: cs) w1) as (out0 & Eg).
    rewrite Eg. unfold execute. cbn [conn].
    destruct (update_recipe_category _ recipe_id (conn w1)) as [e|[[] c']] eqn:E;
      intros H; inversion H; subst; [exact H1|].
    simpl. exact (keys_update_category _ _ _ _ E H1). }
  destruct (match new_category with
            | Some ((_ :: _) as c) =>
                bind (get_category_id c)
                     (fun category_id =>
                        execute (update_recipe_category category_id recipe_id))
            | _ => ret tt
            end w1) as [[u2|e] w2] eqn:E2; specialize (H2 _ _ eq_refl);
    [|exact H2].
  unfold bind, execute, commit, print. simpl. exact H2.
Qed.

Lemma save_category_keeps_keys k w :
  keys_unique (live (conn w)) ->
  keys_unique (live (conn (snd (save_category k w)))).
Proof.
  intros Hk. destruct (save_category_cases k w) as [[_ E]|[Hfree E]]; rewrite E.
  - exact Hk.
  - cbv zeta. destruct Hk as (H1 & H2 & H3 & H4). unfold keys_unique. simpl.
    rewrite !map_app. simpl. repeat split; auto.
    + apply NoDup_snoc; [exact H1 | apply next_rowid_fresh].
    + apply NoDup_snoc; assumption.
Qed.

Lemma save_recipe_keeps_keys (r : staged) (w : world) :
  keys_unique (live (conn w)) ->
  keys_unique (live (conn (snd (save_recipe r w)))).
Proof.
  intros Hw. destruct r as [[n c] es].
  unfold save_recipe, bind, category_map_item, bind, get_category_map. simpl.
  destruct (Dict.get c (category_map w)) as [v|] eqn:Eg; simpl; [|exact Hw].
  unfold execute at 1.
  destruct (insert_staged_recipe n v (conn w)) as [e0|[rid c']] eqn:Ei; [exact Hw|].
  pose proof (keys_insert_staged_recipe _ _ _ _ _ Ei Hw) as Hc'.
  assert (Hing : forall x w', keys_unique (live (conn w')) ->
                   keys_unique (live (conn (snd (save_ingredient rid x w'))))).
  { intros x w' Hw'. unfold save_ingredient, bind, execute.
    destruct (insert_ingredient _ rid (conn w')) as [e|[id c'']] eqn:E; simpl;
      [exact Hw'|].
    exact (keys_insert_ingredient _ _ _ _ _ E Hw'). }
  pose proof (for_each_keeps (fun w' => keys_unique (live (conn w')))
                (save_ingredient rid) es Hing
                (mk_world c' (recipe_list w) (ingredient_list w)
                          (category_map w) (stdout w)) Hc') as Hl.
  destruct (for_each es (save_ingredient rid) _) as [[u|e1] w2]; simpl in *;
    exact Hl.
Qed.

Lemma save_to_database_keeps_keys (lower : str -> str) (answer : str) (w : world) :
  keys_unique (live (conn w)) ->
  keys_unique (live (conn (snd (save_to_database lower answer w)))).
Proof.
  intros Hk.
  destruct (eqb (strip (lower answer)) (lit "y")) eqn:Hy.
  - rewrite (save_to_database_steps _ _ _ Hy).
    pose proof (for_each_keeps (fun w' => keys_unique (live (conn w')))
                  save_category (Dict.keys (category_map w))
                  save_category_keeps_keys
                  (mk_world (conn w) (recipe_list w) (ingredient_list w)
                     (category_map w)
                     (stdout w ++ [NumberOfRecordsToSave (List.length (recipe_list w))]))
                  Hk) as HA.
    destruct (for_each (Dict.keys (category_map w)) save_category _)
      as [[[]|e] wA]; simpl in HA; [|exact HA].
    pose proof (for_each_keeps (fun w' => keys_unique (live (conn w')))
      save_recipe (recipe_list wA) save_recipe_keeps_keys
      (mk_world (mk_connection (live (conn wA)) (live (conn wA))
                               (foreign_keys (conn wA)))
                (recipe_list wA) (ingredient_list wA) (category_map wA) (stdout wA))
      HA) as HB.
    destruct (for_each (recipe_list wA) save_recipe _) as [[u2|e] wB]; exact HB.
  - unfold save_to_database, bind, get_recipe_list, print. simpl.
    rewrite Hy. exact Hk.
Qed.

(** X14: the keys of the schema are invariants of the class.  If the
    identifiers of each table and the category names are pairwise
    distinct, they are so again after any method, with any arguments and
    however the method ends. *)
Theorem X14_keys_stay_unique (lower : str -> str) (w : world) :
  keys_unique (live (conn w)) ->
  (forall file, keys_unique (live (conn (snd (read_recipe_data file w)))))
  /\ (forall answer,
        keys_unique (live (conn (snd (save_to_database lower answer w)))))
  /\ (forall name category_name,
        keys_unique (live (conn (snd (add_recipe name category_name w)))))
  /\ (forall recipe_id,
        keys_unique (live (conn (snd (delete_recipe recipe_id w)))))
  /\ (forall recipe_id new_name new_category,
        keys_unique
          (live (conn (snd (update_recipe recipe_id new_name new_category w))))).
Proof.
  intros Hk. split; [|split; [|split; [|split]]].
  - intros file. destruct (read_recipe_data_keeps_connection file w) as [_ ->].
    exact Hk.
  - intros answer. now apply save_to_database_keeps_keys.
  - intros name c. now apply add_recipe_keeps_keys.
  - intros recipe_id. now apply delete_recipe_keeps_keys.
  - intros recipe_id n c. now apply update_recipe_keeps_keys.
Qed.

Lemma X14_keys_stay_unique_witness :
  let w := mk_world (mk_connection fresh fresh false)
             [(lit "Soup", lit "Main", [lit "salt"; lit "1 leek"])] []
             [(lit "Main", None)] [] in
  keys_unique (live (conn (snd (save_to_database ascii_lower (lit "y") w))))
  /\ keys_unique (live (conn (snd (add_recipe (lit "Pie") (lit "Main") w)))).
Proof.
  cbv zeta.
  destruct (X14_keys_stay_unique ascii_lower
    (mk_world (mk_connection fresh fresh false)
             [(lit "Soup", lit "Main", [lit "salt"; lit "1 leek"])] []
             [(lit "Main", None)] [])) as (_ & Hs & Ha & _).
  - unfold keys_unique. simpl. repeat split; constructor.
  - split; [apply Hs | apply Ha].
Defined.

(** ** delete_recipe: every case *)

(** X15: [delete_recipe] on a recipe that ingredients refer to.  With
    foreign keys enforced the delete is refused: nothing changes and the
    error is printed instead of the success message.  Without enforcement
    the recipe row goes and its ingredients rows stay, referring to an
    identifier no recipes row has any more. *)
Theorem X15_delete_recipe_with_ingredients (w : world) (recipe_id : Z) :
  In recipe_id (map rec_id (recipes (live (conn w)))) ->
  In recipe_id (map ing_recipe_id (ingredients (live (conn w)))) ->
  (foreign_keys (conn w) = true ->
   delete_recipe recipe_id w =
   (Ret tt, mk_world (conn w) (recipe_list w) (ingredient_list w) (category_map w)
              (stdout w ++ [ErrorDeletingRecipe (IntegrityError FOREIGN_KEY)])))
  /\ (foreign_keys (conn w) = false ->
      let t' := live (conn (snd (delete_recipe recipe_id w))) in
      ~ In recipe_id (map rec_id (recipes t'))
      /\ In recipe_id (map ing_recipe_id (ingredients t'))
      /\ stdout (snd (delete_recipe recipe_id w))
         = stdout w ++ [RecipeDeletedSuccessfully]).
Proof.
  intros Hrec Hing.
  destruct w as [[[cat cseq recs rseq ings iseq] du fk] rl il cm out].
  simpl in Hrec, Hing. pose proof (in_binds _ _ Hrec) as Hb.
  apply has_id_In in Hrec. apply has_id_In in Hing.
  unfold delete_recipe, try_except, bind, execute, delete_recipe_by_id,
    commit, print. simpl. rewrite Hb, Hrec, Hing.
  split; intros ->; simpl; [reflexivity|].
  split; [|split; [now apply has_id_In | reflexivity]].
  intros H. apply in_map_iff in H. destruct H as (r & Hid & Hin).
  apply filter_In in Hin. destruct Hin as [_ Hne].
  rewrite Hid, Z.eqb_refl in Hne. discriminate Hne.
Qed.

Lemma X15_delete_recipe_with_ingredients_witness :
  let t := mk_tables [mk_category 1 (lit "Dessert")] 1
                     [mk_recipe 1 (lit "Pie") (Some 1%Z)] 1
                     [mk_ingredient 1 (lit "1 apple") 1] 1 in
  recipes (live (conn (snd (delete_recipe 1 (init (mk_connection t t true)))))) 
  = [mk_recipe 1 (lit "Pie") (Some 1%Z)]
  /\ ~ In 1%Z (map rec_id
         (recipes (live (conn (snd (delete_recipe 1
                                      (init (mk_connection t t false)))))))).
Proof.
  cbv zeta.
  pose (t := mk_tables [mk_category 1 (lit "Dessert")] 1
                     [mk_recipe 1 (lit "Pie") (Some 1%Z)] 1
                     [mk_ingredient 1 (lit "1 apple") 1] 1).
  destruct (X15_delete_recipe_with_ingredients (init (mk_connection t t true)) 1)
    as [Hon _]; [simpl; now left | simpl; now left |].
  destruct (X15_delete_recipe_with_ingredients (init (mk_connection t t false)) 1)
    as [_ Hoff]; [simpl; now left | simpl; now left |].
  unfold t in Hon, Hoff. split.
  - rewrite (Hon eq_refl). reflexivity.
  - apply (Hoff eq_refl).
Defined.

(** X16: deleting is idempotent: a second [delete_recipe] of the same
    identifier leaves every table as the first one left it. *)
Theorem X16_delete_recipe_twice (w : world) (recipe_id : Z) :
  live (conn (snd (delete_recipe recipe_id (snd (delete_recipe recipe_id w)))))
  = live (conn (snd (delete_recipe recipe_id w))).
Proof.
  destruct w as [[[cat cseq recs rseq ings iseq] du fk] rl il cm out].
  unfold delete_recipe, try_except, bind, execute, delete_recipe_by_id,
    commit, print. simpl.
  destruct (binds_rowid recipe_id (map rec_id recs)) eqn:Eb; simpl;
    [|rewrite Eb; reflexivity].
  destruct (fk && has_id recipe_id (map rec_id recs)
            && has_id recipe_id (map ing_recipe_id ings)) eqn:E; simpl.
  - rewrite Eb, E. reflexivity.
  - destruct (binds_rowid recipe_id (map rec_id (filter _ recs))); simpl;
      [|reflexivity].
    assert (Hgone : has_id recipe_id
              (map rec_id (filter (fun r => negb (rec_id r =? recipe_id)%Z) recs))
            = false).
    { apply not_true_is_false. intros Eh.
      apply has_id_In in Eh. apply in_map_iff in Eh.
      destruct Eh as (r & Hid & Hin). apply filter_In in Hin.
      destruct Hin as [_ Hne]. rewrite Hid, Z.eqb_refl in Hne. discriminate Hne. }
    rewrite Hgone, andb_false_r. simpl. unfold set_live, set_recipes. simpl.
    rewrite filter_other_ids_same; [reflexivity|].
    intros Hin. apply has_id_In in Hin. congruence.
Qed.

(** ** update_recipe: its result *)

(** X17: [update_recipe] in full, for an identifier that is an integer of
    SQLite and names that encode as UTF-8.  It returns, prints the success
    message and commits.  The rows with the given identifier get the new
    name when a non-empty one is given (a name of blanks is non-empty),
    and, when a non-empty category is given, the identifier
    [get_category_id] finds for it, null when there is none; every other
    row and the other tables are as before.  Without a row of that
    identifier no table changes. *)
Theorem X17_update_recipe_result
    (w : world) (recipe_id : Z) (new_name new_category : option str) :
  fits_integer recipe_id = true ->
  (forall n, new_name = Some n -> encodable n = true) ->
  (forall c, new_category = Some c -> encodable c = true) ->
  let t := live (conn w) in
  let name_of r :=
    match new_name with
    | Some ((_ :: _) as n) => n
    | _ => rec_name r
    end in
  let category_of r :=
    match new_category with
    | Some ((_ :: _) as c) =>
        fetchone (map cat_id (filter (fun k => eqb (cat_name k) c) (category t)))
    | _ => rec_category_id r
    end in
  let t' :=
    set_recipes t
      (map (fun r => if (rec_id r =? recipe_id)%Z
                     then mk_recipe (rec_id r) (name_of r) (category_of r)
                     else r) (recipes t))
      (recipes_seq t) in
  update_recipe recipe_id new_name new_category w =
  (Ret tt, mk_world (mk_connection t' t' (foreign_keys (conn w)))
             (recipe_list w) (ingredient_list w) (category_map w)
             (stdout w ++ [RecipeUpdatedSuccessfully]))
  /\ (~ In recipe_id (map rec_id (recipes t)) -> t' = t).
Proof.
  intros Hfit Hn Hc. cbv zeta. split.
  - exact (update_recipe_runs w recipe_id new_name new_category Hfit Hn Hc).
  - intros Hno. destruct w as [[[cat cseq recs rseq ings iseq] du fk] rl il cm out].
    unfold set_recipes. simpl in *. f_equal.
    erewrite map_ext_in; [apply map_id|].
    intros r Hr. destruct (Z.eqb_spec (rec_id r) recipe_id) as [E|E];
      [|reflexivity].
    exfalso. apply Hno. rewrite <- E. now apply in_map.
Qed.

Lemma X17_update_recipe_result_witness :
  let t := mk_tables [mk_category 1 (lit "Dessert"); mk_category 2 (lit "Main")] 2
                     [mk_recipe 1 (lit "Pie") (Some 1%Z);
                      mk_recipe 2 (lit "Soup") None] 2 [] 0 in
  recipes (live (conn (snd (update_recipe 2 (Some (lit " ")) (Some (lit "Main"))
                              (init (mk_connection t t true))))))
  = [mk_recipe 1 (lit "Pie") (Some 1%Z); mk_recipe 2 (lit " ") (Some 2%Z)]
  /\ live (conn (snd (update_recipe 7 (Some (lit "Stew")) None
                        (init (mk_connection t t true))))) = t.
Proof.
  cbv zeta.
  pose (t := mk_tables [mk_category 1 (lit "Dessert"); mk_category 2 (lit "Main")] 2
                     [mk_recipe 1 (lit "Pie") (Some 1%Z);
                      mk_recipe 2 (lit "Soup") None] 2 [] 0).
  destruct (X17_update_recipe_result (init (mk_connection t t true)) 2
              (Some (lit " ")) (Some (lit "Main"))) as [E1 _];
    [reflexivity
    | intros n H; inversion H; reflexivity
    | intros c H; inversion H; reflexivity |].
  destruct (X17_update_recipe_result (init (mk_connection t t true)) 7
              (Some (lit "Stew")) None) as [E2 H2];
    [reflexivity
    | intros n H; inversion H; reflexivity
    | intros c H; discriminate H |].
  cbv zeta in E1, E2, H2. unfold t in E1, E2, H2. split.
  - rewrite E1. reflexivity.
  - rewrite E2. cbn [snd conn live]. apply H2.
    simpl. intros [H|[H|[]]]; discriminate H.
Defined.

(** X18: updating is idempotent: the same [update_recipe] a second time
    leaves every table as the first one left it. *)
Theorem X18_update_recipe_twice
    (w : world) (recipe_id : Z) (new_name new_category : option str) :
  live (conn (snd (update_recipe recipe_id new_name new_category
                     (snd (update_recipe recipe_id new_name new_category w)))))
  = live (conn (snd (update_recipe recipe_id new_name new_category w))).
Proof.
  pose proof (update_recipe_live w recipe_id new_name new_category) as E1.
  pose proof (update_recipe_live
                (snd (update_recipe recipe_id new_name new_category w))
                recipe_id new_name new_category) as E2.
  cbv zeta in E1, E2. rewrite E2. clear E2. rewrite E1. clear E1.
  assert (Hsame : forall t : tables,
    set_recipes
      (set_recipes t
         (map (fun r => if (rec_id r =? recipe_id)%Z
                  then mk_recipe (rec_id r)
                         match new_name with
                         | Some ((_ :: _) as n) => n
                         | _ => rec_name r
                         end
                         match new_category with
                         | Some ((_ :: _) as c) =>
                             fetchone (map cat_id
                               (filter (fun k => eqb (cat_name k) c) (category t)))
                         | _ => rec_category_id r
                         end
                  else r) (recipes t))
         (recipes_seq t))
      (map (fun r => if (rec_id r =? recipe_id)%Z
               then mk_recipe (rec_id r)
                      match new_name with
                      | Some ((_ :: _) as n) => n
                      | _ => rec_name r
                      end
                      match new_category with
                      | Some ((_ :: _) as c) =>
                          fetchone (map cat_id
                            (filter (fun k => eqb (cat_name k) c) (category t)))
                      | _ => rec_category_id r
                      end
               else r)
         (map (fun r => if (rec_id r =? recipe_id)%Z
                  then mk_recipe (rec_id r)
                         match new_name with
                         | Some ((_ :: _) as n) => n
                         | _ => rec_name r
                         end
                         match new_category with
                         | Some ((_ :: _) as c) =>
                             fetchone (map cat_id
                               (filter (fun k => eqb (cat_name k) c) (category t)))
                         | _ => rec_category_id r
                         end
                  else r) (recipes t)))
      (recipes_seq t)
    = set_recipes t
        (map (fun r => if (rec_id r =? recipe_id)%Z
                 then mk_recipe (rec_id r)
                        match new_name with
                        | Some ((_ :: _) as n) => n
                        | _ => rec_name r
                        end
                        match new_category with
                        | Some ((_ :: _) as c) =>
                            fetchone (map cat_id
                              (filter (fun k => eqb (cat_name k) c) (category t)))
                        | _ => rec_category_id r
                        end
                 else r) (recipes t))
        (recipes_seq t)).
  { intros t. unfold set_recipes.
    cbn [category category_seq recipes recipes_seq ingredients ingredients_seq].
    f_equal. rewrite map_map. apply map_ext. intros r.
    destruct (rec_id r =? recipe_id)%Z eqn:Er;
      cbn [rec_id rec_name rec_category_id]; rewrite Er; [|reflexivity].
    destruct new_name as [[|n0 ns]|]; destruct new_category as [[|c0 cs]|];
      reflexivity. }
  destruct new_name as [[|n0 ns]|];
    try (destruct (encodable (n0 :: ns)); [|reflexivity]);
    cbn [category recipes recipes_seq set_recipes]; apply Hsame.
Qed.

(** ** add_recipe, delete_recipe and AUTOINCREMENT *)

(** X19: an identifier is not given out twice.  When the category exists
    and the recipe names encode as UTF-8,
    [add_recipe] appends a row with a fresh identifier; deleting that row
    again (possible unless foreign keys are enforced and an ingredient
    already refers to that identifier) restores the rows of the table, and
    the next [add_recipe] gets the following identifier, not the freed
    one. *)
Theorem X19_deleted_identifier_is_not_reused
    (w : world) (name name' category_name : str) (cid : Z) :
  encodable name = true ->
  encodable name' = true ->
  fst (get_category_id category_name w) = Ret (Some cid) ->
  let t := live (conn w) in
  let id := next_rowid (map rec_id (recipes t)) (recipes_seq t) in
  foreign_keys (conn w) = false
  \/ ~ In id (map ing_recipe_id (ingredients t)) ->
  let w1 := snd (add_recipe name category_name w) in
  let w2 := snd (delete_recipe id w1) in
  let w3 := snd (add_recipe name' category_name w2) in
  recipes (live (conn w1)) = recipes t ++ [mk_recipe id name (Some cid)]
  /\ recipes (live (conn w2)) = recipes t
  /\ recipes (live (conn w3))
     = recipes t ++ [mk_recipe (id + 1) name' (Some cid)].
Proof.
  intros Hname Hname'.
  destruct (get_category_id_runs category_name w) as (out0 & Eg).
  rewrite Eg. cbn [fst]. intros Hsel. cbv zeta.
  inversion Hsel as [Hf]. clear Hsel Eg out0.
  assert (Hbt : binds_text category_name
                  (map cat_name (category (live (conn w)))) = true).
  { destruct (select_known _ _ _ Hf) as (r & Hr & _ & Hn).
    apply held_binds. apply in_map_iff. exists r. split; [exact Hn | exact Hr]. }
  destruct w as [[[cat cseq recs rseq ings iseq] du fk] rl il cm out].
  cbn [conn live category recipes recipes_seq ingredients foreign_keys] in *.
  intros Hdel.
  pose proof (selected_id_exists _ _ _ Hf) as Hcid.
  pose proof (in_binds _ _ Hcid) as Hbc. apply has_id_In in Hcid.
  set (id := next_rowid (map rec_id recs) rseq).
  assert (Hd : fk && has_id id (map rec_id (recs ++ [mk_recipe id name (Some cid)]))
               && has_id id (map ing_recipe_id ings) = false).
  { destruct Hdel as [->|Hno]; [reflexivity|].
    apply andb_false_iff. right. apply not_true_is_false. intros H.
    apply has_id_In in H. contradiction. }
  assert (Hfil : filter (fun r => negb (rec_id r =? id)%Z)
                        (recs ++ [mk_recipe id name (Some cid)]) = recs).
  { rewrite filter_app, filter_other_ids_same by apply next_rowid_fresh.
    simpl. rewrite Z.eqb_refl. simpl. apply app_nil_r. }
  assert (Hnext : next_rowid (map rec_id recs) id = (id + 1)%Z).
  { unfold id, next_rowid. pose proof (max_rowid_nonneg (map rec_id recs)). lia. }
  assert (Hbid : binds_rowid id
                    (map rec_id (recs ++ [mk_recipe id name (Some cid)])) = true).
  { apply in_binds. rewrite map_app, in_app_iff. right. now left. }
  unfold add_recipe, bind. rewrite get_category_id_reads by exact Hbt.
  cbn [conn live category]. rewrite Hf.
  unfold try_except, bind, execute, insert_recipe, insert_staged_recipe,
    commit, print, set_live, set_recipes.
  cbn [conn live category recipes recipes_seq ingredients foreign_keys
       category_seq ingredients_seq recipe_list ingredient_list category_map
       stdout fst snd].
  rewrite Hname, Hbc, Hcid. cbn [negb]. rewrite andb_false_r.
  cbn [conn live category recipes recipes_seq ingredients foreign_keys snd fst].
  fold id. split; [reflexivity|].
  unfold delete_recipe, try_except, bind, execute, delete_recipe_by_id, commit,
    print, set_live, set_recipes.
  cbn [conn live category recipes recipes_seq ingredients foreign_keys
       category_seq ingredients_seq recipe_list ingredient_list category_map
       stdout fst snd].
  rewrite Hbid. cbn [negb]. rewrite Hd.
  cbn [conn live category recipes recipes_seq ingredients foreign_keys
       category_seq ingredients_seq recipe_list ingredient_list category_map
       stdout fst snd].
  rewrite Hfil. split; [reflexivity|].
  rewrite get_category_id_reads by exact Hbt.
  cbn [conn live category recipes recipes_seq ingredients foreign_keys
       category_seq ingredients_seq recipe_list ingredient_list category_map
       stdout fst snd].
  rewrite Hf.
  cbn [conn live category recipes recipes_seq ingredients foreign_keys
       category_seq ingredients_seq recipe_list ingredient_list category_map
       stdout fst snd].
  rewrite Hname', Hbc, Hcid. cbn [negb]. rewrite andb_false_r.
  cbn [conn live category recipes recipes_seq ingredients foreign_keys snd fst].
  now rewrite Hnext.
Qed.

Lemma X19_deleted_identifier_is_not_reused_witness :
  let t := mk_tables [mk_category 1 (lit "Dessert")] 1
                     [mk_recipe 1 (lit "Pie") (Some 1%Z)] 1 [] 0 in
  let w := init (mk_connection t t true) in
  recipes (live (conn (snd (add_recipe (lit "Tart") (lit "Dessert")
            (snd (delete_recipe 2
               (snd (add_recipe (lit "Cake") (lit "Dessert") w))))))))
  = [mk_recipe 1 (lit "Pie") (Some 1%Z); mk_recipe 3 (lit "Tart") (Some 1%Z)].
Proof.
  cbv zeta.
  pose (t := mk_tables [mk_category 1 (lit "Dessert")] 1
                     [mk_recipe 1 (lit "Pie") (Some 1%Z)] 1 [] 0).
  destruct (X19_deleted_identifier_is_not_reused (init (mk_connection t t true))
              (lit "Cake") (lit "Tart") (lit "Dessert") 1) as (_ & _ & H).
  - reflexivity.
  - reflexivity.
  - reflexivity.
  - right. simpl. tauto.
  - exact H.
Defined.

(** ** get_category_id *)

(** X20: for a name that encodes as UTF-8 [get_category_id] looks up and
    nothing else.  It returns [None] exactly when no category row has the
    name, and otherwise the identifier of a row with that name; the world
    is unchanged.  With unique names it returns the identifier of the row
    of that name. *)
Theorem X20_get_category_id_finds_the_row (w : world) (category_name : str) :
  encodable category_name = true ->
  exists r,
    get_category_id category_name w = (Ret r, w)
    /\ (r = None <-> ~ In category_name (map cat_name (category (live (conn w)))))
    /\ (forall id, r = Some id ->
          In (mk_category id category_name) (category (live (conn w))))
    /\ (NoDup (map cat_name (category (live (conn w)))) ->
        forall id, In (mk_category id category_name) (category (live (conn w))) ->
                   r = Some id).
Proof.
  intros He. eexists.
  split; [apply (get_category_id_reads _ _ (encodable_binds _ _ He))|].
  split; [|split].
  - split.
    + intros Hnone Hin. apply in_map_iff in Hin. destruct Hin as (r & Hn & Hin).
      assert (Hf : In r (filter (fun r => eqb (cat_name r) category_name)
                                (category (live (conn w)))))
        by (apply filter_In; split; [exact Hin | now apply eqb_eq]).
      destruct (filter _ (category (live (conn w)))); [destruct Hf | discriminate].
    + intros Hno. now rewrite select_unknown.
  - intros id Hsome. destruct (select_known _ _ _ Hsome) as (r & Hin & Hid & Hn).
    destruct r as [i n]. simpl in *. now subst.
  - intros Hnd id Hin. now rewrite (select_the_row _ _ _ Hnd Hin).
Qed.

Lemma X20_get_category_id_finds_the_row_witness :
  let t := mk_tables [mk_category 1 (lit "Dessert"); mk_category 2 (lit "Main")] 2
                     [] 0 [] 0 in
  fst (get_category_id (lit "Main") (init (mk_connection t t false)))
  = Ret (Some 2%Z).
Proof.
  cbv zeta.
  destruct (X20_get_category_id_finds_the_row
              (init (mk_connection
                 (mk_tables [mk_category 1 (lit "Dessert"); mk_category 2 (lit "Main")]
                            2 [] 0 [] 0)
                 (mk_tables [mk_category 1 (lit "Dessert"); mk_category 2 (lit "Main")]
                            2 [] 0 [] 0) false))
              (lit "Main")) as (r & E & _ & _ & H); [reflexivity|].
  rewrite E. cbn [fst]. f_equal. apply H.
  - simpl. repeat constructor; simpl; intuition discriminate.
  - simpl. right. now left.
Defined.

(** ** The categories of an import *)

(** X21: an import creates one category row per category name of the
    file.  After a file is read to its end and saved on confirmation, in
    a store where its category names are free, the category table has
    grown by rows with pairwise distinct names, which are exactly the
    category names of the rows of at least three fields. *)
Theorem X21_one_category_per_name
    (lower : str -> str) (answer : str) (w : world)
    (header : list str) (rows : list (list str)) :
  eqb (strip (lower answer)) (lit "y") = true ->
  (forall row, In row rows -> (3 <= List.length row)%nat ->
     ~ In (nth 1 row []) (map cat_name (category (live (conn w))))) ->
  let w1 := snd (read_recipe_data (Opened (header :: rows) None) w) in
  let w2 := snd (save_to_database lower answer w1) in
  exists new_cats,
    category (live (conn w2)) = category (live (conn w)) ++ new_cats
    /\ NoDup (map cat_name new_cats)
    /\ forall k, In k (map cat_name new_cats) <->
         exists row, In row rows /\ (3 <= List.length row)%nat
                     /\ nth 1 row [] = k.
Proof.
  intros Hy Hfree. cbv zeta.
  destruct (read_recipe_data_opened w header rows) as (cm1 & out1 & E & Hnd & Hk).
  rewrite E. clear E.
  destruct w as [[[cat cseq recs rseq ings iseq] du fk] rl il cm out].
  cbn [snd conn live category recipes recipes_seq ingredients ingredient_list]
    in Hfree |- *.
  destruct (save_to_database_confirmed lower answer cat cseq recs rseq ings iseq
              du fk
              (map (fun row => (nth 0 row [], nth 1 row [], split COMMA None (nth 2 row [])))
                   (filter (fun row => (3 <=? List.length row)%nat) rows))
              il cm1 out1 Hy Hnd)
    as (new_cats & cseq' & new_recs & rseq' & new_ings & iseq' & cm' & E2
        & Hnames & _).
  - intros k Hin. apply Hk in Hin. destruct Hin as (row & Hr & Hv & <-).
    now apply Hfree.
  - intros n c es Hin. apply in_map_iff in Hin.
    destruct Hin as (row & Heq & Hin). inversion Heq; subst.
    apply filter_In in Hin. destruct Hin as [Hin Hv].
    apply Hk. exists row. split; [exact Hin|]. split; [|reflexivity].
    now apply Nat.leb_le.
  - cbv zeta in E2. rewrite E2. cbn [snd conn live category].
    exists new_cats. split; [reflexivity|]. rewrite Hnames. split; [exact Hnd|].
    exact Hk.
Qed.

Lemma X21_one_category_per_name_witness :
  let rows := [[lit "Pie"; lit "Dessert"; lit "1 apple"];
               [lit "Soup"; lit "Main"; lit "salt"];
               [lit "Cake"; lit "Dessert"; lit "2 eggs"]] in
  let header := [lit "name"; lit "category"; lit "ingredients"] in
  let w := init (mk_connection fresh fresh false) in
  let w1 := snd (read_recipe_data (Opened (header :: rows) None) w) in
  let w2 := snd (save_to_database ascii_lower (lit "y") w1) in
  NoDup (map cat_name (category (live (conn w2)))).
Proof.
  cbv zeta.
  destruct (X21_one_category_per_name ascii_lower (lit "y")
    (init (mk_connection fresh fresh false))
    [lit "name"; lit "category"; lit "ingredients"]
    [[lit "Pie"; lit "Dessert"; lit "1 apple"];
     [lit "Soup"; lit "Main"; lit "salt"];
     [lit "Cake"; lit "Dessert"; lit "2 eggs"]]) as (news & Hc & Hnd & _).
  - reflexivity.
  - intros row _ _ Hin. exact Hin.
  - cbv zeta in Hc. simpl app in Hc. rewrite Hc. exact Hnd.
Defined.

(** ** Ingredients and their recipes *)

Lemma recipe_refs_more_recipes (recs' : list recipe_row) (rseq' : Z) (t : tables) :
  (forall id, In id (map rec_id (recipes t)) -> In id (map rec_id recs')) ->
  recipe_refs_hold t -> recipe_refs_hold (set_recipes t recs' rseq').
Proof. unfold recipe_refs_hold. simpl. intros Hsub H i Hi. auto. Qed.

Lemma recipe_refs_insert_staged_recipe name v c id c' :
  insert_staged_recipe name v c = inr (id, c') ->
  recipe_refs_hold (live c) ->
  recipe_refs_hold (live c') /\ In id (map rec_id (recipes (live c'))).
Proof.
  unfold insert_staged_recipe. destruct (foreign_keys c && _); [discriminate|].
  intros H Hrefs. inversion H; subst. simpl. split.
  - apply recipe_refs_more_recipes; [|exact Hrefs].
    intros i Hi. rewrite map_app, in_app_iff. now left.
  - rewrite map_app, in_app_iff. right. now left.
Qed.

Lemma recipe_refs_update_name n recipe_id c c' :
  update_recipe_name n recipe_id c = inr (tt, c') ->
  recipe_refs_hold (live c) -> recipe_refs_hold (live c').
Proof.
  unfold update_recipe_name. bound_parameters.
  intros H Hrefs. inversion H; subst. simpl.
  apply recipe_refs_more_recipes; [|exact Hrefs].
  intros i Hi. rewrite map_map.
  erewrite map_ext; [exact Hi|]. intros r. simpl.
  now destruct (rec_id r =? recipe_id)%Z.
Qed.

Lemma recipe_refs_update_category v recipe_id c c' :
  update_recipe_category v recipe_id c = inr (tt, c') ->
  recipe_refs_hold (live c) -> recipe_refs_hold (live c').
Proof.
  unfold update_recipe_category. bound_parameters.
  destruct (foreign_keys c && _ && _); [discriminate|].
  intros H Hrefs. inversion H; subst. simpl.
  apply recipe_refs_more_recipes; [|exact Hrefs].
  intros i Hi. rewrite map_map.
  erewrite map_ext; [exact Hi|]. intros r. simpl.
  now destruct (rec_id r =? recipe_id)%Z.
Qed.

Lemma add_recipe_keeps_recipe_refs name category_name w :
  recipe_refs_hold (live (conn w)) ->
  recipe_refs_hold (live (conn (snd (add_recipe name category_name w)))).
Proof.
  intros Hrefs. unfold add_recipe, bind.
  destruct (get_category_id_runs category_name w) as (out0 & Eg). rewrite Eg.
  destruct (fetchone _) as [cid|]; [|exact Hrefs].
  unfold try_except, bind, execute. cbn [conn].
  destruct (insert_recipe name (Some cid) (conn w)) as [e|[id c']] eqn:Ei;
    [exact Hrefs|].
  simpl. apply (recipe_refs_insert_staged_recipe _ _ _ _ _ (insert_recipe_bound _ _ _ _ Ei) Hrefs).
Qed.

Lemma update_recipe_keeps_recipe_refs recipe_id new_name new_category w :
  recipe_refs_hold (live (conn w)) ->
  recipe_refs_hold
    (live (conn (snd (update_recipe recipe_id new_name new_category w)))).
Proof.
  intros Hrefs.
  pose proof (update_recipe_live w recipe_id new_name new_category) as E.
  cbv zeta in E. rewrite E. clear E.
  assert (Hnew : forall F : recipe_row -> recipe_row,
            (forall r, rec_id (F r) = rec_id r) ->
            recipe_refs_hold
              (set_recipes (live (conn w)) (map F (recipes (live (conn w))))
                           (recipes_seq (live (conn w))))).
  { intros F HF. apply recipe_refs_more_recipes; [|exact Hrefs].
    intros i Hi. rewrite updated_ids; [exact Hi | exact HF]. }
  assert (Hkept : forall (a : str) (b : option Z) (r : recipe_row),
            rec_id (if (rec_id r =? recipe_id)%Z then mk_recipe (rec_id r) a b else r)
            = rec_id r).
  { intros a b r. now destruct (rec_id r =? recipe_id)%Z. }
  destruct new_name as [[|n0 ns]|];
    try (destruct (encodable (n0 :: ns)); [|exact Hrefs]);
    apply Hnew; intros r; apply Hkept.
Qed.

Lemma delete_recipe_keeps_recipe_refs recipe_id w :
  foreign_keys (conn w) = true ->
  recipe_refs_hold (live (conn w)) ->
  recipe_refs_hold (live (conn (snd (delete_recipe recipe_id w)))).
Proof.
  intros Hfk Hrefs.
  destruct w as [[[cat cseq recs rseq ings iseq] du fk] rl il cm out].
  simpl in Hfk. subst fk. unfold recipe_refs_hold in *.
  unfold delete_recipe, try_except, bind, execute, delete_recipe_by_id,
    commit, print. simpl in *.
  destruct (binds_rowid recipe_id (map rec_id recs)); simpl; [|exact Hrefs].
  destruct (has_id recipe_id (map rec_id recs)
            && has_id recipe_id (map ing_recipe_id ings)) eqn:E; simpl.
  - exact Hrefs.
  - intros i Hi. specialize (Hrefs i Hi).
    apply in_map_iff in Hrefs. destruct Hrefs as (r & Hid & Hr).
    apply in_map_iff. exists r. split; [exact Hid|].
    apply filter_In. split; [exact Hr|].
    destruct (Z.eqb_spec (rec_id r) recipe_id) as [Heq|Hne]; [|reflexivity].
    exfalso. apply andb_false_iff in E. destruct E as [E|E].
    + apply not_true_iff_false in E. apply E. apply has_id_In.
      rewrite <- Heq. now apply in_map.
    + apply not_true_iff_false in E. apply E. apply has_id_In.
      rewrite <- Heq, Hid. now apply in_map.
Qed.

Lemma save_recipe_keeps_recipe_refs (r : staged) (w : world) :
  recipe_refs_hold (live (conn w)) ->
  recipe_refs_hold (live (conn (snd (save_recipe r w)))).
Proof.
  intros Hw. destruct r as [[n c] es].
  unfold save_recipe, bind, category_map_item, bind, get_category_map. simpl.
  destruct (Dict.get c (category_map w)) as [v|] eqn:Eg; simpl; [|exact Hw].
  unfold execute at 1.
  destruct (insert_staged_recipe n v (conn w)) as [e0|[rid c']] eqn:Ei; [exact Hw|].
  destruct (recipe_refs_insert_staged_recipe _ _ _ _ _ Ei Hw) as [Hc' Hrid].
  pose (I := fun w' : world =>
               recipe_refs_hold (live (conn w'))
               /\ In rid (map rec_id (recipes (live (conn w'))))).
  assert (Hing : forall x w', I w' -> I (snd (save_ingredient rid x w'))).
  { intros x w' [Hr Hi]. unfold save_ingredient, bind, execute, insert_ingredient.
    destruct (foreign_keys (conn w') && _); simpl; [now split|].
    split; [|exact Hi]. unfold recipe_refs_hold. simpl.
    intros i Hin. apply in_app_iff in Hin.
    destruct Hin as [Hin|[<-|[]]]; [now apply Hr | exact Hi]. }
  pose proof (for_each_keeps I (save_ingredient rid) es Hing
                (mk_world c' (recipe_list w) (ingredient_list w)
                          (category_map w) (stdout w)) (conj Hc' Hrid)) as [Hl _].
  destruct (for_each es (save_ingredient rid) _) as [[u|e1] w2]; simpl in *;
    exact Hl.
Qed.

Lemma save_to_database_keeps_recipe_refs
    (lower : str -> str) (answer : str) (w : world) :
  recipe_refs_hold (live (conn w)) ->
  recipe_refs_hold (live (conn (snd (save_to_database lower answer w)))).
Proof.
  intros Hrefs.
  destruct (eqb (strip (lower answer)) (lit "y")) eqn:Hy.
  - rewrite (save_to_database_steps _ _ _ Hy).
    assert (Hcat : forall k w', recipe_refs_hold (live (conn w')) ->
                     recipe_refs_hold (live (conn (snd (save_category k w'))))).
    { intros k w' Hw'.
      destruct (save_category_cases k w') as [[_ E]|[_ E]]; rewrite E; exact Hw'. }
    pose proof (for_each_keeps (fun w' => recipe_refs_hold (live (conn w')))
                  save_category (Dict.keys (category_map w)) Hcat
                  (mk_world (conn w) (recipe_list w) (ingredient_list w)
                     (category_map w)
                     (stdout w ++ [NumberOfRecordsToSave (List.length (recipe_list w))]))
                  Hrefs) as HA.
    destruct (for_each (Dict.keys (category_map w)) save_category _)
      as [[[]|e] wA]; simpl in HA; [|exact HA].
    pose proof (for_each_keeps (fun w' => recipe_refs_hold (live (conn w')))
      save_recipe (recipe_list wA) save_recipe_keeps_recipe_refs
      (mk_world (mk_connection (live (conn wA)) (live (conn wA))
                               (foreign_keys (conn wA)))
                (recipe_list wA) (ingredient_list wA) (category_map wA) (stdout wA))
      HA) as HB.
    destruct (for_each (recipe_list wA) save_recipe _) as [[u2|e] wB]; exact HB.
  - unfold save_to_database, bind, get_recipe_list, print. simpl.
    rewrite Hy. exact Hrefs.
Qed.

(** X22: ingredients keep their recipes through every method but an
    unenforced delete.  If every ingredients row refers to a recipes row,
    it is so again after [read_recipe_data], [save_to_database],
    [add_recipe] and [update_recipe], with any arguments and however they
    end, and after [delete_recipe] when the connection enforces foreign
    keys. *)
Theorem X22_ingredient_references_are_kept (lower : str -> str) (w : world) :
  recipe_refs_hold (live (conn w)) ->
  (forall file,
     recipe_refs_hold (live (conn (snd (read_recipe_data file w)))))
  /\ (forall answer,
        recipe_refs_hold (live (conn (snd (save_to_database lower answer w)))))
  /\ (forall name category_name,
        recipe_refs_hold (live (conn (snd (add_recipe name category_name w)))))
  /\ (forall recipe_id new_name new_category,
        recipe_refs_hold
          (live (conn (snd (update_recipe recipe_id new_name new_category w)))))
  /\ (foreign_keys (conn w) = true ->
      forall recipe_id,
        recipe_refs_hold (live (conn (snd (delete_recipe recipe_id w))))).
Proof.
  intros Hrefs. split; [|split; [|split; [|split]]].
  - intros file. destruct (read_recipe_data_keeps_connection file w) as [_ ->].
    exact Hrefs.
  - intros answer. now apply save_to_database_keeps_recipe_refs.
  - intros name c. now apply add_recipe_keeps_recipe_refs.
  - intros recipe_id n c. now apply update_recipe_keeps_recipe_refs.
  - intros Hfk recipe_id. now apply delete_recipe_keeps_recipe_refs.
Qed.

Lemma X22_ingredient_references_are_kept_witness :
  let t := mk_tables [mk_category 1 (lit "Dessert")] 1
                     [mk_recipe 1 (lit "Pie") (Some 1%Z)] 1
                     [mk_ingredient 1 (lit "1 apple") 1] 1 in
  let w := mk_world (mk_connection t t true)
             [(lit "Soup", lit "Main", [lit "salt"])] []
             [(lit "Main", None)] [] in
  recipe_refs_hold (live (conn (snd (save_to_database ascii_lower (lit "y") w))))
  /\ recipe_refs_hold (live (conn (snd (delete_recipe 1 w)))).
Proof.
  cbv zeta.
  destruct (X22_ingredient_references_are_kept ascii_lower
    (mk_world (mk_connection
                 (mk_tables [mk_category 1 (lit "Dessert")] 1
                            [mk_recipe 1 (lit "Pie") (Some 1%Z)] 1
                            [mk_ingredient 1 (lit "1 apple") 1] 1)
                 (mk_tables [mk_category 1 (lit "Dessert")] 1
                            [mk_recipe 1 (lit "Pie") (Some 1%Z)] 1
                            [mk_ingredient 1 (lit "1 apple") 1] 1) true)
             [(lit "Soup", lit "Main", [lit "salt"])] []
             [(lit "Main", None)] [])) as (_ & Hs & _ & _ & Hd).
  - unfold recipe_refs_hold. simpl. intros i [<-|[]]. simpl. now left.
  - split; [apply Hs | apply Hd; reflexivity].
Defined.
